(** * mcp_news_server.db : the read-only news repository

    A shallow embedding of [src/mcp_news_server/db.py] (class
    [NewsRepository]) and the properties of its four operations
    [list_symbols], [get_symbol_news], [search] and [fetch].

    Conventions of the embedding.
    - A Python [str] is a Rocq [string] whose characters are the code
      points U+0000..U+00FF; [strip], [lower], comparison and UTF-8
      encoding follow CPython on that range.
    - A Python [int] is a [Z]; list slicing [l[:n]] keeps Python's meaning
      for negative [n].
    - A [set] is a [gset], a [dict] a [gmap].
    - The repository object is a record; its methods are computations in a
      state-and-error monad.  The state also carries the list of statements
      sent to the engine, so that "no query is executed" is a statement
      about that list.
    - The database engine is an oracle indexed by the number of statements
      already sent: it may fail now and succeed later. *)

From Stdlib Require Import ZArith Lia Ascii.
From stdpp Require Import base option list strings gmap sorting pretty.

Open Scope string_scope.
Open Scope list_scope.
Open Scope Z_scope.

(** ** Python built-ins used by the module *)

Module Py.

Definition ord (c : ascii) : Z := Z.of_N (Ascii.N_of_ascii c).

(** [str.isspace] on one character: TAB..CR, FS..US, SPACE, NEL, NBSP. *)
Definition isspace (c : ascii) : bool :=
  let n := ord c in
  ((9 <=? n) && (n <=? 13)) || ((28 <=? n) && (n <=? 32))
  || (n =? 133) || (n =? 160).

Fixpoint lstrip (s : string) : string :=
  match s with
  | EmptyString => EmptyString
  | String c s' => if isspace c then lstrip s' else s
  end.

Fixpoint rstrip (s : string) : string :=
  match s with
  | EmptyString => EmptyString
  | String c s' =>
      match rstrip s' with
      | EmptyString => if isspace c then EmptyString else String c EmptyString
      | r => String c r
      end
  end.

(** [s.strip()] *)
Definition strip (s : string) : string := rstrip (lstrip s).

(** [str.lower] on one character: A..Z and the Latin-1 capitals
    U+00C0..U+00DE (without the multiplication sign U+00D7). *)
Definition lower_char (c : ascii) : ascii :=
  let n := ord c in
  if ((65 <=? n) && (n <=? 90))
     || ((192 <=? n) && (n <=? 222) && negb (n =? 215))
  then Ascii.ascii_of_N (Z.to_N (n + 32))
  else c.

(** [s.lower()] *)
Fixpoint lower (s : string) : string :=
  match s with
  | EmptyString => EmptyString
  | String c s' => String (lower_char c) (lower s')
  end.

(** [c in s] for a one-character [c]. *)
Fixpoint contains (c : ascii) (s : string) : bool :=
  match s with
  | EmptyString => false
  | String d s' => if decide (c = d) then true else contains c s'
  end.

(** [s.count(c)] for a one-character [c]. *)
Fixpoint count (c : ascii) (s : string) : nat :=
  match s with
  | EmptyString => O
  | String d s' => ((if decide (c = d) then 1 else 0) + count c s')%nat
  end.

(** [s.split(c, 1)]: one element when [c] does not occur, otherwise the
    text before the first [c] and the text after it. *)
Fixpoint split1 (c : ascii) (s : string) : list string :=
  match s with
  | EmptyString => [EmptyString]
  | String d s' =>
      if decide (c = d) then [EmptyString; s']
      else match split1 c s' with
           | [a] => [String d a]
           | a :: rest => String d a :: rest
           | [] => []
           end
  end.

(** [l[:n]] *)
Definition slice_to {A} (n : Z) (l : list A) : list A :=
  if n <? 0 then take (length l - Z.to_nat (- n)) l
  else take (Z.to_nat n) l.

(** [s[:n]] for [0 <= n] *)
Definition str_slice_to (n : nat) (s : string) : string :=
  String.substring 0 n s.

(** [len(l)] *)
Definition len {A} (l : list A) : Z := Z.of_nat (length l).

(** Order of [str]: lexicographic on code points. *)
Definition str_le (a b : string) : Prop := String.leb a b = true.

#[global] Instance str_le_dec : RelDecision str_le :=
  fun a b => decide (String.leb a b = true).

(** [sorted(s)] for a set of strings. *)
Definition sorted (s : gset string) : list string :=
  merge_sort str_le (elements s).

(** [list(dict.fromkeys(l))]: the first occurrence of each element, in
    order. *)
Definition fromkeys (l : list string) : list string :=
  foldl (fun acc x => if decide (x ∈ acc) then acc else acc ++ [x]) [] l.

(** [s.encode("utf-8")] for code points below 256. *)
Fixpoint encode_utf8 (s : string) : list Z :=
  match s with
  | EmptyString => []
  | String c s' =>
      let n := ord c in
      if n <? 128 then n :: encode_utf8 s'
      else Z.lor 192 (Z.shiftr n 6) :: Z.lor 128 (Z.land n 63)
             :: encode_utf8 s'
  end.

End Py.

(** ** hashlib.sha1 *)

Module Sha1.

Definition mask32 : Z := 4294967295.
Definition w32 (x : Z) : Z := Z.land x mask32.
Definition add32 (x y : Z) : Z := w32 (x + y).
Definition rotl (n x : Z) : Z :=
  w32 (Z.lor (Z.shiftl x n) (Z.shiftr x (32 - n))).

(** Big-endian bytes of [x], [n] of them. *)
Fixpoint be_bytes (n : nat) (x : Z) : list Z :=
  match n with
  | O => []
  | S n' => Z.land (Z.shiftr x (8 * Z.of_nat n')) 255 :: be_bytes n' x
  end.

(** The message, the byte 0x80, zeros up to 56 modulo 64, and the bit
    length on eight bytes. *)
Definition pad (msg : list Z) : list Z :=
  let l := Z.of_nat (length msg) in
  let zeros := Z.to_nat ((55 - l) mod 64) in
  msg ++ 128 :: replicate zeros 0 ++ be_bytes 8 (8 * l).

Fixpoint chunks {A} (fuel size : nat) (l : list A) : list (list A) :=
  match fuel with
  | O => []
  | S fuel' =>
      match l with
      | [] => []
      | _ => take size l :: chunks fuel' size (drop size l)
      end
  end.

Definition word_of (bs : list Z) : Z :=
  foldl (fun acc b => Z.lor (Z.shiftl acc 8) b) 0 bs.

(** The message schedule, newest word first. *)
Fixpoint expand (n : nat) (rev_w : list Z) : list Z :=
  match n with
  | O => rev_w
  | S n' =>
      let at_ i := nth i rev_w 0 in
      let w := rotl 1 (Z.lxor (Z.lxor (at_ 2%nat) (at_ 7%nat))
                              (Z.lxor (at_ 13%nat) (at_ 15%nat))) in
      expand n' (w :: rev_w)
  end.

Definition schedule (block : list Z) : list Z :=
  rev (expand 64 (rev (word_of <$> chunks 16 4 block))).

Definition State : Type := Z * Z * Z * Z * Z.

Definition round (t : nat) (w : Z) (s : State) : State :=
  let '(a, b, c, d, e) := s in
  let '(f, k) :=
    if (t <? 20)%nat then
      (Z.lor (Z.land b c) (Z.land (Z.lxor b mask32) d), 1518500249)
    else if (t <? 40)%nat then
      (Z.lxor (Z.lxor b c) d, 1859775393)
    else if (t <? 60)%nat then
      (Z.lor (Z.lor (Z.land b c) (Z.land b d)) (Z.land c d), 2400959708)
    else
      (Z.lxor (Z.lxor b c) d, 3395469782) in
  let temp := w32 (rotl 5 a + f + e + k + w) in
  (temp, a, rotl 30 b, c, d).

Fixpoint rounds (t : nat) (ws : list Z) (s : State) : State :=
  match ws with
  | [] => s
  | w :: ws' => rounds (S t) ws' (round t w s)
  end.

Definition compress (h : State) (block : list Z) : State :=
  let '(h0, h1, h2, h3, h4) := h in
  let '(a, b, c, d, e) := rounds 0 (schedule block) h in
  (add32 h0 a, add32 h1 b, add32 h2 c, add32 h3 d, add32 h4 e).

Definition init : State :=
  (1732584193, 4023233417, 2562383102, 271733878, 3285377520).

Definition hex_digit (n : Z) : ascii :=
  if n <? 10 then Ascii.ascii_of_N (Z.to_N (48 + n))
  else Ascii.ascii_of_N (Z.to_N (87 + n)).

Fixpoint hex_of_bytes (bs : list Z) : string :=
  match bs with
  | [] => EmptyString
  | b :: bs' =>
      String (hex_digit (Z.shiftr b 4))
        (String (hex_digit (Z.land b 15)) (hex_of_bytes bs'))
  end.

(** [hashlib.sha1(data).hexdigest()] *)
Definition hexdigest (data : list Z) : string :=
  let padded := pad data in
  let '(h0, h1, h2, h3, h4) :=
    foldl compress init (chunks (length padded) 64 padded) in
  hex_of_bytes (be_bytes 4 h0 ++ be_bytes 4 h1 ++ be_bytes 4 h2
                ++ be_bytes 4 h3 ++ be_bytes 4 h4).

End Sha1.

(** ** datetime.strptime(value, "%Y-%m-%d") *)

Module Strptime.

Definition is_digit (c : ascii) : bool :=
  (48 <=? Py.ord c) && (Py.ord c <=? 57).

Definition digit (c : ascii) : Z := Py.ord c - 48.

Definition in_range (lo hi : Z) (c : ascii) : bool :=
  is_digit c && (lo <=? digit c) && (digit c <=? hi).

(** The directive [%Y]: exactly four digits. *)
Definition directive_Y (s : string) : option (Z * string) :=
  match s with
  | String a (String b (String c (String d rest))) =>
      if is_digit a && is_digit b && is_digit c && is_digit d
      then Some (1000 * digit a + 100 * digit b + 10 * digit c + digit d,
                 rest)
      else None
  | _ => None
  end.

(** The directive [%m]: the alternatives [1[0-2]], [0[1-9]], [[1-9]],
    tried in this order. *)
Definition directive_m (s : string) : option (Z * string) :=
  match s with
  | String a rest =>
      let two :=
        match rest with
        | String b rest' =>
            if (digit a =? 1) && is_digit a && in_range 0 2 b
            then Some (10 + digit b, rest')
            else if (digit a =? 0) && is_digit a && in_range 1 9 b
            then Some (digit b, rest')
            else None
        | EmptyString => None
        end in
      match two with
      | Some r => Some r
      | None => if in_range 1 9 a then Some (digit a, rest) else None
      end
  | EmptyString => None
  end.

(** The directive [%d]: the alternatives [3[0-1]], [[1-2]\d], [0[1-9]],
    [[1-9]] and a space followed by [[1-9]], tried in this order. *)
Definition directive_d (s : string) : option (Z * string) :=
  match s with
  | String a rest =>
      let two :=
        match rest with
        | String b rest' =>
            if (digit a =? 3) && is_digit a && in_range 0 1 b
            then Some (30 + digit b, rest')
            else if in_range 1 2 a && is_digit b
            then Some (10 * digit a + digit b, rest')
            else if (digit a =? 0) && is_digit a && in_range 1 9 b
            then Some (digit b, rest')
            else None
        | EmptyString => None
        end in
      match two with
      | Some r => Some r
      | None =>
          if in_range 1 9 a then Some (digit a, rest)
          else match rest with
               | String b rest' =>
                   if decide (a = " "%char) then
                     if in_range 1 9 b then Some (digit b, rest') else None
                   else None
               | EmptyString => None
               end
      end
  | EmptyString => None
  end.

Definition expect (c : ascii) (s : string) : option string :=
  match s with
  | String d rest => if decide (c = d) then Some rest else None
  | EmptyString => None
  end.

Definition is_leap (y : Z) : bool :=
  (y mod 4 =? 0) && (negb (y mod 100 =? 0) || (y mod 400 =? 0)).

Definition days_in_month (y m : Z) : Z :=
  if m =? 2 then (if is_leap y then 29 else 28)
  else if (m =? 4) || (m =? 6) || (m =? 9) || (m =? 11) then 30
  else 31.

(** The parsed date, or [None] where [strptime] raises [ValueError]:
    no match of the format, text left over, or no such calendar day. *)
Definition parse (value : string) : option (Z * Z * Z) :=
  '(y, s1) ← directive_Y value;
  s2 ← expect "-"%char s1;
  '(m, s3) ← directive_m s2;
  s4 ← expect "-"%char s3;
  '(d, s5) ← directive_d s4;
  if decide (s5 = EmptyString) then
    if (1 <=? y) && (1 <=? d) && (d <=? days_in_month y m)
    then Some (y, m, d) else None
  else None.

End Strptime.

(** ** Rows, statements and the engine *)

(** A value of a row ([Any] in the source): SQL NULL, an integer, a text,
    or another driver object (a date, a decimal, ...) known by its truth
    value and its [str()] text. *)
Inductive Value : Type :=
| VNone
| VInt (z : Z)
| VStr (s : string)
| VObj (truth : bool) (text : string).

(** [bool(v)] *)
Definition truthy (v : Value) : bool :=
  match v with
  | VNone => false
  | VInt z => negb (z =? 0)
  | VStr s => negb (bool_decide (s = EmptyString))
  | VObj b _ => b
  end.

(** [str(v)] *)
Definition str (v : Value) : string :=
  match v with
  | VNone => "None"
  | VInt z => pretty z
  | VStr s => s
  | VObj _ text => text
  end.

(** A row: [dict[str, Any]]. *)
Abbreviation Row := (gmap string Value).

(** [row.get(key)] *)
Definition row_get (row : Row) (key : string) : Value :=
  default VNone (row !! key).

(** [v is None] *)
Definition is_None (v : Value) : bool :=
  match v with VNone => true | _ => false end.

(** Truth value of an optional text: [None] and the empty text are false. *)
Definition truthy_opt (o : option string) : bool :=
  match o with
  | Some s => negb (bool_decide (s = EmptyString))
  | None => false
  end.

Record Column : Type := { column_name : string; data_type : string }.

(** The statements [_query] is called with: the SQL text of each call site
    with its bound parameters. *)
Inductive Statement : Type :=
| SelectTables (schema : string)
    (* information_schema.tables of :schema, base tables *)
| SelectColumns (schema table_name : string)
    (* information_schema.columns of :schema/:table_name, by position *)
| SelectPrimaryKey (schema table_name : string)
    (* key columns of the PRIMARY KEY constraint, by position, LIMIT 1 *)
| SelectNews (symbol : string) (date_filter : option (string * string))
    (order_by : option string) (limit : Z)
    (* SELECT * FROM `symbol` [WHERE `col` >= :date_from]
       [ORDER BY `col` DESC] LIMIT :limit *)
| SelectSearch (symbol : string) (columns : list string) (pattern : string)
    (date_filter : option (string * string)) (order_by : option string)
    (limit : Z)
    (* SELECT * FROM `symbol` WHERE (`c1` LIKE :pattern OR ...)
       [AND `col` >= :date_from] [ORDER BY `col` DESC] LIMIT :limit *)
| SelectByKey (symbol primary_key raw_pk : string)
    (* SELECT * FROM `symbol` WHERE `primary_key` = :pk LIMIT 1 *).

(** The table a statement reads rows from, when it reads a symbol table. *)
Definition table_read (q : Statement) : option string :=
  match q with
  | SelectNews symbol _ _ _ => Some symbol
  | SelectSearch symbol _ _ _ _ _ => Some symbol
  | SelectByKey symbol _ _ => Some symbol
  | _ => None
  end.

(** The symbol a statement is about, metadata statements included. *)
Definition table_named (q : Statement) : option string :=
  match q with
  | SelectTables _ => None
  | SelectColumns _ t => Some t
  | SelectPrimaryKey _ t => Some t
  | _ => table_read q
  end.

(** The value bound to [:limit]. *)
Definition limit_bound (q : Statement) : option Z :=
  match q with
  | SelectNews _ _ _ limit => Some limit
  | SelectSearch _ _ _ _ _ limit => Some limit
  | SelectByKey _ _ _ => Some 1
  | _ => None
  end.

(** The engine: what [connection.execute] answers to the statement sent
    as number [n] (counting from 0), [None] when it raises.  The answers to
    the three metadata statements are given with the columns they select:
    table names, (column name, declared type), key column names. *)
Record Engine : Type := {
  answer_tables : nat -> string -> option (list string);
  answer_columns : nat -> string -> string -> option (list Column);
  answer_primary_key : nat -> string -> string -> option (list string);
  answer_rows : nat -> Statement -> option (list Row);
}.

(** ** The repository object *)

Record NewsRepository : Type := {
  schema : string;
  max_rows : Z;
  max_scan_symbols : Z;
  _symbols_cache : gset string;
  _symbol_lookup_cache : gmap string string;
  _columns_cache : gmap string (list Column);
  _primary_key_cache : gmap string (option string);
  (** statements sent to the engine so far, oldest first *)
  sent : list Statement;
}.

(** [NewsRepository.__init__] *)
Definition init (schema : string) (max_rows max_scan_symbols : Z)
  : NewsRepository :=
  {| schema := schema; max_rows := max_rows;
     max_scan_symbols := max_scan_symbols;
     _symbols_cache := ∅; _symbol_lookup_cache := ∅;
     _columns_cache := ∅; _primary_key_cache := ∅; sent := [] |}.

Definition set_symbols_cache (v : gset string) (r : NewsRepository) :=
  {| schema := schema r; max_rows := max_rows r;
     max_scan_symbols := max_scan_symbols r;
     _symbols_cache := v; _symbol_lookup_cache := _symbol_lookup_cache r;
     _columns_cache := _columns_cache r;
     _primary_key_cache := _primary_key_cache r; sent := sent r |}.

Definition set_symbol_lookup_cache (v : gmap string string)
    (r : NewsRepository) :=
  {| schema := schema r; max_rows := max_rows r;
     max_scan_symbols := max_scan_symbols r;
     _symbols_cache := _symbols_cache r; _symbol_lookup_cache := v;
     _columns_cache := _columns_cache r;
     _primary_key_cache := _primary_key_cache r; sent := sent r |}.

Definition set_columns_cache (v : gmap string (list Column))
    (r : NewsRepository) :=
  {| schema := schema r; max_rows := max_rows r;
     max_scan_symbols := max_scan_symbols r;
     _symbols_cache := _symbols_cache r;
     _symbol_lookup_cache := _symbol_lookup_cache r;
     _columns_cache := v;
     _primary_key_cache := _primary_key_cache r; sent := sent r |}.

Definition set_primary_key_cache (v : gmap string (option string))
    (r : NewsRepository) :=
  {| schema := schema r; max_rows := max_rows r;
     max_scan_symbols := max_scan_symbols r;
     _symbols_cache := _symbols_cache r;
     _symbol_lookup_cache := _symbol_lookup_cache r;
     _columns_cache := _columns_cache r;
     _primary_key_cache := v; sent := sent r |}.

Definition set_sent (v : list Statement) (r : NewsRepository) :=
  {| schema := schema r; max_rows := max_rows r;
     max_scan_symbols := max_scan_symbols r;
     _symbols_cache := _symbols_cache r;
     _symbol_lookup_cache := _symbol_lookup_cache r;
     _columns_cache := _columns_cache r;
     _primary_key_cache := _primary_key_cache r; sent := v |}.

(** ** Exceptions and the monad of methods *)

(** The [ValueError]s the module raises, by message, and what escapes
    from the engine or from Python itself. *)
Inductive Error : Type :=
| UnknownSymbol (symbol : string)   (* "Unknown symbol table '...'." *)
| InvalidLimit                      (* "limit must be greater than zero." *)
| InvalidDateFormat                 (* "date_from must be in YYYY-MM-DD format." *)
| MalformedId                       (* "Expected id format '<SYMBOL>:<PRIMARY_KEY_VALUE>'." *)
| NoPrimaryKey (symbol : string)    (* "Table '...' has no primary key. ..." *)
| NotFound (identifier : string)    (* "No row found for id '...'." *)
| QueryFailed                       (* raised inside [_query] *)
| PythonError (name : string)       (* IndexError, unpacking *).

Inductive Result (A : Type) : Type :=
| Ok (a : A)
| Raise (e : Error).
Arguments Ok {A} a.
Arguments Raise {A} e.

(** A method: from the object before the call to the outcome and the
    object after it.  An exception keeps the assignments made before it. *)
Definition M (A : Type) : Type := NewsRepository -> Result A * NewsRepository.

#[global] Instance M_ret : MRet M := fun A a r => (Ok a, r).

#[global] Instance M_bind : MBind M := fun A B k c r =>
  match c r with
  | (Ok a, r') => k a r'
  | (Raise e, r') => (Raise e, r')
  end.

Definition raise {A} (e : Error) : M A := fun r => (Raise e, r).
Definition self : M NewsRepository := fun r => (Ok r, r).
Definition assign (f : NewsRepository -> NewsRepository) : M unit :=
  fun r => (Ok tt, f r).

Fixpoint mapM {A B} (f : A -> M B) (l : list A) : M (list B) :=
  match l with
  | [] => mret []
  | x :: l' => y ← f x; ys ← mapM f l'; mret (y :: ys)
  end.

(** ** Module constants *)

Definition PREFERRED_TEXT_COLUMNS : list string :=
  [ "Title"; "title"; "headline"; "Headline"; "summary"; "Summary";
    "description"; "Description"; "content"; "Content"; "body"; "Body" ].

Definition PREFERRED_DATE_COLUMNS : list string :=
  [ "date"; "Date"; "published_at"; "publishedAt"; "created_at"; "datetime" ].

Definition TEXT_DATA_TYPES : gset string :=
  {[ "char"; "varchar"; "tinytext"; "text"; "mediumtext"; "longtext" ]}.

Definition BODY_COLUMNS : list string :=
  [ "summary"; "Summary"; "description"; "Description"; "content";
    "Content"; "body"; "Body" ].

(** ** Results handed to the caller *)

(** The dictionary [search] builds for a row. *)
Record SearchResult : Type := {
  sr_id : string;
  sr_title : string;
  sr_url : string;
  sr_text : string;
  sr_symbol : string;
  sr_date : option string;
}.

Record Metadata : Type := {
  md_symbol : string;
  md_schema : string;
  md_primary_key_column : string;
  md_raw_row : Row;
}.

(** The dictionary [fetch] returns. *)
Record Document : Type := {
  doc_id : string;
  doc_title : string;
  doc_text : string;
  doc_url : string;
  doc_metadata : Metadata;
}.

(** [sep.join(parts)] *)
Fixpoint join (sep : string) (parts : list string) : string :=
  match parts with
  | [] => EmptyString
  | [p] => p
  | p :: rest => p +:+ sep +:+ join sep rest
  end.

Definition NL2 : string :=
  String (ascii_of_nat 10) (String (ascii_of_nat 10) EmptyString).

(** ** The methods of [NewsRepository] *)

Section Repository.

(** The engine behind [self.engine], and [str(row)] of a whole row (its
    text depends on the column order and on the driver's types). *)
Context (engine : Engine) (str_of_row : Row -> string).

(** [_query], one definition per shape of answer: the statement is sent,
    then the engine answers or raises. *)
Definition _query {A} (q : Statement)
    (answer : nat -> option A) : M A :=
  fun r =>
    let r' := set_sent (sent r ++ [q]) r in
    match answer (length (sent r)) with
    | Some rows => (Ok rows, r')
    | None => (Raise QueryFailed, r')
    end.

Definition _query_tables (schema : string) : M (list string) :=
  _query (SelectTables schema)
         (fun n => answer_tables engine n schema).

Definition _query_columns (schema table_name : string) : M (list Column) :=
  _query (SelectColumns schema table_name)
         (fun n => answer_columns engine n schema table_name).

Definition _query_primary_key (schema table_name : string)
  : M (list string) :=
  _query (SelectPrimaryKey schema table_name)
         (fun n => answer_primary_key engine n schema table_name).

Definition _query_rows (q : Statement) : M (list Row) :=
  _query q (fun n => answer_rows engine n q).

(** [{name.lower(): name for name in names}]; on a clash of lowered
    names the name met last stays. *)
Definition lookup_of (names : gset string) : gmap string string :=
  set_fold (fun name m => <[Py.lower name := name]> m) ∅ names.

Definition _refresh_symbols_cache : M unit :=
  r ← self;
  if decide (_symbols_cache r = ∅) then
    rows ← _query_tables (schema r);
    _ ← assign (set_symbols_cache (list_to_set rows));
    r ← self;
    assign (set_symbol_lookup_cache (lookup_of (_symbols_cache r)))
  else mret tt.

Definition _validate_symbol (symbol : string) : M string :=
  _ ← _refresh_symbols_cache;
  r ← self;
  let normalized := Py.strip symbol in
  if decide (normalized ∈ _symbols_cache r) then mret normalized
  else
    let fallback := _symbol_lookup_cache r !! Py.lower normalized in
    if truthy_opt fallback then mret (default EmptyString fallback)
    else raise (UnknownSymbol symbol).

Definition _safe_limit (requested : Z) : M Z :=
  r ← self;
  if requested <=? 0 then raise InvalidLimit
  else mret (Z.min requested (max_rows r)).

Definition _validate_date (value : string) : M unit :=
  match Strptime.parse value with
  | Some _ => mret tt
  | None => raise InvalidDateFormat
  end.

Definition _resolve_columns (symbol : string) : M (list Column) :=
  r ← self;
  match _columns_cache r !! symbol with
  | Some columns => mret columns
  | None =>
      columns ← _query_columns (schema r) symbol;
      r ← self;
      _ ← assign (set_columns_cache (<[symbol := columns]> (_columns_cache r)));
      mret columns
  end.

Definition _resolve_primary_key (symbol : string) : M (option string) :=
  r ← self;
  match _primary_key_cache r !! symbol with
  | Some primary_key => mret primary_key
  | None =>
      rows ← _query_primary_key (schema r) symbol;
      let primary_key := head rows in
      r ← self;
      _ ← assign (set_primary_key_cache
                    (<[symbol := primary_key]> (_primary_key_cache r)));
      mret primary_key
  end.

Definition _resolve_searchable_columns (symbol : string)
  : M (list string) :=
  columns ← _resolve_columns symbol;
  let available : gset string := list_to_set (column_name <$> columns) in
  let preferred :=
    filter (fun name => name ∈ available) PREFERRED_TEXT_COLUMNS in
  match preferred with
  | _ :: _ => mret preferred
  | [] =>
      let fallback :=
        column_name <$>
          filter (fun column => Py.lower (data_type column) ∈ TEXT_DATA_TYPES)
                 columns in
      mret (Py.slice_to 3 fallback)
  end.

Definition _resolve_date_column (symbol : string) : M (option string) :=
  columns ← _resolve_columns symbol;
  let available : gset string := list_to_set (column_name <$> columns) in
  mret (head (filter (fun candidate => candidate ∈ available)
                     PREFERRED_DATE_COLUMNS)).

Fixpoint first_truthy (row : Row) (candidates : list string) : string :=
  match candidates with
  | [] => EmptyString
  | candidate :: rest =>
      let value := row_get row candidate in
      if truthy value then str value else first_truthy row rest
  end.

Definition _extract_title (row : Row) : string :=
  first_truthy row PREFERRED_TEXT_COLUMNS.

Definition _extract_body (row : Row) : string :=
  let title := _extract_title row in
  let body_parts :=
    (if bool_decide (title = EmptyString) then [] else [title])
    ++ (str <$> filter (fun v => truthy v) (row_get row <$> BODY_COLUMNS)) in
  match body_parts with
  | [] => str_of_row row
  | _ => join NL2 body_parts
  end.

(** The text after the second bar of the digest input:
    [row.get('date', '')] formatted. *)
Definition raw_date_or_empty (row : Row) : string :=
  match row !! "date" with
  | Some v => str v
  | None => EmptyString
  end.

Definition digest_input (symbol : string) (row : Row) : string :=
  symbol +:+ "|" +:+ _extract_title row +:+ "|" +:+ raw_date_or_empty row.

Definition digest16 (symbol : string) (row : Row) : string :=
  Py.str_slice_to 16
    (Sha1.hexdigest (Py.encode_utf8 (digest_input symbol row))).

Definition _document_id (symbol : string) (row : Row) : M string :=
  primary_key ← _resolve_primary_key symbol;
  let pk := default EmptyString primary_key in
  if truthy_opt primary_key && negb (is_None (row_get row pk))
  then mret (symbol +:+ ":" +:+ str (row_get row pk))
  else mret (symbol +:+ ":" +:+ digest16 symbol row).

Definition _augment_row (symbol : string) (row : Row) : M Row :=
  document_id ← _document_id symbol row;
  mret (<["document_id" := VStr document_id]>
          (<["symbol" := VStr symbol]> row)).

Definition _search_result (symbol : string) (row : Row) : M SearchResult :=
  doc_id ← _document_id symbol row;
  r ← self;
  let title :=
    let t := _extract_title row in
    if bool_decide (t = EmptyString) then symbol +:+ " news item" else t in
  let date_value :=
    let v := row_get row "date" in
    if truthy v then v else row_get row "Date" in
  let snippet := _extract_body row in
  let snippet :=
    if (400 <? Z.of_nat (String.length snippet))
    then Py.str_slice_to 397 snippet +:+ "..." else snippet in
  match Py.split1 ":" doc_id with
  | _ :: key :: _ =>
      mret {| sr_id := doc_id; sr_title := title;
              sr_url := "mysql://" +:+ schema r +:+ "/" +:+ symbol
                        +:+ "/" +:+ key;
              sr_text := snippet; sr_symbol := symbol;
              sr_date := if is_None date_value then None
                         else Some (str date_value) |}
  | _ => raise (PythonError "IndexError")
  end.

Definition _resolve_target_symbols (symbols : option (list string))
  : M (list string) :=
  _ ← _refresh_symbols_cache;
  r ← self;
  match symbols with
  | None | Some [] =>
      mret (Py.slice_to (max_scan_symbols r) (Py.sorted (_symbols_cache r)))
  | Some symbols =>
      validated ← mapM _validate_symbol symbols;
      r ← self;
      mret (Py.slice_to (max_scan_symbols r) (Py.fromkeys validated))
  end.

Definition list_symbols (limit : option Z) : M (list string) :=
  _ ← _refresh_symbols_cache;
  r ← self;
  let ordered := Py.sorted (_symbols_cache r) in
  match limit with
  | None => mret ordered
  | Some limit =>
      n ← _safe_limit limit;
      mret (Py.slice_to n ordered)
  end.

Definition get_symbol_news (symbol : string) (date_from : option string)
    (limit : Z) : M (list Row) :=
  normalized_symbol ← _validate_symbol symbol;
  row_limit ← _safe_limit limit;
  date_column ← _resolve_date_column normalized_symbol;
  '(where_clause, order_clause) ←
    (if truthy_opt date_from && truthy_opt date_column then
       _ ← _validate_date (default EmptyString date_from);
       mret (Some (default EmptyString date_column,
                   default EmptyString date_from +:+ " 00:00:00"),
             date_column)
     else if truthy_opt date_column then mret (None, date_column)
     else mret (None, None));
  rows ← _query_rows
           (SelectNews normalized_symbol where_clause order_clause row_limit);
  mapM (_augment_row normalized_symbol) rows.

(** The body of the [for symbol in target_symbols] loop of [search]. *)
Fixpoint search_loop (cleaned_query : string) (date_from : option string)
    (row_limit : Z) (target_symbols : list string)
    (results : list SearchResult) : M (list SearchResult) :=
  match target_symbols with
  | [] => mret results
  | symbol :: rest =>
      if row_limit <=? Py.len results then mret results
      else
        search_columns ← _resolve_searchable_columns symbol;
        match search_columns with
        | [] => search_loop cleaned_query date_from row_limit rest results
        | _ :: _ =>
            date_column ← _resolve_date_column symbol;
            r ← self;
            let date_filter :=
              if truthy_opt date_from && truthy_opt date_column
              then Some (default EmptyString date_column,
                         default EmptyString date_from +:+ " 00:00:00")
              else None in
            let table_limit :=
              Z.min (row_limit - Py.len results) (max_rows r) in
            let order_clause :=
              if truthy_opt date_column then date_column else None in
            rows ← _query_rows
                     (SelectSearch symbol search_columns
                        ("%" +:+ cleaned_query +:+ "%")
                        date_filter order_clause table_limit);
            found ← mapM (_search_result symbol) rows;
            search_loop cleaned_query date_from row_limit rest
                        (results ++ found)
        end
  end.

Definition search (query : string) (symbols : option (list string))
    (date_from : option string) (limit : Z) : M (list SearchResult) :=
  let cleaned_query := Py.strip query in
  if bool_decide (cleaned_query = EmptyString) then mret []
  else
    row_limit ← _safe_limit limit;
    target_symbols ← _resolve_target_symbols symbols;
    _ ← (if truthy_opt date_from
         then _validate_date (default EmptyString date_from)
         else mret tt);
    results ← search_loop cleaned_query date_from row_limit
                          target_symbols [];
    mret (Py.slice_to row_limit results).

Definition fetch (identifier : string) : M Document :=
  if negb (Py.contains ":" identifier) then raise MalformedId
  else
    match Py.split1 ":" identifier with
    | [symbol; raw_pk] =>
        normalized_symbol ← _validate_symbol symbol;
        primary_key ← _resolve_primary_key normalized_symbol;
        if negb (truthy_opt primary_key)
        then raise (NoPrimaryKey normalized_symbol)
        else
          let pk := default EmptyString primary_key in
          rows ← _query_rows (SelectByKey normalized_symbol pk raw_pk);
          match rows with
          | [] => raise (NotFound identifier)
          | row :: _ =>
              let title :=
                let t := _extract_title row in
                if bool_decide (t = EmptyString)
                then normalized_symbol +:+ " news item" else t in
              let body := _extract_body row in
              id ← _document_id normalized_symbol row;
              r ← self;
              mret {| doc_id := id; doc_title := title; doc_text := body;
                      doc_url := "mysql://" +:+ schema r +:+ "/"
                                 +:+ normalized_symbol +:+ "/" +:+ raw_pk;
                      doc_metadata :=
                        {| md_symbol := normalized_symbol;
                           md_schema := schema r;
                           md_primary_key_column := pk;
                           md_raw_row := row |} |}
          end
    | _ => raise (PythonError "ValueError: unpack")
    end.

End Repository.

(** ** Words used in the statements of the properties *)

(** The two caches that hold the table inventory agree. *)
Definition consistent (r : NewsRepository) : Prop :=
  _symbol_lookup_cache r = lookup_of (_symbols_cache r).

(** The fields [__init__] sets from the settings. *)
Definition same_settings (r r' : NewsRepository) : Prop :=
  schema r' = schema r /\ max_rows r' = max_rows r
  /\ max_scan_symbols r' = max_scan_symbols r.

Definition same_caches (r r' : NewsRepository) : Prop :=
  _symbols_cache r' = _symbols_cache r
  /\ _symbol_lookup_cache r' = _symbol_lookup_cache r
  /\ _columns_cache r' = _columns_cache r
  /\ _primary_key_cache r' = _primary_key_cache r.

(** The call that took [r] to [r'] sent exactly [new]. *)
Definition sent_during (r r' : NewsRepository) (new : list Statement) : Prop :=
  sent r' = sent r ++ new.

(** The engine returns no more rows than the bound [:limit] allows. *)
Definition honours_limit (engine : Engine) : Prop :=
  forall n q rows l,
    answer_rows engine n q = Some rows ->
    limit_bound q = Some l ->
    Py.len rows <= l.

(** Rows the engine returned to [q], sent as statement number [n] by
    [search]'s loop. *)
Definition rows_answered (engine : Engine) (n : nat) (q : Statement) : Z :=
  match q with
  | SelectSearch _ _ _ _ _ _ => Py.len (default [] (answer_rows engine n q))
  | _ => 0
  end.

(** The statements [stmts], sent from number [n] on when [have] results
    were already collected, keep to the budget: a table is searched only
    while results are missing, and for no more rows than are missing and
    than [max_rows]. *)
Fixpoint within_budget (engine : Engine) (row_limit max_rows : Z)
    (n : nat) (have : Z) (stmts : list Statement) : Prop :=
  match stmts with
  | [] => True
  | q :: rest =>
      match q with
      | SelectSearch _ _ _ _ _ limit =>
          have < row_limit /\ limit = Z.min (row_limit - have) max_rows
      | _ => True
      end
      /\ within_budget engine row_limit max_rows (S n)
           (have + rows_answered engine n q) rest
  end.

(** Every character of [s] is whitespace. *)
Fixpoint all_space (s : string) : bool :=
  match s with
  | EmptyString => true
  | String c s' => Py.isspace c && all_space s'
  end.


(** ** Words used in the proofs *)

(** [r'] is [r] after some statements, all in [P], were sent; the settings
    stay. *)
Definition grows (P : Statement -> Prop) (r r' : NewsRepository) : Prop :=
  exists new, sent r' = sent r ++ new /\ Forall P new /\ same_settings r r'.

Definition sends {A} (P : Statement -> Prop) (m : M A) : Prop :=
  forall r res r', m r = (res, r') -> grows P r r'.

(** The first occurrences in [l] of the names not in [seen]: what
    [dict.fromkeys] adds to a dictionary that has the keys [seen]. *)
Fixpoint firsts (seen l : list string) : list string :=
  match l with
  | [] => []
  | x :: l' =>
      if decide (x ∈ seen) then firsts seen l'
      else x :: firsts (seen ++ [x]) l'
  end.

(** Every exception of [m] is in [E]. *)
Definition raises {A} (E : Error -> Prop) (m : M A) : Prop :=
  forall r e r', m r = (Raise e, r') -> E e.

(** Results collected after [stmts], sent from number [n] on with [have]
    results at the start. *)
Fixpoint have_after (engine : Engine) (n : nat) (have : Z)
    (stmts : list Statement) : Z :=
  match stmts with
  | [] => have
  | q :: rest => have_after engine (S n) (have + rows_answered engine n q) rest
  end.

Definition is_meta (q : Statement) : Prop := table_read q = None.

(** What the loop has sent between [r] and [r']: the tables read, in
    order, within the budget, with [have'] results at the end. *)
Definition loop_trace (engine : Engine) (row_limit : Z) (tables : list string) (have : Z)
    (r r' : NewsRepository) (have' : Z) : Prop :=
  exists new,
    sent r' = sent r ++ new /\ same_settings r r'
    /\ omap table_read new = tables
    /\ within_budget engine row_limit (max_rows r) (length (sent r)) have new
    /\ have' = have_after engine (length (sent r)) have new.

(** ** A small database to run the methods on *)

Module Demo.

Definition row_of (l : list (string * Value)) : Row := list_to_map l.

Definition aapl_row : Row :=
  row_of [("id", VInt 1); ("Title", VStr "Apple beats estimates");
          ("Date", VStr "2024-01-05")].

Definition sym_row : Row :=
  row_of [("id", VInt 123); ("headline", VStr "Sym rallies")].

Definition msft_row : Row :=
  row_of [("id", VStr "1:2"); ("headline", VStr "Azure grows")].

Definition note_row : Row :=
  row_of [("memo", VStr "no key here")].

(** table, columns, primary key, rows *)
Definition tables
  : list (string * (list Column * option string * list Row)) :=
  [ ("AAPL", ([ {| column_name := "id"; data_type := "int" |};
                {| column_name := "Title"; data_type := "varchar" |};
                {| column_name := "Date"; data_type := "date" |} ],
              Some "id", [aapl_row]));
    ("MSFT", ([ {| column_name := "id"; data_type := "varchar" |};
                {| column_name := "headline"; data_type := "text" |} ],
              Some "id", [msft_row]));
    ("SYM",  ([ {| column_name := "id"; data_type := "int" |};
                {| column_name := "headline"; data_type := "text" |} ],
              Some "id", [sym_row]));
    ("notes", ([ {| column_name := "memo"; data_type := "TEXT" |} ],
               None, [note_row])) ].

Definition find_table (name : string) :=
  snd <$> list_find (fun t => fst t = name) tables.

(** [limit] rows at most; a negative limit is an SQL error. *)
Definition limited (limit : Z) (rows : list Row) : option (list Row) :=
  if limit <? 0 then None else Some (take (Z.to_nat limit) rows).

Definition rows_for (q : Statement) : option (list Row) :=
  match q with
  | SelectNews symbol _ _ limit =>
      '(_, _, rows) ← snd <$> find_table symbol; limited limit rows
  | SelectSearch symbol _ _ _ _ limit =>
      '(_, _, rows) ← snd <$> find_table symbol; limited limit rows
  | SelectByKey symbol pk raw_pk =>
      '(_, _, rows) ← snd <$> find_table symbol;
      limited 1 (filter (fun row => str (row_get row pk) = raw_pk) rows)
  | _ => None
  end.

(** An engine over [tables] that always answers. *)
Definition engine : Engine :=
  {| answer_tables := fun _ _ => Some (fst <$> tables);
     answer_columns := fun _ _ t =>
       Some (from_option (fun '(_, (cols, _, _)) => cols) [] (find_table t));
     answer_primary_key := fun _ _ t =>
       Some (from_option
               (fun '(_, (_, pk, _)) => option_list pk) [] (find_table t));
     answer_rows := fun _ q => rows_for q |}.

(** The same engine with its first [k] statements failing. *)
Definition flaky (k : nat) : Engine :=
  {| answer_tables := fun n s =>
       if (n <? k)%nat then None else answer_tables engine n s;
     answer_columns := fun n s t =>
       if (n <? k)%nat then None else answer_columns engine n s t;
     answer_primary_key := fun n s t =>
       if (n <? k)%nat then None else answer_primary_key engine n s t;
     answer_rows := fun n q =>
       if (n <? k)%nat then None else answer_rows engine n q |}.

(** A schema where two tables differ by case only. *)
Definition clash : Engine :=
  {| answer_tables := fun _ _ => Some ["AAPL"; "aapl"];
     answer_columns := fun _ _ _ => Some [];
     answer_primary_key := fun _ _ _ => Some [];
     answer_rows := fun _ _ => Some [] |}.

Definition str_of_row (row : Row) : string := "{...}".

Definition repo : NewsRepository := init "news" 200 50.

End Demo.

(** ** Words for what the operations keep *)

(** Every run of [m] relates the object before to the object after. *)
Definition always {A} (R : relation NewsRepository) (m : M A) : Prop :=
  forall r res r', m r = (res, r') -> R r r'.

(** From [r] to [r'] the settings stay, statements are only added, an
    inventory that was discovered stays as it is, every cached entry for
    columns or primary key stays as it is, and the two inventory caches
    still agree if they did. *)
Definition kept (r r' : NewsRepository) : Prop :=
  same_settings r r'
  /\ (exists new, sent r' = sent r ++ new)
  /\ (_symbols_cache r <> ∅ ->
      _symbols_cache r' = _symbols_cache r
      /\ _symbol_lookup_cache r' = _symbol_lookup_cache r)
  /\ (forall s c, _columns_cache r !! s = Some c ->
                  _columns_cache r' !! s = Some c)
  /\ (forall s k, _primary_key_cache r !! s = Some k ->
                  _primary_key_cache r' !! s = Some k)
  /\ (consistent r -> consistent r').

(** [get_symbol_news] from the validated symbol on. *)
Definition news_of_symbol (engine : Engine) (normalized_symbol : string)
    (date_from : option string) (limit : Z) : M (list Row) :=
  row_limit ← _safe_limit limit;
  date_column ← _resolve_date_column engine normalized_symbol;
  '(where_clause, order_clause) ←
    (if truthy_opt date_from && truthy_opt date_column then
       _ ← _validate_date (default EmptyString date_from);
       mret (Some (default EmptyString date_column,
                   default EmptyString date_from +:+ " 00:00:00"),
             date_column)
     else if truthy_opt date_column then mret (None, date_column)
     else mret (None, None));
  rows ← _query_rows engine
           (SelectNews normalized_symbol where_clause order_clause row_limit);
  mapM (_augment_row engine normalized_symbol) rows.

(** [fetch] from the validated symbol on. *)
Definition fetch_of_symbol (engine : Engine) (str_of_row : Row -> string)
    (identifier normalized_symbol raw_pk : string) : M Document :=
  primary_key ← _resolve_primary_key engine normalized_symbol;
  if negb (truthy_opt primary_key)
  then raise (NoPrimaryKey normalized_symbol)
  else
    let pk := default EmptyString primary_key in
    rows ← _query_rows engine (SelectByKey normalized_symbol pk raw_pk);
    match rows with
    | [] => raise (NotFound identifier)
    | row :: _ =>
        let title :=
          let t := _extract_title row in
          if bool_decide (t = EmptyString)
          then normalized_symbol +:+ " news item" else t in
        let body := _extract_body str_of_row row in
        id ← _document_id engine normalized_symbol row;
        r ← self;
        mret {| doc_id := id; doc_title := title; doc_text := body;
                doc_url := "mysql://" +:+ schema r +:+ "/"
                           +:+ normalized_symbol +:+ "/" +:+ raw_pk;
                doc_metadata :=
                  {| md_symbol := normalized_symbol;
                     md_schema := schema r;
                     md_primary_key_column := pk;
                     md_raw_row := row |} |}
    end.

(** Every character of [s] satisfies [p]. *)
Fixpoint str_all (p : ascii -> bool) (s : string) : bool :=
  match s with
  | EmptyString => true
  | String c s' => p c && str_all p s'
  end.

(** Not whitespace. *)
Definition not_space (c : ascii) : bool := negb (Py.isspace c).

(** [s] is empty or starts with a character that is not whitespace. *)
Definition head_not_space (s : string) : Prop :=
  match s with
  | EmptyString => True
  | String c _ => Py.isspace c = false
  end.

(** A digit or a letter from [a] to [f]. *)
Definition is_hex (c : ascii) : bool :=
  let n := Py.ord c in
  ((48 <=? n) && (n <=? 57)) || ((97 <=? n) && (n <=? 102)).

(** ** More built-ins, for the modules around the repository *)

Module PyStr.

(** [s.split(c)] for a one-character [c]: the texts between the
    occurrences of [c], empty ones included. *)
Fixpoint split (c : ascii) (s : string) : list string :=
  match s with
  | EmptyString => [EmptyString]
  | String d s' =>
      if decide (c = d) then EmptyString :: split c s'
      else match split c s' with
           | a :: rest => String d a :: rest
           | [] => [String d EmptyString]
           end
  end.

(** The run of characters before the first whitespace of [s], and the
    words after it. *)
Fixpoint words_from (s : string) : string * list string :=
  match s with
  | EmptyString => (EmptyString, [])
  | String c s' =>
      let '(w, ws) := words_from s' in
      if Py.isspace c
      then (EmptyString, if bool_decide (w = EmptyString) then ws else w :: ws)
      else (String c w, ws)
  end.

(** [s.split()]: the words of [s], separated by runs of whitespace. *)
Definition split_ws (s : string) : list string :=
  let '(w, ws) := words_from s in
  if bool_decide (w = EmptyString) then ws else w :: ws.

End PyStr.

(** ** mcp_news_server.auth *)

Module Auth.

(** The value of a claim, as far as [_extract_scopes] tells values apart:
    a text, a list, or anything else (also: no such claim). *)
Inductive Claim : Type :=
| CStr (s : string)
| CList (items : list Value)
| COther.

Definition _extract_scopes (claims : gmap string Claim) : list string :=
  let raw_scope := default COther (claims !! "scope") in
  match raw_scope with
  | CStr raw_scope =>
      filter (fun scope => scope <> EmptyString) (PyStr.split_ws raw_scope)
  | CList raw_scope => str <$> raw_scope
  | COther =>
      let raw_scp := default COther (claims !! "scp") in
      match raw_scp with
      | CStr raw_scp =>
          filter (fun scope => scope <> EmptyString) (PyStr.split_ws raw_scp)
      | CList raw_scp => str <$> raw_scp
      | COther => []
      end
  end.

End Auth.

(** ** mcp_news_server.config *)

Module Config.

Definition _get_csv (env : gmap string string) (name default : string)
  : list string :=
  let raw := from_option (fun v => v) default (env !! name) in
  let values := Py.strip <$> PyStr.split "," raw in
  filter (fun item => item <> EmptyString) values.

End Config.

(** ** mcp_news_server.server: the tools *)

Module Server.

(** The dictionary [list_symbols] returns. *)
Record SymbolsReply : Type := {
  reply_symbols : list string;
  reply_symbols_count : Z;
}.

(** The dictionary [get_symbol_news] returns. *)
Record NewsReply : Type := {
  reply_symbol : Value;
  reply_count : Z;
  reply_rows : list Row;
}.

Definition list_symbols (engine : Engine) (limit : Z) : M SymbolsReply :=
  symbols ← list_symbols engine (Some limit);
  mret {| reply_symbols := symbols; reply_symbols_count := Py.len symbols |}.

Definition get_symbol_news (engine : Engine) (symbol : string)
    (date_from : option string) (limit : Z) : M NewsReply :=
  rows ← get_symbol_news engine symbol date_from limit;
  resolved_symbol ←
    match rows with
    | row :: _ =>
        match row !! "symbol" with
        | Some v => mret v
        | None => raise (PythonError "KeyError")
        end
    | [] => mret (VStr symbol)
    end;
  mret {| reply_symbol := resolved_symbol; reply_count := Py.len rows;
          reply_rows := rows |}.

End Server.

(** * Properties *)

Example sha1_abc :
  Sha1.hexdigest (Py.encode_utf8 "abc")
  = "a9993e364706816aba3e25717850c26c9cd0d89d".
Proof. vm_compute. reflexivity. Qed.

Example sha1_empty :
  Sha1.hexdigest (Py.encode_utf8 "")
  = "da39a3ee5e6b4b0d3255bfef95601890afd80709".
Proof. vm_compute. reflexivity. Qed.

Example sha1_long :
  Sha1.hexdigest (Py.encode_utf8 "abcdbcdecdefdefgefghfghighijhijkijkljklmklmnlmnomnopnopq")
  = "84983e441c3bd26ebaae4aa1f95129e5e54670f1".
Proof. vm_compute. reflexivity. Qed.

Example strptime_1 : Strptime.parse "2024-01-05" = Some (2024, 1, 5).
Proof. reflexivity. Qed.
Example strptime_2 : Strptime.parse "2024-1-5" = Some (2024, 1, 5).
Proof. reflexivity. Qed.
Example strptime_3 : Strptime.parse "2023-02-29" = None.
Proof. reflexivity. Qed.
Example strptime_4 : Strptime.parse "2024-12-31" = Some (2024, 12, 31).
Proof. reflexivity. Qed.
Example strptime_5 : Strptime.parse "2024-12-311" = None.
Proof. reflexivity. Qed.
Example strip_1 : Py.strip "  aa pl  " = "aa pl".
Proof. reflexivity. Qed.
Example split_1 : Py.split1 ":" "AAPL:1:2" = ["AAPL"; "1:2"].
Proof. reflexivity. Qed.
Example split_2 : Py.split1 ":" "AAPL" = ["AAPL"].
Proof. reflexivity. Qed.
Example fromkeys_1 : Py.fromkeys ["b"; "a"; "b"; "c"; "a"] = ["b"; "a"; "c"].
Proof. reflexivity. Qed.
Example slice_1 : Py.slice_to (-1) [1;2;3] = [1;2].
Proof. reflexivity. Qed.
Example sorted_1 : Py.sorted {[ "b"; "a"; "B" ]} = ["B"; "a"; "b"].
Proof. vm_compute. reflexivity. Qed.
Example lower_1 : Py.lower "AaPl-Z@[" = "aapl-z@[".
Proof. reflexivity. Qed.

Example demo_fetch :
  fst (fetch Demo.engine Demo.str_of_row "AAPL:1" Demo.repo)
  = Ok {| doc_id := "AAPL:1"; doc_title := "Apple beats estimates";
          doc_text := "Apple beats estimates";
          doc_url := "mysql://news/AAPL/1";
          doc_metadata := {| md_symbol := "AAPL"; md_schema := "news";
                             md_primary_key_column := "id";
                             md_raw_row := Demo.aapl_row |} |}.
Proof. vm_compute. reflexivity. Qed.

Example demo_news :
  fst (get_symbol_news Demo.engine "aapl" (Some "2024-01-01") 10 Demo.repo)
  = Ok [ <["document_id" := VStr "AAPL:1"]>
           (<["symbol" := VStr "AAPL"]> Demo.aapl_row) ].
Proof. vm_compute. reflexivity. Qed.

Example demo_search :
  sr_id <$> (match fst (search Demo.engine Demo.str_of_row "estimates"
                          (Some ["AAPL"]) None 5 Demo.repo) with
             | Ok l => l | Raise _ => [] end)
  = ["AAPL:1"].
Proof. vm_compute. reflexivity. Qed.

(** ** The monad *)

Section Monad.
Context {A B : Type}.
Implicit Types (c : M A) (k : A -> M B).

Lemma bind_Ok c k r a r1 : c r = (Ok a, r1) -> (c ≫= k) r = k a r1.
Proof. intros H. unfold mbind, M_bind. by rewrite H. Qed.

Lemma bind_Raise c k r e r1 :
  c r = (Raise e, r1) -> (c ≫= k) r = (Raise e, r1).
Proof. intros H. unfold mbind, M_bind. by rewrite H. Qed.

Lemma bind_inv c k r res r' :
  (c ≫= k) r = (res, r') ->
  (exists a r1, c r = (Ok a, r1) /\ k a r1 = (res, r'))
  \/ (exists e, c r = (Raise e, r') /\ res = Raise e).
Proof.
  unfold mbind, M_bind. destruct (c r) as [[a|e] r1]; intros H.
  - left. eauto.
  - right. inversion H; subst. eauto.
Qed.

Lemma bind_inv_Ok c k r b r' :
  (c ≫= k) r = (Ok b, r') ->
  exists a r1, c r = (Ok a, r1) /\ k a r1 = (Ok b, r').
Proof.
  intros H. apply bind_inv in H as [H|(e & _ & H)]; [done | discriminate].
Qed.
End Monad.

(** ** What a call may send *)

Lemma grows_refl P r : grows P r r.
Proof. exists []. rewrite app_nil_r. by repeat split. Qed.

Lemma grows_trans P r1 r2 r3 : grows P r1 r2 -> grows P r2 r3 -> grows P r1 r3.
Proof.
  intros (n1 & E1 & F1 & S1 & S1' & S1'') (n2 & E2 & F2 & S2 & S2' & S2'').
  exists (n1 ++ n2). split; [by rewrite E2, E1, app_assoc|].
  split; [by apply Forall_app|]. repeat split; congruence.
Qed.

Lemma grows_mono (P Q : Statement -> Prop) r r' :
  (forall q, P q -> Q q) -> grows P r r' -> grows Q r r'.
Proof.
  intros HPQ (n & E & F & S). exists n. repeat split; try apply S; [done|].
  eapply Forall_impl; eauto.
Qed.

Lemma grows_settings P r r' : grows P r r' -> same_settings r r'.
Proof. by intros (n & _ & _ & S). Qed.

Lemma sends_ret {A} P (a : A) : sends P (mret a).
Proof. intros r res r' [= <- <-]. apply grows_refl. Qed.

Lemma sends_raise {A} P (e : Error) : sends P (raise (A:=A) e).
Proof. intros r res r' [= <- <-]. apply grows_refl. Qed.

Lemma sends_self P : sends P self.
Proof. intros r res r' [= <- <-]. apply grows_refl. Qed.

Lemma sends_assign P (f : NewsRepository -> NewsRepository) :
  (forall r, sent (f r) = sent r /\ same_settings r (f r)) ->
  sends P (assign f).
Proof.
  intros Hf r res r' [= <- <-]. destruct (Hf r) as [E S].
  exists []. rewrite app_nil_r. by repeat split; try apply S.
Qed.

Lemma sends_bind {A B} P (c : M A) (k : A -> M B) :
  sends P c -> (forall a, sends P (k a)) -> sends P (c ≫= k).
Proof.
  intros Hc Hk r res r' H.
  apply bind_inv in H as [(a & r1 & H1 & H2)|(e & H1 & ->)].
  - eapply grows_trans; [by eapply Hc | by eapply Hk].
  - by eapply Hc.
Qed.

Lemma sends_query {A} (P : Statement -> Prop) (q : Statement)
    (answer : nat -> option A) :
  P q -> sends P (_query q answer).
Proof.
  intros HP r res r' H. unfold _query in H.
  exists [q]. destruct (answer _); inversion H; subst; simpl;
    repeat split; by repeat constructor.
Qed.

Lemma sends_mapM {A B} P (f : A -> M B) (l : list A) :
  (forall a, a ∈ l -> sends P (f a)) -> sends P (mapM f l).
Proof.
  induction l as [|x l IH]; intros Hf; simpl.
  - apply sends_ret.
  - apply sends_bind; [apply Hf; left|]. intros y.
    apply sends_bind; [apply IH; intros a Ha; apply Hf; by right|].
    intros ys. apply sends_ret.
Qed.

Lemma sends_mono {A} (P Q : Statement -> Prop) (m : M A) :
  (forall q, P q -> Q q) -> sends P m -> sends Q m.
Proof. intros HPQ H r res r' E. eapply grows_mono; eauto. Qed.

(** The tactic that walks through the body of a method. *)
Ltac sends_step :=
  first
    [ apply sends_ret | apply sends_raise | apply sends_self
    | apply sends_assign; intros; by repeat split
    | apply sends_bind; [| intros ?]
    | apply sends_query
    | match goal with
      | |- sends _ (match ?x with _ => _ end) => destruct x
      | |- sends _ (if ?x then _ else _) => destruct x
      | |- sends _ (let '(_, _) := ?x in _) => destruct x
      end ].

Section Methods.
Context (engine : Engine) (str_of_row : Row -> string).
Context (P : Statement -> Prop).

Lemma sends_refresh :
  (forall s, P (SelectTables s)) -> sends P (_refresh_symbols_cache engine).
Proof.
  intros HP. unfold _refresh_symbols_cache, _query_tables.
  repeat sends_step; auto.
Qed.

Lemma sends_validate_symbol symbol :
  (forall s, P (SelectTables s)) -> sends P (_validate_symbol engine symbol).
Proof.
  intros HP. unfold _validate_symbol.
  sends_step; [by apply sends_refresh|]. repeat sends_step.
Qed.

Lemma sends_safe_limit n : sends P (_safe_limit n).
Proof. unfold _safe_limit. repeat sends_step. Qed.

Lemma sends_validate_date v : sends P (_validate_date v).
Proof. unfold _validate_date. repeat sends_step. Qed.

Lemma sends_resolve_columns symbol :
  (forall s, P (SelectColumns s symbol)) ->
  sends P (_resolve_columns engine symbol).
Proof.
  intros HP. unfold _resolve_columns, _query_columns.
  repeat sends_step; auto.
Qed.

Lemma sends_resolve_primary_key symbol :
  (forall s, P (SelectPrimaryKey s symbol)) ->
  sends P (_resolve_primary_key engine symbol).
Proof.
  intros HP. unfold _resolve_primary_key, _query_primary_key.
  repeat sends_step; auto.
Qed.

Lemma sends_resolve_searchable_columns symbol :
  (forall s, P (SelectColumns s symbol)) ->
  sends P (_resolve_searchable_columns engine symbol).
Proof.
  intros HP. unfold _resolve_searchable_columns.
  sends_step; [by apply sends_resolve_columns|]. repeat sends_step.
Qed.

Lemma sends_resolve_date_column symbol :
  (forall s, P (SelectColumns s symbol)) ->
  sends P (_resolve_date_column engine symbol).
Proof.
  intros HP. unfold _resolve_date_column.
  sends_step; [by apply sends_resolve_columns|]. repeat sends_step.
Qed.

Lemma sends_document_id symbol row :
  (forall s, P (SelectPrimaryKey s symbol)) ->
  sends P (_document_id engine symbol row).
Proof.
  intros HP. unfold _document_id.
  sends_step; [by apply sends_resolve_primary_key|]. repeat sends_step.
Qed.

Lemma sends_augment_row symbol row :
  (forall s, P (SelectPrimaryKey s symbol)) ->
  sends P (_augment_row engine symbol row).
Proof.
  intros HP. unfold _augment_row.
  sends_step; [by apply sends_document_id|]. repeat sends_step.
Qed.

Lemma sends_search_result symbol row :
  (forall s, P (SelectPrimaryKey s symbol)) ->
  sends P (_search_result engine str_of_row symbol row).
Proof.
  intros HP. unfold _search_result.
  sends_step; [by apply sends_document_id|]. repeat sends_step.
Qed.

Lemma sends_resolve_target_symbols symbols :
  (forall s, P (SelectTables s)) ->
  sends P (_resolve_target_symbols engine symbols).
Proof.
  intros HP. unfold _resolve_target_symbols.
  sends_step; [by apply sends_refresh|]. sends_step; [sends_step|].
  destruct symbols as [[|x l]|]; [sends_step | | sends_step].
  sends_step; [|repeat sends_step].
  apply sends_mapM. intros. by apply sends_validate_symbol.
Qed.

End Methods.

(** ** Facts about the built-ins *)

Lemma lstrip_all_space s : all_space s = true -> Py.lstrip s = EmptyString.
Proof.
  induction s as [|c s IH]; simpl; [done|].
  intros [Hc Hs]%andb_true_iff. rewrite Hc. auto.
Qed.

Lemma strip_all_space s : all_space s = true -> Py.strip s = EmptyString.
Proof. intros H. unfold Py.strip. by rewrite lstrip_all_space. Qed.

Lemma rstrip_empty_all_space s :
  Py.rstrip s = EmptyString -> all_space s = true.
Proof.
  induction s as [|c s IH]; simpl; [done|].
  destruct (Py.rstrip s) eqn:E; [|done].
  destruct (Py.isspace c); [auto | done].
Qed.

Lemma lstrip_suffix_space s :
  all_space (Py.lstrip s) = true -> all_space s = true.
Proof.
  induction s as [|c s IH]; simpl; [done|].
  destruct (Py.isspace c) eqn:E; simpl; [auto|]. by rewrite E.
Qed.

Lemma strip_empty_iff s : Py.strip s = EmptyString <-> all_space s = true.
Proof.
  split; [|apply strip_all_space].
  intros H. by apply lstrip_suffix_space, rstrip_empty_all_space.
Qed.

Lemma lower_char_idem c : Py.lower_char (Py.lower_char c) = Py.lower_char c.
Proof. destruct c as [[] [] [] [] [] [] [] []]; reflexivity. Qed.

Lemma isspace_lower_char c : Py.isspace (Py.lower_char c) = Py.isspace c.
Proof. destruct c as [[] [] [] [] [] [] [] []]; reflexivity. Qed.

Lemma lower_idem s : Py.lower (Py.lower s) = Py.lower s.
Proof.
  induction s as [|c s IH]; simpl; [done|]. by rewrite lower_char_idem, IH.
Qed.

Lemma lstrip_lower s : Py.lstrip (Py.lower s) = Py.lower (Py.lstrip s).
Proof.
  induction s as [|c s IH]; simpl; [done|].
  rewrite isspace_lower_char. by destruct (Py.isspace c).
Qed.

Lemma rstrip_lower s : Py.rstrip (Py.lower s) = Py.lower (Py.rstrip s).
Proof.
  induction s as [|c s IH]; simpl; [done|].
  rewrite IH, isspace_lower_char.
  destruct (Py.rstrip s); simpl; [by destruct (Py.isspace c)|done].
Qed.

Lemma strip_lower s : Py.strip (Py.lower s) = Py.lower (Py.strip s).
Proof. unfold Py.strip. by rewrite lstrip_lower, rstrip_lower. Qed.

Lemma lower_empty s : Py.lower s = EmptyString -> s = EmptyString.
Proof. by destruct s. Qed.

(** [split(":", 1)] against [":" in s] and [s.count(":")]. *)
Lemma split1_without c s : Py.contains c s = false -> Py.split1 c s = [s].
Proof.
  induction s as [|d s IH]; simpl; [done|].
  destruct (decide (c = d)); [done|]. intros H. by rewrite IH.
Qed.

Lemma split1_with c s :
  Py.contains c s = true ->
  exists a b, Py.split1 c s = [a; b] /\ s = a +:+ String c b
              /\ Py.contains c a = false.
Proof.
  induction s as [|d s IH]; simpl; [done|].
  destruct (decide (c = d)) as [->|Hne].
  - intros _. by exists EmptyString, s.
  - intros (a & b & -> & -> & Ha)%IH. exists (String d a), b. simpl.
    repeat split. by destruct (decide (c = d)).
Qed.

Lemma contains_count c s : Py.contains c s = true <-> (0 < Py.count c s)%nat.
Proof.
  induction s as [|d s IH]; simpl; [split; [done|lia]|].
  destruct (decide (c = d)); [split; [lia|done]|]. by rewrite IH.
Qed.

(** Slices. *)
Lemma slice_to_nonneg {A} n (l : list A) :
  0 <= n -> Py.slice_to n l = take (Z.to_nat n) l.
Proof. intros H. unfold Py.slice_to. by destruct (Z.ltb_spec n 0); [lia|]. Qed.

Lemma slice_to_sublist {A} n (l : list A) : sublist (Py.slice_to n l) l.
Proof. unfold Py.slice_to. destruct (n <? 0); apply sublist_take. Qed.

Lemma slice_to_elem {A} n (l : list A) x : x ∈ Py.slice_to n l -> x ∈ l.
Proof. intros H. eapply elem_of_sublist; eauto using slice_to_sublist. Qed.

Lemma len_slice_to {A} n (l : list A) :
  0 <= n -> Py.len (Py.slice_to n l) <= n.
Proof.
  intros H. rewrite slice_to_nonneg by done. unfold Py.len.
  rewrite length_take. lia.
Qed.

(** [dict.fromkeys]: first occurrences, in order. *)
Lemma foldl_fromkeys acc l :
  foldl (fun acc x => if decide (x ∈ acc) then acc else acc ++ [x]) acc l
  = acc ++ firsts acc l.
Proof.
  revert acc. induction l as [|x l IH]; intros acc; simpl.
  - by rewrite app_nil_r.
  - destruct (decide (x ∈ acc)); rewrite IH; [done|]. by rewrite <- app_assoc.
Qed.

Lemma fromkeys_firsts l : Py.fromkeys l = firsts [] l.
Proof. unfold Py.fromkeys. by rewrite foldl_fromkeys. Qed.

Lemma firsts_elem seen l x : x ∈ firsts seen l <-> x ∈ l /\ x ∉ seen.
Proof.
  revert seen. induction l as [|y l IH]; intros seen; simpl.
  - set_solver.
  - destruct (decide (y ∈ seen)).
    + rewrite IH. set_solver.
    + rewrite elem_of_cons, IH. rewrite elem_of_cons.
      destruct (decide (x = y)) as [->|]; set_solver.
Qed.

Lemma firsts_NoDup seen l : NoDup (firsts seen l).
Proof.
  revert seen. induction l as [|y l IH]; intros seen; simpl.
  - constructor.
  - destruct (decide (y ∈ seen)); [done|]. constructor; [|done].
    rewrite firsts_elem. set_solver.
Qed.

Lemma firsts_sublist seen l : sublist (firsts seen l) l.
Proof.
  revert seen. induction l as [|y l IH]; intros seen; simpl; [done|].
  destruct (decide (y ∈ seen)); [by apply sublist_cons | by apply sublist_skip].
Qed.

Lemma fromkeys_elem l x : x ∈ Py.fromkeys l <-> x ∈ l.
Proof. rewrite fromkeys_firsts, firsts_elem. set_solver. Qed.

Lemma fromkeys_NoDup l : NoDup (Py.fromkeys l).
Proof. rewrite fromkeys_firsts. apply firsts_NoDup. Qed.

Lemma fromkeys_sublist l : sublist (Py.fromkeys l) l.
Proof. rewrite fromkeys_firsts. apply firsts_sublist. Qed.

(** [sorted]: the same names, in order. *)
Lemma sorted_elem (s : gset string) x : x ∈ Py.sorted s <-> x ∈ s.
Proof.
  unfold Py.sorted. rewrite merge_sort_Permutation. apply elem_of_elements.
Qed.

Lemma sorted_Sorted (s : gset string) : Sorted Py.str_le (Py.sorted s).
Proof.
  apply Sorted_merge_sort. intros a b. unfold Py.str_le.
  apply String.leb_total.
Qed.

Lemma sorted_NoDup (s : gset string) : NoDup (Py.sorted s).
Proof.
  unfold Py.sorted. rewrite merge_sort_Permutation. apply NoDup_elements.
Qed.

(** ** The table inventory and its lookup by lowered name *)

Lemma lookup_of_empty : lookup_of ∅ = ∅.
Proof. unfold lookup_of. apply set_fold_empty. Qed.

Lemma lookup_of_Some (names : gset string) k v :
  lookup_of names !! k = Some v -> v ∈ names /\ Py.lower v = k.
Proof.
  unfold lookup_of. revert k v.
  apply (set_fold_ind_L
           (fun (m : gmap string string) (X : gset string) =>
              forall k v, m !! k = Some v -> v ∈ X /\ Py.lower v = k)).
  - intros k v. by rewrite lookup_empty.
  - intros x X m Hx IH k v. rewrite lookup_insert.
    case_decide as E.
    + intros [= <-]. split; [apply elem_of_union_l, elem_of_singleton|]; done.
    + intros [H1 H2]%IH. split; [by apply elem_of_union_r | done].
Qed.

Lemma lookup_of_unique (names : gset string) S :
  S ∈ names ->
  (forall T, T ∈ names -> Py.lower T = Py.lower S -> T = S) ->
  lookup_of names !! Py.lower S = Some S.
Proof.
  unfold lookup_of. revert S.
  apply (set_fold_ind_L
           (fun (m : gmap string string) (X : gset string) =>
              forall S, S ∈ X ->
                (forall T, T ∈ X -> Py.lower T = Py.lower S -> T = S) ->
                m !! Py.lower S = Some S)).
  - intros S HS. by apply not_elem_of_empty in HS.
  - intros x X m Hx IH S HS Huniq. rewrite lookup_insert.
    case_decide as E.
    + f_equal. apply Huniq; [apply elem_of_union_l, elem_of_singleton|]; done.
    + apply IH.
      * apply elem_of_union in HS as [->%elem_of_singleton|]; done.
      * intros T HT. apply Huniq. by apply elem_of_union_r.
Qed.

Lemma lookup_of_None (names : gset string) k :
  (forall T, T ∈ names -> Py.lower T <> k) -> lookup_of names !! k = None.
Proof.
  intros H. destruct (lookup_of names !! k) as [v|] eqn:E; [|done].
  apply lookup_of_Some in E as [Hv Hk]. by apply H in Hv.
Qed.

Section Inventory.
Context (engine : Engine).

Lemma consistent_init s m n : consistent (init s m n).
Proof. unfold consistent. simpl. by rewrite lookup_of_empty. Qed.

(** What [_refresh_symbols_cache] does, case by case. *)
Lemma refresh_warm r :
  _symbols_cache r <> ∅ -> _refresh_symbols_cache engine r = (Ok tt, r).
Proof.
  intros H. unfold _refresh_symbols_cache, mbind, M_bind, self.
  by destruct (decide (_symbols_cache r = ∅)).
Qed.

Lemma refresh_cold_fail r :
  _symbols_cache r = ∅ ->
  answer_tables engine (length (sent r)) (schema r) = None ->
  _refresh_symbols_cache engine r
  = (Raise QueryFailed, set_sent (sent r ++ [SelectTables (schema r)]) r).
Proof.
  intros H E.
  unfold _refresh_symbols_cache, mbind, M_bind, self, _query_tables, _query.
  destruct (decide (_symbols_cache r = ∅)); [|done]. by rewrite E.
Qed.

Lemma refresh_cold_ok r names :
  _symbols_cache r = ∅ ->
  answer_tables engine (length (sent r)) (schema r) = Some names ->
  _refresh_symbols_cache engine r
  = (Ok tt,
     set_symbol_lookup_cache (lookup_of (list_to_set names))
       (set_symbols_cache (list_to_set names)
          (set_sent (sent r ++ [SelectTables (schema r)]) r))).
Proof.
  intros H E.
  unfold _refresh_symbols_cache, mbind, M_bind, self, _query_tables, _query.
  destruct (decide (_symbols_cache r = ∅)); [|done]. by rewrite E.
Qed.

Lemma refresh_cases r res r' :
  _refresh_symbols_cache engine r = (res, r') ->
  (_symbols_cache r <> ∅ /\ res = Ok tt /\ r' = r)
  \/ (_symbols_cache r = ∅
      /\ answer_tables engine (length (sent r)) (schema r) = None
      /\ res = Raise QueryFailed
      /\ r' = set_sent (sent r ++ [SelectTables (schema r)]) r)
  \/ (exists names,
        _symbols_cache r = ∅
        /\ answer_tables engine (length (sent r)) (schema r) = Some names
        /\ res = Ok tt
        /\ r' = set_symbol_lookup_cache (lookup_of (list_to_set names))
                  (set_symbols_cache (list_to_set names)
                     (set_sent (sent r ++ [SelectTables (schema r)]) r))).
Proof.
  intros H. destruct (decide (_symbols_cache r = ∅)) as [E|E].
  - destruct (answer_tables engine (length (sent r)) (schema r))
      as [names|] eqn:Ea.
    + rewrite (refresh_cold_ok r names) in H by done.
      inversion H; subst. right; right. by exists names.
    + rewrite refresh_cold_fail in H by done.
      inversion H; subst. right; left. done.
  - rewrite refresh_warm in H by done. inversion H; subst. by left.
Qed.

Lemma refresh_consistent r res r' :
  consistent r -> _refresh_symbols_cache engine r = (res, r') ->
  consistent r'.
Proof.
  intros Hc H.
  apply refresh_cases in H
    as [(_ & _ & ->)|[(_ & _ & _ & ->)|(names & _ & _ & _ & ->)]];
    done.
Qed.

Lemma validate_symbol_after_refresh symbol r r1 :
  _refresh_symbols_cache engine r = (Ok tt, r1) ->
  _validate_symbol engine symbol r
  = (let normalized := Py.strip symbol in
     if decide (normalized ∈ _symbols_cache r1) then (Ok normalized, r1)
     else
       let fallback := _symbol_lookup_cache r1 !! Py.lower normalized in
       if truthy_opt fallback then (Ok (default EmptyString fallback), r1)
       else (Raise (UnknownSymbol symbol), r1)).
Proof.
  intros H. unfold _validate_symbol. rewrite (bind_Ok _ _ _ _ _ H).
  unfold mbind, M_bind, self. simpl.
  destruct (decide _); [done|]. by destruct (truthy_opt _).
Qed.

Lemma validate_symbol_refresh_fails symbol r e r1 :
  _refresh_symbols_cache engine r = (Raise e, r1) ->
  _validate_symbol engine symbol r = (Raise e, r1).
Proof. intros H. unfold _validate_symbol. by rewrite (bind_Raise _ _ _ _ _ H). Qed.

Lemma validate_symbol_exact symbol r r1 :
  _refresh_symbols_cache engine r = (Ok tt, r1) ->
  Py.strip symbol ∈ _symbols_cache r1 ->
  _validate_symbol engine symbol r = (Ok (Py.strip symbol), r1).
Proof.
  intros H Hin. rewrite (validate_symbol_after_refresh _ _ _ H). simpl.
  by destruct (decide _).
Qed.

Lemma validate_symbol_unique symbol S r r1 :
  consistent r ->
  _refresh_symbols_cache engine r = (Ok tt, r1) ->
  S ∈ _symbols_cache r1 ->
  (forall T, T ∈ _symbols_cache r1 -> Py.lower T = Py.lower S -> T = S) ->
  Py.lower (Py.strip symbol) = Py.lower S ->
  _validate_symbol engine symbol r = (Ok S, r1).
Proof.
  intros Hc H HS Huniq Hlow.
  pose proof (refresh_consistent _ _ _ Hc H) as Hc1.
  rewrite (validate_symbol_after_refresh _ _ _ H). simpl.
  destruct (decide _) as [Hin|Hnin].
  - by rewrite (Huniq _ Hin Hlow).
  - rewrite Hc1, Hlow, (lookup_of_unique _ S HS Huniq). simpl.
    destruct (decide (S = EmptyString)) as [->|Hne].
    + apply lower_empty in Hlow. by rewrite Hlow in Hnin.
    + by rewrite bool_decide_eq_false_2.
Qed.

Lemma validate_symbol_unknown symbol r r1 :
  consistent r ->
  _refresh_symbols_cache engine r = (Ok tt, r1) ->
  (forall T, T ∈ _symbols_cache r1 ->
             Py.lower T <> Py.lower (Py.strip symbol)) ->
  _validate_symbol engine symbol r = (Raise (UnknownSymbol symbol), r1).
Proof.
  intros Hc H Hno.
  pose proof (refresh_consistent _ _ _ Hc H) as Hc1.
  rewrite (validate_symbol_after_refresh _ _ _ H). simpl.
  destruct (decide _) as [Hin|Hnin]; [by apply Hno in Hin|].
  by rewrite Hc1, lookup_of_None.
Qed.

(** A validated symbol is a table of the inventory. *)
Lemma validate_symbol_in_inventory symbol r S r1 :
  consistent r ->
  _validate_symbol engine symbol r = (Ok S, r1) ->
  S ∈ _symbols_cache r1 /\ _refresh_symbols_cache engine r = (Ok tt, r1)
  /\ Py.lower S = Py.lower (Py.strip symbol).
Proof.
  intros Hc H. unfold _validate_symbol in H.
  apply bind_inv_Ok in H as ([] & r0 & Hr & H).
  pose proof (refresh_consistent _ _ _ Hc Hr) as Hc0.
  unfold mbind, M_bind, self in H. simpl in H.
  destruct (decide _) as [Hin|Hnin].
  - by inversion H; subst.
  - destruct (_symbol_lookup_cache r0 !! _) as [v|] eqn:E; simpl in H;
      [|done].
    destruct (bool_decide _); simpl in H; [done|].
    inversion H; subst. rewrite Hc0 in E.
    by apply lookup_of_Some in E as [? ?].
Qed.
End Inventory.

(** ** What a call may raise *)

Lemma raises_ret {A} E (a : A) : raises E (mret a).
Proof. intros r e r' H. discriminate H. Qed.

Lemma raises_raise {A} (E : Error -> Prop) e : E e -> raises E (raise (A:=A) e).
Proof. intros He r e' r' [= <- <-]. done. Qed.

Lemma raises_self E : raises E self.
Proof. intros r e r' H. discriminate H. Qed.

Lemma raises_assign E f : raises E (assign f).
Proof. intros r e r' H. discriminate H. Qed.

Lemma raises_bind {A B} E (c : M A) (k : A -> M B) :
  raises E c -> (forall a, raises E (k a)) -> raises E (c ≫= k).
Proof.
  intros Hc Hk r e r' H.
  apply bind_inv in H as [(a & r1 & H1 & H2)|(e' & H1 & [= ->])].
  - by eapply Hk.
  - by eapply Hc.
Qed.

Lemma raises_query {A} (E : Error -> Prop) q (answer : nat -> option A) :
  E QueryFailed -> raises E (_query q answer).
Proof.
  intros HE r e r' H. unfold _query in H.
  destruct (answer _); inversion H; by subst.
Qed.

Lemma raises_mapM {A B} E (f : A -> M B) (l : list A) :
  (forall a, raises E (f a)) -> raises E (mapM f l).
Proof.
  intros Hf. induction l as [|x l IH]; simpl.
  - apply raises_ret.
  - apply raises_bind; [done|]. intros y.
    apply raises_bind; [done|]. intros ys. apply raises_ret.
Qed.

Ltac raises_step :=
  first
    [ apply raises_ret | apply raises_self | apply raises_assign
    | apply raises_raise
    | apply raises_bind; [| intros ?]
    | apply raises_query
    | match goal with
      | |- raises _ (match ?x with _ => _ end) => destruct x
      | |- raises _ (if ?x then _ else _) => destruct x
      end ].

Section MethodsRaise.
Context (engine : Engine) (str_of_row : Row -> string).
Context (E : Error -> Prop).

Lemma raises_refresh :
  E QueryFailed -> raises E (_refresh_symbols_cache engine).
Proof.
  intros HE. unfold _refresh_symbols_cache, _query_tables.
  repeat raises_step; auto.
Qed.

Lemma raises_validate_symbol symbol :
  E QueryFailed -> E (UnknownSymbol symbol) ->
  raises E (_validate_symbol engine symbol).
Proof.
  intros HE HU. unfold _validate_symbol.
  raises_step; [by apply raises_refresh|]. repeat raises_step; auto.
Qed.

Lemma raises_resolve_columns symbol :
  E QueryFailed -> raises E (_resolve_columns engine symbol).
Proof.
  intros HE. unfold _resolve_columns, _query_columns.
  repeat raises_step; auto.
Qed.

Lemma raises_resolve_primary_key symbol :
  E QueryFailed -> raises E (_resolve_primary_key engine symbol).
Proof.
  intros HE. unfold _resolve_primary_key, _query_primary_key.
  repeat raises_step; auto.
Qed.

Lemma raises_document_id symbol row :
  E QueryFailed -> raises E (_document_id engine symbol row).
Proof.
  intros HE. unfold _document_id.
  raises_step; [by apply raises_resolve_primary_key|]. repeat raises_step.
Qed.

Lemma raises_fetch identifier :
  Py.contains ":" identifier = true ->
  E QueryFailed ->
  (forall s, E (UnknownSymbol s)) -> (forall s, E (NoPrimaryKey s)) ->
  (forall s, E (NotFound s)) ->
  raises E (fetch engine str_of_row identifier).
Proof.
  intros Hc HQ HU HK HN. unfold fetch. rewrite Hc. simpl.
  destruct (split1_with _ _ Hc) as (a & b & -> & _ & _).
  raises_step; [by apply raises_validate_symbol|].
  raises_step; [by apply raises_resolve_primary_key|].
  raises_step; [by apply raises_raise|].
  raises_step; [unfold _query_rows; by apply raises_query|].
  raises_step; [by apply raises_raise|].
  raises_step; [by apply raises_document_id|]. repeat raises_step.
Qed.
End MethodsRaise.

(** ** The column and primary-key caches *)

Section Caches.
Context (engine : Engine).

Lemma safe_limit_eq requested r :
  _safe_limit requested r
  = if requested <=? 0 then (Raise InvalidLimit, r)
    else (Ok (Z.min requested (max_rows r)), r).
Proof. unfold _safe_limit, mbind, M_bind, self. by destruct (_ <=? _). Qed.

Lemma safe_limit_Ok requested r n r' :
  _safe_limit requested r = (Ok n, r') ->
  0 < requested /\ n = Z.min requested (max_rows r) /\ r' = r.
Proof.
  rewrite safe_limit_eq. destruct (Z.leb_spec requested 0); [done|].
  intros [= <- <-]. done.
Qed.

Lemma query_inv {A} q (answer : nat -> option A) r res r' :
  _query q answer r = (res, r') ->
  r' = set_sent (sent r ++ [q]) r
  /\ ((exists a, answer (length (sent r)) = Some a /\ res = Ok a)
      \/ (answer (length (sent r)) = None /\ res = Raise QueryFailed)).
Proof.
  unfold _query. destruct (answer _) as [a|] eqn:E; intros [= <- <-];
    split; eauto.
Qed.

Lemma resolve_columns_cached symbol r columns :
  _columns_cache r !! symbol = Some columns ->
  _resolve_columns engine symbol r = (Ok columns, r).
Proof.
  intros H. unfold _resolve_columns, mbind, M_bind, self. by rewrite H.
Qed.

Lemma resolve_columns_fail symbol r :
  _columns_cache r !! symbol = None ->
  answer_columns engine (length (sent r)) (schema r) symbol = None ->
  _resolve_columns engine symbol r
  = (Raise QueryFailed,
     set_sent (sent r ++ [SelectColumns (schema r) symbol]) r).
Proof.
  intros H E.
  unfold _resolve_columns, mbind, M_bind, self, _query_columns, _query.
  by rewrite H, E.
Qed.

Lemma resolve_columns_ok symbol r columns :
  _columns_cache r !! symbol = None ->
  answer_columns engine (length (sent r)) (schema r) symbol = Some columns ->
  _resolve_columns engine symbol r
  = (Ok columns,
     set_columns_cache (<[symbol := columns]> (_columns_cache r))
       (set_sent (sent r ++ [SelectColumns (schema r) symbol]) r)).
Proof.
  intros H E.
  unfold _resolve_columns, mbind, M_bind, self, _query_columns, _query.
  by rewrite H, E.
Qed.

Lemma resolve_columns_Ok symbol r columns r' :
  _resolve_columns engine symbol r = (Ok columns, r') ->
  _columns_cache r' !! symbol = Some columns.
Proof.
  destruct (_columns_cache r !! symbol) as [c|] eqn:H.
  - rewrite (resolve_columns_cached _ _ _ H). by intros [= <- <-].
  - destruct (answer_columns engine (length (sent r)) (schema r) symbol)
      as [c|] eqn:E.
    + rewrite (resolve_columns_ok _ _ _ H E). intros [= <- <-]. simpl.
      apply lookup_insert_eq.
    + by rewrite (resolve_columns_fail _ _ H E).
Qed.

Lemma resolve_primary_key_cached symbol r pk :
  _primary_key_cache r !! symbol = Some pk ->
  _resolve_primary_key engine symbol r = (Ok pk, r).
Proof.
  intros H. unfold _resolve_primary_key, mbind, M_bind, self. by rewrite H.
Qed.

Lemma resolve_primary_key_fail symbol r :
  _primary_key_cache r !! symbol = None ->
  answer_primary_key engine (length (sent r)) (schema r) symbol = None ->
  _resolve_primary_key engine symbol r
  = (Raise QueryFailed,
     set_sent (sent r ++ [SelectPrimaryKey (schema r) symbol]) r).
Proof.
  intros H E.
  unfold _resolve_primary_key, mbind, M_bind, self, _query_primary_key,
    _query.
  by rewrite H, E.
Qed.

Lemma resolve_primary_key_ok symbol r rows :
  _primary_key_cache r !! symbol = None ->
  answer_primary_key engine (length (sent r)) (schema r) symbol = Some rows ->
  _resolve_primary_key engine symbol r
  = (Ok (head rows),
     set_primary_key_cache (<[symbol := head rows]> (_primary_key_cache r))
       (set_sent (sent r ++ [SelectPrimaryKey (schema r) symbol]) r)).
Proof.
  intros H E.
  unfold _resolve_primary_key, mbind, M_bind, self, _query_primary_key,
    _query.
  by rewrite H, E.
Qed.

Lemma resolve_primary_key_Ok symbol r pk r' :
  _resolve_primary_key engine symbol r = (Ok pk, r') ->
  _primary_key_cache r' !! symbol = Some pk.
Proof.
  destruct (_primary_key_cache r !! symbol) as [c|] eqn:H.
  - rewrite (resolve_primary_key_cached _ _ _ H). by intros [= <- <-].
  - destruct (answer_primary_key engine (length (sent r)) (schema r) symbol)
      as [c|] eqn:E.
    + rewrite (resolve_primary_key_ok _ _ _ H E). intros [= <- <-]. simpl.
      apply lookup_insert_eq.
    + by rewrite (resolve_primary_key_fail _ _ H E).
Qed.

Lemma document_id_eq symbol row r :
  _document_id engine symbol row r
  = match _resolve_primary_key engine symbol r with
    | (Ok primary_key, r1) =>
        let pk := default EmptyString primary_key in
        (Ok (if truthy_opt primary_key && negb (is_None (row_get row pk))
             then symbol +:+ ":" +:+ str (row_get row pk)
             else symbol +:+ ":" +:+ digest16 symbol row), r1)
    | (Raise e, r1) => (Raise e, r1)
    end.
Proof.
  unfold _document_id, mbind, M_bind.
  destruct (_resolve_primary_key engine symbol r) as [[pk|e] r1]; [|done].
  simpl. by destruct (_ && _).
Qed.

Lemma mapM_length {A B} (f : A -> M B) l r l' r' :
  mapM f l r = (Ok l', r') -> length l' = length l.
Proof.
  revert r l'. induction l as [|x l IH]; intros r l'; simpl.
  - by intros [= <- <-].
  - intros H. apply bind_inv_Ok in H as (y & r1 & _ & H).
    apply bind_inv_Ok in H as (ys & r2 & H & [= <- <-]).
    simpl. f_equal. eauto.
Qed.

(** The date column, when there is one, is one of the known names. *)
Lemma resolve_date_column_known symbol r c r' :
  _resolve_date_column engine symbol r = (Ok (Some c), r') ->
  c ∈ PREFERRED_DATE_COLUMNS /\ truthy_opt (Some c) = true.
Proof.
  unfold _resolve_date_column. intros H.
  apply bind_inv_Ok in H as (cols & r1 & _ & [= H <-]).
  apply head_Some_elem_of, list_elem_of_filter in H as [_ H].
  split; [done|]. unfold PREFERRED_DATE_COLUMNS in H.
  repeat (apply elem_of_cons in H as [H|H]; [by subst|]).
  by apply elem_of_nil in H.
Qed.
End Caches.

(** ** The loop of [search] *)

Section Loop.
Context (engine : Engine) (str_of_row : Row -> string).

Lemma within_budget_app row_limit m n have new1 new2 :
  within_budget engine row_limit m n have new1 ->
  within_budget engine row_limit m (n + length new1)
    (have_after engine n have new1) new2 ->
  within_budget engine row_limit m n have (new1 ++ new2).
Proof.
  revert n have. induction new1 as [|q new1 IH]; intros n have; simpl.
  - intros _. by rewrite Nat.add_0_r.
  - intros [Hq H1] H2. split; [done|]. apply IH; [done|].
    by rewrite Nat.add_succ_comm.
Qed.

Lemma have_after_app n have new1 new2 :
  have_after engine n have (new1 ++ new2)
  = have_after engine (n + length new1) (have_after engine n have new1) new2.
Proof.
  revert n have. induction new1 as [|q new1 IH]; intros n have; simpl.
  - by rewrite Nat.add_0_r.
  - by rewrite IH, Nat.add_succ_comm.
Qed.

Lemma meta_trace row_limit m n have new :
  Forall is_meta new ->
  within_budget engine row_limit m n have new
  /\ have_after engine n have new = have
  /\ omap table_read new = [].
Proof.
  intros H. revert n have.
  induction H as [|q new Hq _ IH]; intros n have; simpl; [done|].
  assert (rows_answered engine n q = 0) as -> by (by destruct q).
  rewrite Z.add_0_r. destruct (IH (S n) have) as (H1 & H2 & H3).
  unfold is_meta in Hq. rewrite Hq. repeat split; try done.
  by destruct q.
Qed.

Lemma loop_trace_refl row_limit have r : loop_trace engine row_limit [] have r r have.
Proof. exists []. rewrite app_nil_r. by repeat split. Qed.

Lemma loop_trace_meta row_limit have r r' :
  grows is_meta r r' -> loop_trace engine row_limit [] have r r' have.
Proof.
  intros (new & E & F & S). exists new.
  destruct (meta_trace row_limit (max_rows r) (length (sent r)) have new F)
    as (H1 & H2 & H3).
  split; [done|]. split; [done|]. split; [done|]. split; [done|].
  by rewrite H2.
Qed.

Lemma loop_trace_trans row_limit t1 t2 have r r1 have1 r2 have2 :
  loop_trace engine row_limit t1 have r r1 have1 ->
  loop_trace engine row_limit t2 have1 r1 r2 have2 ->
  loop_trace engine row_limit (t1 ++ t2) have r r2 have2.
Proof.
  intros (n1 & E1 & (S1 & S1' & S1'') & T1 & B1 & H1)
         (n2 & E2 & (S2 & S2' & S2'') & T2 & B2 & H2).
  exists (n1 ++ n2). split; [by rewrite E2, E1, app_assoc|].
  split; [repeat split; congruence|].
  split; [by rewrite omap_app, T1, T2|].
  rewrite E1, length_app, S1' in *. split.
  - apply within_budget_app; [done|]. by rewrite <- H1.
  - by rewrite have_after_app, <- H1.
Qed.

Lemma loop_trace_query row_limit have r symbol columns pattern date_filter
    order_by :
  have < row_limit ->
  let q := SelectSearch symbol columns pattern date_filter order_by
             (Z.min (row_limit - have) (max_rows r)) in
  loop_trace engine row_limit [symbol] have r (set_sent (sent r ++ [q]) r)
    (have + rows_answered engine (length (sent r)) q).
Proof.
  intros Hlt q. exists [q]. by repeat split.
Qed.

Lemma meta_of_symbol symbol (m : M (list string)) :
  sends (fun q => exists s, q = SelectColumns s symbol) m -> sends is_meta m.
Proof. apply sends_mono. by intros q [s ->]. Qed.

Lemma search_loop_trace cleaned_query date_from row_limit targets :
  forall results r res r',
    search_loop engine str_of_row cleaned_query date_from row_limit
                targets results r = (res, r') ->
    exists tables have',
      loop_trace engine row_limit tables (Py.len results) r r' have'
      /\ sublist tables targets
      /\ forall out, res = Ok out -> Py.len out = have'.
Proof.
  induction targets as [|symbol rest IH]; intros results r res r' H;
    simpl in H.
  { injection H as <- <-. exists [], (Py.len results).
    split; [apply loop_trace_refl|]. split; [done|]. by intros out [= <-]. }
  destruct (Z.leb_spec row_limit (Py.len results)) as [Hge|Hlt].
  { injection H as <- <-. exists [], (Py.len results).
    split; [apply loop_trace_refl|]. split; [apply sublist_nil_l|].
    by intros out [= <-]. }
  apply bind_inv in H as [(cols & r1 & Hc & H)|(e & Hc & ->)]; cycle 1.
  { exists [], (Py.len results). split; [|split; [apply sublist_nil_l|done]].
    apply loop_trace_meta.
    apply (sends_resolve_searchable_columns engine is_meta symbol) in Hc;
      done. }
  apply (sends_resolve_searchable_columns engine is_meta symbol) in Hc;
    [|done].
  apply (loop_trace_meta row_limit (Py.len results)) in Hc.
  destruct cols as [|col cols].
  { apply IH in H as (tables & have' & Ht & Hs & Ho).
    exists tables, have'. split; [|split; [by apply sublist_cons|done]].
    by apply (loop_trace_trans _ [] tables _ _ _ _ _ _ Hc). }
  apply bind_inv in H as [(dc & r2 & Hd & H)|(e & Hd & ->)]; cycle 1.
  { exists [], (Py.len results). split; [|split; [apply sublist_nil_l|done]].
    apply (sends_resolve_date_column engine is_meta symbol) in Hd; [|done].
    apply (loop_trace_meta row_limit (Py.len results)) in Hd.
    by apply (loop_trace_trans _ [] [] _ _ _ _ _ _ Hc). }
  apply (sends_resolve_date_column engine is_meta symbol) in Hd; [|done].
  apply (loop_trace_meta row_limit (Py.len results)) in Hd.
  pose proof (loop_trace_trans _ [] [] _ _ _ _ _ _ Hc Hd) as Hcd.
  clear Hc Hd. cbn [app] in Hcd.
  unfold mbind at 1, M_bind, self in H.
  assert (Hm : max_rows r2 = max_rows r).
  { by destruct Hcd as (? & _ & (_ & ? & _) & _). }
  set (q := SelectSearch _ _ _ _ _ _) in H.
  pose proof (loop_trace_query row_limit (Py.len results) r2 symbol
                (col :: cols) ("%" +:+ cleaned_query +:+ "%")
                (if truthy_opt date_from && truthy_opt dc
                 then Some (default EmptyString dc,
                            default EmptyString date_from +:+ " 00:00:00")
                 else None)
                (if truthy_opt dc then dc else None) Hlt) as Hq.
  cbn zeta in Hq. fold q in Hq.
  pose proof (loop_trace_trans _ _ _ _ _ _ _ _ _ Hcd Hq) as Hcdq.
  clear Hcd Hq. cbn [app] in Hcdq.
  apply bind_inv in H as [(rows & r3 & Hr & H)|(e & Hr & ->)]; cycle 1.
  { unfold _query_rows in Hr. apply query_inv in Hr as [-> _].
    eexists [symbol], _. split; [exact Hcdq|].
    split; [|done]. apply sublist_skip, sublist_nil_l. }
  unfold _query_rows in Hr.
  apply query_inv in Hr as [-> [(a & Ha & [= <-])|[_ ?]]]; [|done].
  assert (Hans : rows_answered engine (length (sent r2)) q = Py.len rows).
  { unfold q. simpl. fold q. by rewrite Ha. }
  rewrite Hans in Hcdq.
  set (r3 := set_sent _ r2) in *.
  apply bind_inv in H as [(found & r4 & Hf & H)|(e & Hf & ->)]; cycle 1.
  { eexists [symbol], _. split; [|split; [|done]].
    - eapply (loop_trace_trans _ [symbol] []); [exact Hcdq|].
      apply loop_trace_meta.
      eapply (sends_mapM is_meta); [|exact Hf].
      intros row _. by apply sends_search_result.
    - apply sublist_skip, sublist_nil_l. }
  pose proof (mapM_length _ _ _ _ _ Hf) as Hlen.
  assert (Hf' : loop_trace engine row_limit [] (Py.len results + Py.len rows)
                  r3 r4 (Py.len results + Py.len rows)).
  { apply loop_trace_meta. eapply (sends_mapM is_meta); [|exact Hf].
    intros row _. by apply sends_search_result. }
  pose proof (loop_trace_trans _ _ _ _ _ _ _ _ _ Hcdq Hf') as Hall.
  cbn [app] in Hall.
  apply IH in H as (tables & have' & Ht & Hs & Ho).
  assert (Hl : Py.len (results ++ found) = Py.len results + Py.len rows).
  { unfold Py.len. rewrite length_app, Hlen. lia. }
  rewrite Hl in Ht.
  exists ([symbol] ++ tables), have'. split; [|split; [|done]].
  - by eapply loop_trace_trans.
  - by apply sublist_skip.
Qed.

(** With no budget left the loop returns at once. *)
Lemma search_loop_no_budget cleaned_query date_from row_limit targets
    results r :
  row_limit <= Py.len results ->
  search_loop engine str_of_row cleaned_query date_from row_limit
              targets results r = (Ok results, r).
Proof.
  intros H. destruct targets; simpl; [done|].
  by destruct (Z.leb_spec row_limit (Py.len results)); [|lia].
Qed.

(** Only the target symbols are named in what the loop sends. *)
Lemma sends_search_loop (P : Statement -> Prop) cleaned_query date_from
    row_limit targets results :
  (forall q t, table_named q = Some t -> t ∈ targets -> P q) ->
  sends P (search_loop engine str_of_row cleaned_query date_from row_limit
             targets results).
Proof.
  revert results. induction targets as [|symbol rest IH];
    intros results HP; simpl.
  { apply sends_ret. }
  assert (Hin : symbol ∈ symbol :: rest) by left.
  assert (IH' : forall res, sends P
            (search_loop engine str_of_row cleaned_query date_from
               row_limit rest res)).
  { intros res. apply IH. intros q t Hq Ht. apply (HP q t Hq). by right. }
  destruct (row_limit <=? Py.len results); [apply sends_ret|].
  apply sends_bind.
  { apply sends_resolve_searchable_columns. intros s. by eapply HP. }
  intros [|col cols]; [apply IH'|].
  apply sends_bind.
  { apply sends_resolve_date_column. intros s. by eapply HP. }
  intros dc. apply sends_bind; [apply sends_self|]. intros r0.
  apply sends_bind.
  { unfold _query_rows. apply sends_query. by eapply HP. }
  intros rows. apply sends_bind; [|intros; apply IH'].
  apply sends_mapM. intros row _. apply sends_search_result.
  intros s. by eapply HP.
Qed.
End Loop.

(** ** [search] as a whole *)

Section Search.
Context (engine : Engine) (str_of_row : Row -> string).

Lemma resolve_targets_default symbols r targets r1 :
  symbols = None \/ symbols = Some [] ->
  _resolve_target_symbols engine symbols r = (Ok targets, r1) ->
  _refresh_symbols_cache engine r = (Ok tt, r1)
  /\ targets
     = Py.slice_to (max_scan_symbols r1) (Py.sorted (_symbols_cache r1)).
Proof.
  intros Hs H. unfold _resolve_target_symbols in H.
  apply bind_inv_Ok in H as ([] & r0 & Hr & H).
  unfold mbind, M_bind, self in H.
  by destruct Hs as [-> | ->]; injection H as <- <-.
Qed.

Lemma resolve_targets_explicit symbols r targets r1 :
  symbols <> [] ->
  _resolve_target_symbols engine (Some symbols) r = (Ok targets, r1) ->
  exists r0 validated,
    _refresh_symbols_cache engine r = (Ok tt, r0)
    /\ mapM (_validate_symbol engine) symbols r0 = (Ok validated, r1)
    /\ targets = Py.slice_to (max_scan_symbols r1) (Py.fromkeys validated).
Proof.
  intros Hs H. unfold _resolve_target_symbols in H.
  apply bind_inv_Ok in H as ([] & r0 & Hr & H).
  unfold mbind at 1, M_bind, self in H.
  destruct symbols as [|x l]; [done|].
  apply bind_inv_Ok in H as (validated & r2 & Hv & H).
  unfold mbind, M_bind, self in H. injection H as <- <-.
  by exists r0, validated.
Qed.

Lemma validate_date_state value r res r' :
  _validate_date value r = (res, r') -> r' = r.
Proof.
  unfold _validate_date. by destruct (Strptime.parse value); intros [= <- <-].
Qed.

Lemma search_trace query symbols date_from limit r res r' :
  search engine str_of_row query symbols date_from limit r = (res, r') ->
  exists tables have',
    loop_trace engine (Z.min limit (max_rows r)) tables 0 r r' have'
    /\ (tables = []
        \/ exists targets r1,
             _resolve_target_symbols engine symbols r = (Ok targets, r1)
             /\ sublist tables targets)
    /\ forall results,
         res = Ok results ->
         0 <= limit \/ Py.strip query <> EmptyString ->
         Py.len results <= limit.
Proof.
  intros H. unfold search in H.
  destruct (decide (Py.strip query = EmptyString)) as [Hq|Hq].
  { rewrite bool_decide_eq_true_2 in H by done. injection H as <- <-.
    exists [], 0. split; [apply loop_trace_refl|]. split; [by left|].
    intros results [= <-] [?|?]; [done|done]. }
  rewrite bool_decide_eq_false_2 in H by done.
  apply bind_inv in H as [(row_limit & r0 & Hl & H)|(e & Hl & ->)]; cycle 1.
  { rewrite safe_limit_eq in Hl. destruct (limit <=? 0); [|done].
    injection Hl as <- <-. exists [], 0.
    split; [apply loop_trace_refl|]. split; [by left|done]. }
  apply safe_limit_Ok in Hl as (Hpos & -> & ->).
  apply bind_inv in H as [(targets & r1 & Ht & H)|(e & Ht & ->)]; cycle 1.
  { exists [], 0. split; [|split; [by left|done]].
    apply loop_trace_meta.
    by apply (sends_resolve_target_symbols engine is_meta) in Ht. }
  pose proof Ht as Hm.
  apply (sends_resolve_target_symbols engine is_meta) in Hm; [|done].
  apply (loop_trace_meta engine (Z.min limit (max_rows r)) 0) in Hm.
  apply bind_inv in H as [([] & r2 & Hd & H)|(e & Hd & ->)]; cycle 1.
  { assert (r' = r1) as ->.
    { destruct (truthy_opt date_from);
        [by apply validate_date_state in Hd | by injection Hd]. }
    exists [], 0. split; [done|]. split; [by left|done]. }
  assert (r2 = r1) as ->.
  { destruct (truthy_opt date_from);
      [by apply validate_date_state in Hd | by injection Hd]. }
  apply bind_inv in H as [(out & r3 & Hloop & H)|(e & Hloop & ->)].
  - injection H as <- <-.
    pose proof Hloop as Hloop'.
    apply search_loop_trace in Hloop as (tables & have' & Hlt & Hsub & Hout).
    exists tables, have'. split; [|split].
    + by apply (loop_trace_trans _ _ [] tables _ _ _ _ _ _ Hm).
    + right. by exists targets, r1.
    + intros results [= <-] _.
      destruct (Z.le_gt_cases (Z.min limit (max_rows r)) 0) as [Hle|Hgt].
      * rewrite search_loop_no_budget in Hloop' by done.
        injection Hloop' as <- _. unfold Py.slice_to.
        destruct (_ <? 0); unfold Py.len; rewrite take_nil; simpl; lia.
      * etransitivity; [apply len_slice_to; lia|]. lia.
  - apply search_loop_trace in Hloop as (tables & have' & Hlt & Hsub & Hout).
    exists tables, have'. split; [|split; [|done]].
    + by apply (loop_trace_trans _ _ [] tables _ _ _ _ _ _ Hm).
    + right. by exists targets, r1.
Qed.


End Search.

(** * The claims *)

(** C1 (amended).  After a successful discovery of the inventory,
    [_validate_symbol] resolves names without regard to case and returns
    the canonical name: for a table [S] of the inventory whose lowered
    name no other table shares, every input whose trimmed form equals [S]
    up to case is resolved to [S], in particular [lower(S)] when [S] has
    no outer whitespace; an input whose trimmed form is itself a table
    name is returned as that name; an input that matches no table up to
    case raises [UnknownSymbol]. *)
Theorem validate_symbol_case_insensitive engine r r1 symbol :
  consistent r ->
  _refresh_symbols_cache engine r = (Ok tt, r1) ->
  (forall S,
      S ∈ _symbols_cache r1 ->
      (forall T, T ∈ _symbols_cache r1 -> Py.lower T = Py.lower S -> T = S) ->
      (Py.lower (Py.strip symbol) = Py.lower S ->
       _validate_symbol engine symbol r = (Ok S, r1))
      /\ (Py.strip S = S ->
          _validate_symbol engine (Py.lower S) r = (Ok S, r1)))
  /\ (Py.strip symbol ∈ _symbols_cache r1 ->
      _validate_symbol engine symbol r = (Ok (Py.strip symbol), r1))
  /\ ((forall T, T ∈ _symbols_cache r1 ->
                 Py.lower T <> Py.lower (Py.strip symbol)) ->
      _validate_symbol engine symbol r = (Raise (UnknownSymbol symbol), r1)).
Proof.
  intros Hc H. split; [|split].
  - intros S HS Huniq. split.
    + intros Hlow. by apply validate_symbol_unique.
    + intros Hstrip. apply validate_symbol_unique; try done.
      by rewrite strip_lower, Hstrip, lower_idem.
  - by apply validate_symbol_exact.
  - by apply validate_symbol_unknown.
Qed.

Lemma validate_symbol_case_insensitive_witness :
  fst (_validate_symbol Demo.engine "  aapl " Demo.repo) = Ok "AAPL"
  /\ fst (_validate_symbol Demo.engine (Py.lower "AAPL") Demo.repo) = Ok "AAPL"
  /\ fst (_validate_symbol Demo.engine "nasdaq" Demo.repo)
     = Raise (UnknownSymbol "nasdaq").
Proof.
  pose (names := ["AAPL"; "MSFT"; "SYM"; "notes"]).
  pose (r1 := set_symbol_lookup_cache (lookup_of (list_to_set names))
                (set_symbols_cache (list_to_set names)
                   (set_sent [SelectTables "news"] Demo.repo))).
  assert (Hr : _refresh_symbols_cache Demo.engine Demo.repo = (Ok tt, r1))
    by (apply refresh_cold_ok; reflexivity).
  assert (Hin : forall T, T ∈ _symbols_cache r1 -> T ∈ names)
    by (intros T HT; by apply elem_of_list_to_set in HT).
  assert (HS : "AAPL" ∈ _symbols_cache r1)
    by (apply elem_of_list_to_set; left).
  assert (Huniq : Forall (fun T => Py.lower T = Py.lower "AAPL" -> T = "AAPL")
                         names).
  { unfold names. repeat apply Forall_cons_2; [..|apply Forall_nil_2];
      intros E; vm_compute in E; first [discriminate E | reflexivity]. }
  assert (Hnone : Forall (fun T => Py.lower T <> Py.lower (Py.strip "nasdaq"))
                         names).
  { unfold names. repeat apply Forall_cons_2; [..|apply Forall_nil_2];
      intros E; vm_compute in E; discriminate E. }
  rewrite Forall_forall in Huniq, Hnone.
  split; [|split].
  - destruct (validate_symbol_case_insensitive Demo.engine Demo.repo r1
                "  aapl " (consistent_init _ _ _) Hr) as (H & _ & _).
    destruct (H "AAPL" HS (fun T HT => Huniq T (Hin T HT))) as [H1 _].
    rewrite H1; reflexivity.
  - destruct (validate_symbol_case_insensitive Demo.engine Demo.repo r1
                "" (consistent_init _ _ _) Hr) as (H & _ & _).
    destruct (H "AAPL" HS (fun T HT => Huniq T (Hin T HT))) as [_ H2].
    rewrite H2; reflexivity.
  - destruct (validate_symbol_case_insensitive Demo.engine Demo.repo r1
                "nasdaq" (consistent_init _ _ _) Hr) as (_ & _ & H).
    rewrite H; [reflexivity|]. intros T HT. apply Hnone, Hin, HT.
Defined.

(** C1, as stated, fails on a schema with the tables [AAPL] and [aapl]:
    the lowered form of the table name [AAPL] is resolved to [aapl]. *)
Lemma validate_symbol_case_clash :
  let r := snd (_refresh_symbols_cache Demo.clash Demo.repo) in
  "AAPL" ∈ _symbols_cache r
  /\ fst (_validate_symbol Demo.clash (Py.lower "AAPL") Demo.repo) = Ok "aapl"
  /\ fst (_validate_symbol Demo.clash (Py.lower "AAPL") r) = Ok "aapl".
Proof.
  split; [|split].
  - rewrite (refresh_cold_ok _ _ ["AAPL"; "aapl"]) by done.
    apply elem_of_list_to_set. left.
  - vm_compute. reflexivity.
  - vm_compute. reflexivity.
Qed.

(** C7.  A query that is empty or made of whitespace only makes [search]
    return the empty list, whatever the other arguments; the repository
    object, with the list of statements sent, is left as it was. *)
Theorem search_blank_query engine str_of_row query symbols date_from limit r :
  all_space query = true ->
  search engine str_of_row query symbols date_from limit r = (Ok [], r).
Proof.
  intros H. unfold search. by rewrite strip_all_space.
Qed.

Lemma search_blank_query_witness :
  search Demo.engine Demo.str_of_row "   " (Some ["nasdaq"]) (Some "soon") 0
         Demo.repo
  = (Ok [], Demo.repo).
Proof. apply search_blank_query. reflexivity. Defined.

Lemma query_rows_eq engine q r :
  _query_rows engine q r
  = (match answer_rows engine (length (sent r)) q with
     | Some rows => Ok rows
     | None => Raise QueryFailed
     end, set_sent (sent r ++ [q]) r).
Proof. unfold _query_rows, _query. by destruct (answer_rows _ _ _). Qed.

Lemma fetch_of_cached_key engine str_of_row identifier S raw_pk r pk :
  _primary_key_cache r !! S = Some (Some pk) -> pk <> EmptyString ->
  let q := SelectByKey S pk raw_pk in
  let r3 := set_sent (sent r ++ [q]) r in
  fetch_of_symbol engine str_of_row identifier S raw_pk r
  = match answer_rows engine (length (sent r)) q with
    | None => (Raise QueryFailed, r3)
    | Some [] => (Raise (NotFound identifier), r3)
    | Some (row :: _) =>
        (Ok {| doc_id :=
                 if negb (is_None (row_get row pk))
                 then S +:+ ":" +:+ str (row_get row pk)
                 else S +:+ ":" +:+ digest16 S row;
               doc_title :=
                 (let t := _extract_title row in
                  if bool_decide (t = EmptyString)
                  then S +:+ " news item" else t);
               doc_text := _extract_body str_of_row row;
               doc_url := "mysql://" +:+ schema r +:+ "/" +:+ S +:+ "/"
                          +:+ raw_pk;
               doc_metadata :=
                 {| md_symbol := S; md_schema := schema r;
                    md_primary_key_column := pk; md_raw_row := row |} |},
         r3)
    end.
Proof.
  intros Hk Hne q r3. unfold fetch_of_symbol.
  rewrite (bind_Ok _ _ _ _ _ (resolve_primary_key_cached engine S r _ Hk)).
  assert (Htr : truthy_opt (Some pk) = true).
  { simpl. by rewrite bool_decide_eq_false_2. }
  rewrite Htr. cbn [negb]. cbn zeta. cbn [from_option id].
  destruct (answer_rows engine (length (sent r)) q) as [[|row rest]|] eqn:Ha.
  - assert (Hq : _query_rows engine q r = (Ok [], r3))
      by (by rewrite query_rows_eq, Ha).
    by rewrite (bind_Ok _ _ _ _ _ Hq).
  - assert (Hq : _query_rows engine q r = (Ok (row :: rest), r3))
      by (by rewrite query_rows_eq, Ha).
    rewrite (bind_Ok _ _ _ _ _ Hq).
    assert (Hd : _document_id engine S row r3
                 = (Ok (if negb (is_None (row_get row pk))
                        then S +:+ ":" +:+ str (row_get row pk)
                        else S +:+ ":" +:+ digest16 S row), r3)).
    { rewrite document_id_eq.
      rewrite (resolve_primary_key_cached engine S r3 (Some pk)) by done.
      cbn zeta. cbn [from_option id]. by rewrite Htr. }
    by rewrite (bind_Ok _ _ _ _ _ Hd).
  - assert (Hq : _query_rows engine q r = (Raise QueryFailed, r3))
      by (by rewrite query_rows_eq, Ha).
    by rewrite (bind_Raise _ _ _ _ _ Hq).
Qed.

(** [fetch] once the primary key of the validated symbol is resolved: one
    statement is sent, the query by key for the key value of the id. *)
Lemma fetch_of_resolved_key engine str_of_row identifier S raw_pk r1 pk r2 :
  _resolve_primary_key engine S r1 = (Ok (Some pk), r2) ->
  pk <> EmptyString ->
  let q := SelectByKey S pk raw_pk in
  exists res,
    fetch_of_symbol engine str_of_row identifier S raw_pk r1
    = (res, set_sent (sent r2 ++ [q]) r2)
    /\ (answer_rows engine (length (sent r2)) q = None ->
        res = Raise QueryFailed)
    /\ (answer_rows engine (length (sent r2)) q = Some [] ->
        res = Raise (NotFound identifier))
    /\ forall doc,
         res = Ok doc ->
         doc_url doc
         = "mysql://" +:+ schema r2 +:+ "/" +:+ S +:+ "/" +:+ raw_pk
         /\ md_symbol (doc_metadata doc) = S
         /\ md_primary_key_column (doc_metadata doc) = pk.
Proof.
  intros Hk Hne q.
  pose proof (resolve_primary_key_Ok _ _ _ _ _ Hk) as Hc.
  assert (E : fetch_of_symbol engine str_of_row identifier S raw_pk r1
              = fetch_of_symbol engine str_of_row identifier S raw_pk r2).
  { unfold fetch_of_symbol.
    by rewrite (bind_Ok _ _ _ _ _ Hk),
      (bind_Ok _ _ _ _ _ (resolve_primary_key_cached engine S r2 _ Hc)). }
  rewrite E, (fetch_of_cached_key engine str_of_row identifier S raw_pk r2 pk)
    by done.
  fold q.
  destruct (answer_rows engine (length (sent r2)) q) as [[|row rest]|];
    eexists; (split; [reflexivity|]); repeat split; try done.
  all: match goal with H : Ok _ = Ok _ |- _ => by injection H as <- end.
Qed.

(** C4 (amended).  [fetch] splits the id at its first colon.  An id without
    a colon raises [MalformedId] and nothing is sent to the engine.  An id
    with one colon or more is split into the text before the first colon
    (the symbol) and all the text after it (the key value), and [fetch]
    does not raise [MalformedId]: it validates the symbol part and fails
    as that validation fails; it resolves the primary key of the table
    found and fails as that fails, or with [NoPrimaryKey] when there is
    none; and otherwise it sends one more statement, the query by that
    key for the key value part, which is also what the url of the
    document ends with. *)
Theorem fetch_id_shape engine str_of_row identifier r :
  (Py.contains ":" identifier = false ->
   fetch engine str_of_row identifier r = (Raise MalformedId, r))
  /\ (Py.contains ":" identifier = true ->
      exists symbol raw_pk,
        Py.split1 ":" identifier = [symbol; raw_pk]
        /\ identifier = symbol +:+ ":" +:+ raw_pk
        /\ Py.contains ":" symbol = false
        /\ fst (fetch engine str_of_row identifier r) <> Raise MalformedId
        /\ (forall e r1,
               _validate_symbol engine symbol r = (Raise e, r1) ->
               fetch engine str_of_row identifier r = (Raise e, r1))
        /\ (forall S r1,
               _validate_symbol engine symbol r = (Ok S, r1) ->
               (forall e r2,
                   _resolve_primary_key engine S r1 = (Raise e, r2) ->
                   fetch engine str_of_row identifier r = (Raise e, r2))
               /\ (forall primary_key r2,
                      _resolve_primary_key engine S r1 = (Ok primary_key, r2) ->
                      truthy_opt primary_key = false ->
                      fetch engine str_of_row identifier r
                      = (Raise (NoPrimaryKey S), r2))
               /\ (forall pk r2,
                      _resolve_primary_key engine S r1 = (Ok (Some pk), r2) ->
                      pk <> EmptyString ->
                      let q := SelectByKey S pk raw_pk in
                      exists res,
                        fetch engine str_of_row identifier r
                        = (res, set_sent (sent r2 ++ [q]) r2)
                        /\ (answer_rows engine (length (sent r2)) q = None ->
                            res = Raise QueryFailed)
                        /\ (answer_rows engine (length (sent r2)) q = Some [] ->
                            res = Raise (NotFound identifier))
                        /\ forall doc,
                             res = Ok doc ->
                             doc_url doc
                             = "mysql://" +:+ schema r +:+ "/" +:+ S +:+ "/"
                               +:+ raw_pk
                             /\ md_symbol (doc_metadata doc) = S
                             /\ md_primary_key_column (doc_metadata doc)
                                = pk))).
Proof.
  split; intros H.
  - unfold fetch. by rewrite H.
  - destruct (split1_with _ _ H) as (a & b & Hs & Hi & Ha).
    exists a, b.
    assert (Hf : fetch engine str_of_row identifier
                 = _validate_symbol engine a
                     ≫= fun S => fetch_of_symbol engine str_of_row
                                   identifier S b).
    { unfold fetch. by rewrite H, Hs. }
    split; [done|]. split; [done|]. split; [done|]. split; [|split].
    + destruct (fetch engine str_of_row identifier r) as [res r'] eqn:E.
      simpl. intros ->.
      by apply (raises_fetch engine str_of_row (fun e => e <> MalformedId))
        in E.
    + intros e r1 Hv. by rewrite Hf, (bind_Raise _ _ _ _ _ Hv).
    + intros S r1 Hv. rewrite Hf, (bind_Ok _ _ _ _ _ Hv).
      split; [|split].
      * intros e r2 Hk. unfold fetch_of_symbol.
        by rewrite (bind_Raise _ _ _ _ _ Hk).
      * intros primary_key r2 Hk Ht. unfold fetch_of_symbol.
        by rewrite (bind_Ok _ _ _ _ _ Hk), Ht.
      * intros pk r2 Hk Hne.
        assert (Hsch : schema r2 = schema r).
        { apply (sends_validate_symbol engine (fun _ => True)) in Hv
            as (_ & _ & _ & (Hv & _)); [|done].
          apply (sends_resolve_primary_key engine (fun _ => True)) in Hk
            as (_ & _ & _ & (Hk & _)); [|done].
          by rewrite Hk. }
        rewrite <- Hsch.
        by apply fetch_of_resolved_key.
Qed.

Lemma fetch_id_shape_witness :
  fetch Demo.engine Demo.str_of_row "AAPL" Demo.repo
  = (Raise MalformedId, Demo.repo)
  /\ fst (fetch Demo.engine Demo.str_of_row "AAPL:1:2" Demo.repo)
     <> Raise MalformedId
  /\ exists doc,
       fst (fetch Demo.engine Demo.str_of_row "MSFT:1:2" Demo.repo) = Ok doc
       /\ doc_url doc = "mysql://news/MSFT/1:2"
       /\ last (sent (snd (fetch Demo.engine Demo.str_of_row "MSFT:1:2"
                             Demo.repo)))
          = Some (SelectByKey "MSFT" "id" "1:2").
Proof.
  split; [|split].
  - by apply (fetch_id_shape Demo.engine Demo.str_of_row "AAPL" Demo.repo).
  - destruct (proj2 (fetch_id_shape Demo.engine Demo.str_of_row "AAPL:1:2"
                       Demo.repo) eq_refl) as (a & b & _ & _ & _ & H & _).
    exact H.
  - destruct (proj2 (fetch_id_shape Demo.engine Demo.str_of_row "MSFT:1:2"
                       Demo.repo) eq_refl)
      as (a & b & Hs & _ & _ & _ & _ & H).
    vm_compute in Hs. injection Hs as <- <-.
    destruct (_validate_symbol Demo.engine "MSFT" Demo.repo)
      as [[S|e] r1] eqn:Hv; [|vm_compute in Hv; discriminate Hv].
    destruct (H S r1 eq_refl) as (_ & _ & Hq).
    assert (HS : S = "MSFT") by (vm_compute in Hv; by injection Hv as <- _).
    destruct (_resolve_primary_key Demo.engine S r1) as [[[pk|]|e] r2] eqn:Hpk.
    + assert (Hid : pk = "id").
      { vm_compute in Hv. injection Hv as <- <-. vm_compute in Hpk.
        by injection Hpk as <- _. }
      destruct (Hq pk r2 eq_refl) as (res & Hf & _ & _ & Hdoc);
        [by rewrite Hid|].
      rewrite Hf. cbn [fst snd sent set_sent].
      destruct res as [doc|e].
      * exists doc. split; [reflexivity|].
        destruct (Hdoc doc eq_refl) as (Hu & _).
        split; [by rewrite Hu, HS|].
        by rewrite last_snoc, HS, Hid.
      * exfalso. revert Hf. rewrite HS, Hid. clear.
        intros Hf. apply (f_equal fst) in Hf. vm_compute in Hf.
        discriminate Hf.
    + vm_compute in Hv. injection Hv as <- <-. vm_compute in Hpk.
      discriminate Hpk.
    + vm_compute in Hv. injection Hv as <- <-. vm_compute in Hpk.
      discriminate Hpk.
Defined.

(** C4, as stated, fails: an id with two colons is accepted and fetched,
    the key value being all the text after the first colon. *)
Lemma fetch_two_separators :
  Py.count ":" "MSFT:1:2" = 2%nat
  /\ exists doc,
       fst (fetch Demo.engine Demo.str_of_row "MSFT:1:2" Demo.repo) = Ok doc
       /\ doc_id doc = "MSFT:1:2"
       /\ md_raw_row (doc_metadata doc) = Demo.msft_row.
Proof.
  split; [reflexivity|]. eexists. split; [vm_compute; reflexivity|].
  split; reflexivity.
Qed.

(** C3 (amended).  A limit of zero or less raises [InvalidLimit] in
    [list_symbols] once the inventory is at hand, in [get_symbol_news] once
    the symbol is validated, and in [search] when the query is not blank;
    a limit above zero becomes [min(limit, max_rows)]; and when the engine
    returns no more rows than the bound [:limit], [get_symbol_news]
    returns at most [min(limit, max_rows)] rows. *)
Theorem limit_validation engine str_of_row r limit :
  (limit <= 0 ->
   (forall r1,
       _refresh_symbols_cache engine r = (Ok tt, r1) ->
       list_symbols engine (Some limit) r = (Raise InvalidLimit, r1))
   /\ (forall symbol date_from S r1,
          _validate_symbol engine symbol r = (Ok S, r1) ->
          get_symbol_news engine symbol date_from limit r
          = (Raise InvalidLimit, r1))
   /\ (forall query symbols date_from,
          Py.strip query <> EmptyString ->
          search engine str_of_row query symbols date_from limit r
          = (Raise InvalidLimit, r)))
  /\ (0 < limit ->
      _safe_limit limit r = (Ok (Z.min limit (max_rows r)), r)
      /\ (honours_limit engine ->
          forall symbol date_from rows r',
            get_symbol_news engine symbol date_from limit r = (Ok rows, r') ->
            Py.len rows <= Z.min limit (max_rows r))).
Proof.
  split.
  - intros Hle.
    assert (Hs : forall r0, _safe_limit limit r0 = (Raise InvalidLimit, r0)).
    { intros r0. rewrite safe_limit_eq. by destruct (Z.leb_spec limit 0); [|lia]. }
    split; [|split].
    + intros r1 Hr. unfold list_symbols.
      rewrite (bind_Ok _ _ _ _ _ Hr). unfold mbind at 1, M_bind, self.
      by rewrite (bind_Raise _ _ _ _ _ (Hs r1)).
    + intros symbol date_from S r1 Hv. unfold get_symbol_news.
      rewrite (bind_Ok _ _ _ _ _ Hv). by rewrite (bind_Raise _ _ _ _ _ (Hs r1)).
    + intros query symbols date_from Hq. unfold search.
      rewrite bool_decide_eq_false_2 by done.
      by rewrite (bind_Raise _ _ _ _ _ (Hs r)).
  - intros Hpos. split.
    + rewrite safe_limit_eq. by destruct (Z.leb_spec limit 0); [lia|].
    + intros Hhon symbol date_from rows r' H. unfold get_symbol_news in H.
      apply bind_inv_Ok in H as (S & r1 & Hv & H).
      apply bind_inv_Ok in H as (row_limit & r2 & Hl & H).
      apply safe_limit_Ok in Hl as (_ & -> & ->).
      apply bind_inv_Ok in H as (date_column & r3 & Hd & H).
      apply bind_inv_Ok in H as ([w o] & r4 & Hw & H).
      apply bind_inv_Ok in H as (rows0 & r5 & Hq & H).
      apply mapM_length in H.
      unfold _query_rows in Hq.
      apply query_inv in Hq as [_ [(a & Ha & [= <-])|[_ ?]]]; [|done].
      apply (Hhon _ _ _ (Z.min limit (max_rows r1))) in Ha; [|done].
      apply (sends_validate_symbol engine (fun _ => True)) in Hv; [|done].
      apply grows_settings in Hv as (_ & Hm & _).
      unfold Py.len in *. rewrite H. rewrite <- Hm. done.
Qed.

Lemma demo_honours_limit : honours_limit Demo.engine.
Proof.
  intros n q rows l H Hl. simpl in H. unfold Demo.rows_for in H.
  assert (Hlim : forall k (rs out : list Row),
             Demo.limited k rs = Some out -> Py.len out <= k).
  { intros k rs out. unfold Demo.limited.
    destruct (Z.ltb_spec k 0); [done|]. intros [= <-].
    unfold Py.len. rewrite length_take. lia. }
  destruct q; simpl in Hl; try done; injection Hl as <-;
    destruct (snd <$> Demo.find_table symbol) as [[[? ?] rs]|]; simpl in H;
    try done; eauto.
Qed.

Lemma limit_validation_witness :
  list_symbols Demo.engine (Some 0) Demo.repo
  = (Raise InvalidLimit, snd (_refresh_symbols_cache Demo.engine Demo.repo))
  /\ fst (get_symbol_news Demo.engine "aapl" None (-3) Demo.repo)
     = Raise InvalidLimit
  /\ search Demo.engine Demo.str_of_row "estimates" None None 0 Demo.repo
     = (Raise InvalidLimit, Demo.repo)
  /\ _safe_limit 500 Demo.repo = (Ok 200, Demo.repo)
  /\ (forall rows r',
         get_symbol_news Demo.engine "aapl" None 500 Demo.repo = (Ok rows, r') ->
         Py.len rows <= 200).
Proof.
  destruct (limit_validation Demo.engine Demo.str_of_row Demo.repo 0)
    as [H0 _].
  destruct (H0 ltac:(lia)) as (Hl & _ & Hs).
  destruct (limit_validation Demo.engine Demo.str_of_row Demo.repo (-3))
    as [H3 _].
  destruct (H3 ltac:(lia)) as (_ & Hg & _).
  destruct (limit_validation Demo.engine Demo.str_of_row Demo.repo 500)
    as [_ H5].
  destruct (H5 ltac:(lia)) as (Hsafe & Hrows).
  split; [|split; [|split; [|split]]].
  - apply Hl. vm_compute. reflexivity.
  - erewrite Hg; [reflexivity|]. vm_compute. reflexivity.
  - apply Hs. vm_compute. discriminate.
  - exact Hsafe.
  - intros rows r' H. exact (Hrows demo_honours_limit "aapl" None rows r' H).
Defined.

(** C3, as stated, fails: with a blank query [search] returns the empty
    list for the limit 0, and [get_symbol_news] on an unknown symbol raises
    [UnknownSymbol], not [InvalidLimit], for the limit 0. *)
Lemma limit_not_always_checked :
  search Demo.engine Demo.str_of_row "" None None 0 Demo.repo
  = (Ok [], Demo.repo)
  /\ fst (get_symbol_news Demo.engine "nasdaq" None 0 Demo.repo)
     = Raise (UnknownSymbol "nasdaq").
Proof. split; vm_compute; reflexivity. Qed.

(** C6.  When [_document_id] returns an id, the primary key of the symbol
    was resolved, and: if there is a primary key and the row's value for
    it is not null, the id is the symbol, a colon and that value;
    otherwise it is the symbol, a colon and the first 16 hexadecimal
    characters of the SHA-1 of "symbol|title|date", where the date is the
    row's [date] field, empty when the row has none; a second call on the
    same symbol and row returns the same id and changes nothing. *)
Theorem document_id_rule engine symbol row r id r1 :
  _document_id engine symbol row r = (Ok id, r1) ->
  exists primary_key,
    _resolve_primary_key engine symbol r = (Ok primary_key, r1)
    /\ (forall pk, primary_key = Some pk -> pk <> EmptyString ->
                   row_get row pk <> VNone ->
                   id = symbol +:+ ":" +:+ str (row_get row pk))
    /\ ((forall pk, primary_key = Some pk ->
                    pk = EmptyString \/ row_get row pk = VNone) ->
        id = symbol +:+ ":" +:+
             Py.str_slice_to 16
               (Sha1.hexdigest
                  (Py.encode_utf8
                     (symbol +:+ "|" +:+ _extract_title row +:+ "|"
                      +:+ match row !! "date" with
                          | Some v => str v
                          | None => EmptyString
                          end))))
    /\ _document_id engine symbol row r1 = (Ok id, r1).
Proof.
  rewrite document_id_eq.
  destruct (_resolve_primary_key engine symbol r) as [[primary_key|e] r0]
    eqn:Hpk; [|done].
  intros [= <- <-]. exists primary_key. split; [done|]. split; [|split].
  - intros pk -> Hne Hv. simpl. rewrite bool_decide_eq_false_2 by done.
    simpl. by destruct (row_get row pk).
  - intros H. destruct primary_key as [pk|]; [|done]. simpl.
    destruct (H pk eq_refl) as [->|Hv]; [done|]. rewrite Hv. simpl.
    by rewrite andb_false_r.
  - rewrite document_id_eq.
    by rewrite (resolve_primary_key_cached _ _ _ _
                  (resolve_primary_key_Ok _ _ _ _ _ Hpk)).
Qed.

Lemma document_id_rule_witness :
  fst (_document_id Demo.engine "AAPL" Demo.aapl_row Demo.repo) = Ok "AAPL:1"
  /\ fst (_document_id Demo.engine "notes" Demo.note_row Demo.repo)
     = Ok ("notes:" +:+ Py.str_slice_to 16
             (Sha1.hexdigest (Py.encode_utf8 "notes||"))).
Proof.
  split.
  - destruct (_document_id Demo.engine "AAPL" Demo.aapl_row Demo.repo)
      as [[id|e] r1] eqn:E; [|vm_compute in E; discriminate E].
    destruct (document_id_rule _ _ _ _ _ _ E) as (pk & Hpk & H & _ & _).
    vm_compute in Hpk. injection Hpk as <- _.
    cbn [fst]. f_equal. rewrite (H "id" eq_refl).
    + vm_compute. reflexivity.
    + discriminate.
    + vm_compute. discriminate.
  - destruct (_document_id Demo.engine "notes" Demo.note_row Demo.repo)
      as [[id|e] r1] eqn:E; [|vm_compute in E; discriminate E].
    destruct (document_id_rule _ _ _ _ _ _ E) as (pk & Hpk & _ & H & _).
    vm_compute in Hpk. injection Hpk as <- _.
    cbn [fst]. f_equal. rewrite H.
    + vm_compute. reflexivity.
    + intros ? [=].
Defined.

(** C8 (amended).  A [date_from] that is not empty and that
    [strptime(value, "%Y-%m-%d")] rejects raises [InvalidDateFormat] in
    [search] when the query is not blank, the limit is above zero and the
    target symbols are resolved, and in [get_symbol_news] when the symbol
    and the limit are valid and the table has a date column; in both, no
    row of a symbol table is read. *)
Theorem date_validation engine str_of_row r d limit :
  d <> EmptyString -> Strptime.parse d = None -> 0 < limit ->
  (forall query symbols targets r1,
      Py.strip query <> EmptyString ->
      _resolve_target_symbols engine symbols r = (Ok targets, r1) ->
      search engine str_of_row query symbols (Some d) limit r
      = (Raise InvalidDateFormat, r1))
  /\ (forall symbol S r1 c r2,
         _validate_symbol engine symbol r = (Ok S, r1) ->
         _resolve_date_column engine S r1 = (Ok (Some c), r2) ->
         get_symbol_news engine symbol (Some d) limit r
         = (Raise InvalidDateFormat, r2)).
Proof.
  intros Hd Hp Hl.
  assert (Hs : forall r0, _safe_limit limit r0
                          = (Ok (Z.min limit (max_rows r0)), r0)).
  { intros r0. rewrite safe_limit_eq. by destruct (Z.leb_spec limit 0); [lia|]. }
  assert (Hv : forall r0, _validate_date d r0 = (Raise InvalidDateFormat, r0)).
  { intros r0. unfold _validate_date. by rewrite Hp. }
  assert (Ht : truthy_opt (Some d) = true).
  { simpl. by rewrite bool_decide_eq_false_2. }
  split.
  - intros query symbols targets r1 Hq Hr. unfold search.
    rewrite bool_decide_eq_false_2 by done.
    rewrite (bind_Ok _ _ _ _ _ (Hs r)), (bind_Ok _ _ _ _ _ Hr), Ht.
    by rewrite (bind_Raise _ _ _ _ _ (Hv r1)).
  - intros symbol S r1 c r2 Hsym Hc. unfold get_symbol_news.
    rewrite (bind_Ok _ _ _ _ _ Hsym), (bind_Ok _ _ _ _ _ (Hs r1)),
      (bind_Ok _ _ _ _ _ Hc).
    destruct (resolve_date_column_known _ _ _ _ _ Hc) as [_ Hc'].
    rewrite Ht, Hc'. cbn [andb default].
    apply bind_Raise. by apply bind_Raise.
Qed.

Lemma date_validation_witness :
  fst (search Demo.engine Demo.str_of_row "estimates" None (Some "05/01/2024")
         10 Demo.repo)
  = Raise InvalidDateFormat
  /\ fst (get_symbol_news Demo.engine "aapl" (Some "05/01/2024") 10 Demo.repo)
     = Raise InvalidDateFormat.
Proof.
  assert (H1 : "05/01/2024" <> EmptyString) by discriminate.
  assert (H2 : Strptime.parse "05/01/2024" = None)
    by (vm_compute; reflexivity).
  assert (H3 : 0 < 10) by reflexivity.
  destruct (date_validation Demo.engine Demo.str_of_row Demo.repo
              "05/01/2024" 10 H1 H2 H3) as [Hs Hg].
  split.
  - erewrite Hs. 
    + reflexivity.
    + vm_compute. discriminate.
    + vm_compute. reflexivity.
  - erewrite Hg. 
    + reflexivity.
    + vm_compute. reflexivity.
    + vm_compute. reflexivity.
Defined.

(** C8, as stated, fails: [search] with a blank query returns the empty
    list whatever [date_from] is; [get_symbol_news] on a table without a
    date column returns its rows whatever [date_from] is; and
    [strptime] accepts a month and a day written without padding. *)
Lemma date_not_always_validated :
  search Demo.engine Demo.str_of_row "" None (Some "garbage") 10 Demo.repo
  = (Ok [], Demo.repo)
  /\ fst (_resolve_date_column Demo.engine "MSFT" Demo.repo) = Ok None
  /\ fst (get_symbol_news Demo.engine "MSFT" (Some "not-a-date") 10 Demo.repo)
     = Ok [ <["document_id" := VStr "MSFT:1:2"]>
              (<["symbol" := VStr "MSFT"]> Demo.msft_row) ]
  /\ fst (_validate_date "2024-1-5" Demo.repo) = Ok tt.
Proof. repeat split; vm_compute; reflexivity. Qed.

(** C9.  For each of the three metadata lookups (table inventory, columns
    of a symbol, primary key of a symbol): when the entry is not cached
    and the engine fails, the call raises, the four caches are as before,
    and the failed statement was sent; the next call sends the statement
    again, and when the engine then answers, the entry is written whole.
    The two inventory caches agree after every call of
    [_refresh_symbols_cache], whatever its outcome. *)
Theorem discovery_failure_leaves_cache engine r symbol :
  (_symbols_cache r = ∅ ->
   answer_tables engine (length (sent r)) (schema r) = None ->
   exists r',
     _refresh_symbols_cache engine r = (Raise QueryFailed, r')
     /\ same_caches r r'
     /\ sent r' = sent r ++ [SelectTables (schema r)]
     /\ sent (snd (_refresh_symbols_cache engine r'))
        = sent r' ++ [SelectTables (schema r)]
     /\ forall names,
          answer_tables engine (length (sent r')) (schema r) = Some names ->
          exists r'',
            _refresh_symbols_cache engine r' = (Ok tt, r'')
            /\ _symbols_cache r'' = list_to_set names
            /\ _symbol_lookup_cache r'' = lookup_of (list_to_set names))
  /\ (_columns_cache r !! symbol = None ->
      answer_columns engine (length (sent r)) (schema r) symbol = None ->
      exists r',
        _resolve_columns engine symbol r = (Raise QueryFailed, r')
        /\ same_caches r r'
        /\ sent r' = sent r ++ [SelectColumns (schema r) symbol]
        /\ sent (snd (_resolve_columns engine symbol r'))
           = sent r' ++ [SelectColumns (schema r) symbol]
        /\ forall columns,
             answer_columns engine (length (sent r')) (schema r) symbol
             = Some columns ->
             exists r'',
               _resolve_columns engine symbol r' = (Ok columns, r'')
               /\ _columns_cache r'' !! symbol = Some columns)
  /\ (_primary_key_cache r !! symbol = None ->
      answer_primary_key engine (length (sent r)) (schema r) symbol = None ->
      exists r',
        _resolve_primary_key engine symbol r = (Raise QueryFailed, r')
        /\ same_caches r r'
        /\ sent r' = sent r ++ [SelectPrimaryKey (schema r) symbol]
        /\ sent (snd (_resolve_primary_key engine symbol r'))
           = sent r' ++ [SelectPrimaryKey (schema r) symbol]
        /\ forall rows,
             answer_primary_key engine (length (sent r')) (schema r) symbol
             = Some rows ->
             exists r'',
               _resolve_primary_key engine symbol r' = (Ok (head rows), r'')
               /\ _primary_key_cache r'' !! symbol = Some (head rows))
  /\ (consistent r ->
      forall res r', _refresh_symbols_cache engine r = (res, r') ->
                     consistent r').
Proof.
  split; [|split; [|split]].
  - intros Hc Ha. eexists. split; [by apply refresh_cold_fail|].
    split; [done|]. split; [done|].
    set (r' := set_sent _ r).
    assert (Hc' : _symbols_cache r' = ∅) by done.
    split.
    + destruct (answer_tables engine (length (sent r')) (schema r'))
        as [names|] eqn:E.
      * by rewrite (refresh_cold_ok _ _ _ Hc' E).
      * by rewrite (refresh_cold_fail _ _ Hc' E).
    + intros names E. eexists.
      split; [by apply (refresh_cold_ok _ _ _ Hc' E)|]. done.
  - intros Hc Ha. eexists. split; [by apply resolve_columns_fail|].
    split; [done|]. split; [done|].
    set (r' := set_sent _ r).
    assert (Hc' : _columns_cache r' !! symbol = None) by done.
    split.
    + destruct (answer_columns engine (length (sent r')) (schema r') symbol)
        as [columns|] eqn:E.
      * by rewrite (resolve_columns_ok _ _ _ _ Hc' E).
      * by rewrite (resolve_columns_fail _ _ _ Hc' E).
    + intros columns E. eexists.
      split; [by apply (resolve_columns_ok _ _ _ _ Hc' E)|].
      simpl. apply lookup_insert_eq.
  - intros Hc Ha. eexists. split; [by apply resolve_primary_key_fail|].
    split; [done|]. split; [done|].
    set (r' := set_sent _ r).
    assert (Hc' : _primary_key_cache r' !! symbol = None) by done.
    split.
    + destruct (answer_primary_key engine (length (sent r')) (schema r')
                  symbol) as [rows|] eqn:E.
      * by rewrite (resolve_primary_key_ok _ _ _ _ Hc' E).
      * by rewrite (resolve_primary_key_fail _ _ _ Hc' E).
    + intros rows E. eexists.
      split; [by apply (resolve_primary_key_ok _ _ _ _ Hc' E)|].
      simpl. apply lookup_insert_eq.
  - intros Hc res r' H. by eapply refresh_consistent.
Qed.

Lemma discovery_failure_leaves_cache_witness :
  fst (_refresh_symbols_cache (Demo.flaky 1) Demo.repo) = Raise QueryFailed
  /\ same_caches Demo.repo
       (snd (_refresh_symbols_cache (Demo.flaky 1) Demo.repo))
  /\ fst (_resolve_columns (Demo.flaky 1) "AAPL" Demo.repo) = Raise QueryFailed
  /\ fst (_resolve_primary_key (Demo.flaky 1) "AAPL"
            (snd (_resolve_primary_key (Demo.flaky 1) "AAPL" Demo.repo)))
     = Ok (Some "id")
  /\ consistent (snd (_refresh_symbols_cache (Demo.flaky 1) Demo.repo)).
Proof.
  destruct (discovery_failure_leaves_cache (Demo.flaky 1) Demo.repo "AAPL")
    as (Ht & Hc & Hk & Hi).
  destruct (Ht ltac:(reflexivity) ltac:(reflexivity)) as (r1 & E1 & S1 & _).
  destruct (Hc ltac:(reflexivity) ltac:(reflexivity)) as (r2 & E2 & _).
  destruct (Hk ltac:(reflexivity) ltac:(reflexivity))
    as (r3 & E3 & _ & Es & _ & R3).
  rewrite E1, E2, E3. cbn [fst snd].
  split; [reflexivity|]. split; [exact S1|]. split; [reflexivity|].
  split.
  - destruct (R3 ["id"]) as (r4 & E4 & _).
    + rewrite Es. vm_compute. reflexivity.
    + rewrite E4. reflexivity.
  - apply (Hi (consistent_init _ _ _) _ _ E1).
Defined.

(** C2 (amended).  Whatever the outcome of a [search] call: a returned
    list is no longer than the limit when the limit is not negative or
    the query is not blank; when no symbols are given and the scan cap is
    not negative, the symbol tables read are, in order and at most once
    each, among the first [max_scan_symbols] names of the sorted
    inventory, so there are at most that many; and a table is read only
    while results are missing, for [min(results missing, max_rows)] rows. *)
Theorem search_bounds engine str_of_row query symbols date_from limit r
    res r' :
  search engine str_of_row query symbols date_from limit r = (res, r') ->
  exists new,
    sent r' = sent r ++ new
    /\ (forall results,
           res = Ok results ->
           0 <= limit \/ Py.strip query <> EmptyString ->
           Py.len results <= limit)
    /\ (symbols = None \/ symbols = Some [] ->
        0 <= max_scan_symbols r ->
        Py.len (omap table_read new) <= max_scan_symbols r
        /\ forall r0,
             _refresh_symbols_cache engine r = (Ok tt, r0) ->
             sublist (omap table_read new)
                     (take (Z.to_nat (max_scan_symbols r))
                           (Py.sorted (_symbols_cache r0))))
    /\ within_budget engine (Z.min limit (max_rows r)) (max_rows r)
         (length (sent r)) 0 new.
Proof.
  intros H.
  apply search_trace in H
    as (tables & have' & (new & E & S & T & B & _) & Hsub & Hlen).
  exists new. split; [done|]. split; [done|]. split; [|done].
  intros Hs Hcap. rewrite T.
  destruct Hsub as [->|(targets & r1 & Ht & Hsub)].
  { split; [unfold Py.len; simpl; lia|]. intros. apply sublist_nil_l. }
  pose proof Ht as Hg.
  apply (sends_resolve_target_symbols engine (fun _ => True)) in Hg; [|done].
  apply grows_settings in Hg as (_ & _ & Hc).
  apply resolve_targets_default in Ht as [Hr ->]; [|done].
  rewrite Hc, slice_to_nonneg in Hsub by done.
  split.
  - apply sublist_length in Hsub. rewrite length_take in Hsub.
    unfold Py.len. lia.
  - intros r0 Hr0. rewrite Hr in Hr0. by injection Hr0 as <-.
Qed.

Lemma search_bounds_witness :
  exists new,
    sent (snd (search Demo.engine Demo.str_of_row "a" None None 2 Demo.repo))
    = sent Demo.repo ++ new
    /\ (forall results,
           fst (search Demo.engine Demo.str_of_row "a" None None 2 Demo.repo)
           = Ok results ->
           Py.len results <= 2)
    /\ Py.len (omap table_read new) <= 50
    /\ within_budget Demo.engine 2 200 0 0 new.
Proof.
  destruct (search Demo.engine Demo.str_of_row "a" None None 2 Demo.repo)
    as [res r'] eqn:E.
  destruct (search_bounds _ _ _ _ _ _ _ _ _ E) as (new & Hn & Hl & Hc & Hb).
  exists new. cbn [fst snd]. split; [exact Hn|]. split; [|split].
  - intros results Hr. apply Hl; [exact Hr|]. left. discriminate.
  - apply Hc; [by left|]. discriminate.
  - exact Hb.
Defined.

(** C2, as stated, fails: a blank query with the limit -1 returns a list,
    of length 0; and with the scan cap configured as -1, a search over the
    four tables of the inventory reads three of them. *)
Lemma search_bounds_need_nonnegative :
  search Demo.engine Demo.str_of_row "" None None (-1) Demo.repo
  = (Ok [], Demo.repo)
  /\ ~ (Py.len (@nil SearchResult) <= -1)
  /\ omap table_read
       (sent (snd (search Demo.engine Demo.str_of_row "a" None None 10
                     (init "news" 200 (-1)))))
     = ["AAPL"; "MSFT"; "SYM"]
  /\ ~ (Py.len ["AAPL"; "MSFT"; "SYM"] <= -1).
Proof.
  split; [vm_compute; reflexivity|]. split; [vm_compute; by intros H|].
  split; [vm_compute; reflexivity|]. vm_compute. by intros H.
Qed.



Lemma split1_two c s a b :
  Py.split1 c s = [a; b] ->
  Py.contains c s = true /\ s = a +:+ String c b.
Proof.
  intros H. destruct (Py.contains c s) eqn:E.
  - destruct (split1_with _ _ E) as (a' & b' & H' & -> & _).
    rewrite H' in H. by injection H as -> ->.
  - by rewrite (split1_without _ _ E) in H.
Qed.

(** C5.  For an id that splits at its first colon into a symbol and a key
    value, the symbol being validated to the table [S]: when the primary
    key of [S] resolves to none, [fetch] raises [NoPrimaryKey], whatever
    the key value; when it resolves to a column and the query by key
    returns no row, [fetch] raises [NotFound]; when the query returns a
    row whose key value is not null, [fetch] returns the document of that
    row, with the id "S:value", which is the id given when [S] is the
    symbol as written and the value prints as the key value. *)
Theorem fetch_outcomes engine str_of_row identifier symbol raw_pk r S r1 :
  Py.split1 ":" identifier = [symbol; raw_pk] ->
  _validate_symbol engine symbol r = (Ok S, r1) ->
  (forall primary_key r2,
      _resolve_primary_key engine S r1 = (Ok primary_key, r2) ->
      truthy_opt primary_key = false ->
      fetch engine str_of_row identifier r = (Raise (NoPrimaryKey S), r2))
  /\ (forall pk r2,
         _resolve_primary_key engine S r1 = (Ok (Some pk), r2) ->
         pk <> EmptyString ->
         let q := SelectByKey S pk raw_pk in
         let r3 := set_sent (sent r2 ++ [q]) r2 in
         (answer_rows engine (length (sent r2)) q = Some [] ->
          fetch engine str_of_row identifier r
          = (Raise (NotFound identifier), r3))
         /\ (forall row rest,
                answer_rows engine (length (sent r2)) q = Some (row :: rest) ->
                row_get row pk <> VNone ->
                exists doc,
                  fetch engine str_of_row identifier r = (Ok doc, r3)
                  /\ doc_id doc = S +:+ ":" +:+ str (row_get row pk)
                  /\ md_raw_row (doc_metadata doc) = row
                  /\ md_symbol (doc_metadata doc) = S
                  /\ md_primary_key_column (doc_metadata doc) = pk
                  /\ (S = symbol -> str (row_get row pk) = raw_pk ->
                      doc_id doc = identifier))).
Proof.
  intros Hsplit Hv.
  destruct (split1_two _ _ _ _ Hsplit) as [Hc Hid].
  assert (Hf : fetch engine str_of_row identifier r
               = (primary_key ← _resolve_primary_key engine S;
                  if negb (truthy_opt primary_key)
                  then raise (NoPrimaryKey S)
                  else
                    let pk := default EmptyString primary_key in
                    rows ← _query_rows engine (SelectByKey S pk raw_pk);
                    match rows with
                    | [] => raise (NotFound identifier)
                    | row :: _ =>
                        let title :=
                          let t := _extract_title row in
                          if bool_decide (t = EmptyString)
                          then S +:+ " news item" else t in
                        let body := _extract_body str_of_row row in
                        id ← _document_id engine S row;
                        r ← self;
                        mret {| doc_id := id; doc_title := title;
                                doc_text := body;
                                doc_url := "mysql://" +:+ schema r +:+ "/"
                                           +:+ S +:+ "/" +:+ raw_pk;
                                doc_metadata :=
                                  {| md_symbol := S; md_schema := schema r;
                                     md_primary_key_column := pk;
                                     md_raw_row := row |} |}
                    end) r1).
  { unfold fetch. rewrite Hc, Hsplit. cbn [negb].
    by rewrite (bind_Ok _ _ _ _ _ Hv). }
  split.
  - intros primary_key r2 Hpk Hno. rewrite Hf, (bind_Ok _ _ _ _ _ Hpk).
    by rewrite Hno.
  - intros pk r2 Hpk Hne q r3.
    assert (Htr : truthy_opt (Some pk) = true).
    { simpl. by rewrite bool_decide_eq_false_2. }
    split.
    + intros Ha. rewrite Hf, (bind_Ok _ _ _ _ _ Hpk), Htr. cbn [negb default].
      assert (Hq : _query_rows engine q r2 = (Ok [], r3))
        by (by rewrite query_rows_eq, Ha).
      by rewrite (bind_Ok _ _ _ _ _ Hq).
    + intros row rest Ha Hrow.
      assert (Hdoc : _document_id engine S row r3
                     = (Ok (S +:+ ":" +:+ str (row_get row pk)), r3)).
      { rewrite document_id_eq.
        rewrite (resolve_primary_key_cached engine S r3 (Some pk)).
        - cbn zeta. cbn [from_option id]. rewrite Htr.
          destruct (row_get row pk); [by destruct Hrow|reflexivity..].
        - by apply resolve_primary_key_Ok in Hpk. }
      eexists. split.
      * rewrite Hf, (bind_Ok _ _ _ _ _ Hpk), Htr. cbn [negb default].
        assert (Hq : _query_rows engine q r2 = (Ok (row :: rest), r3))
          by (by rewrite query_rows_eq, Ha).
        rewrite (bind_Ok _ _ _ _ _ Hq). cbn zeta.
        rewrite (bind_Ok _ _ _ _ _ Hdoc). reflexivity.
      * cbn. repeat split. intros -> ->. by rewrite Hid.
Qed.

Lemma fetch_outcomes_witness :
  fst (fetch Demo.engine Demo.str_of_row "notes:7" Demo.repo)
  = Raise (NoPrimaryKey "notes")
  /\ fst (fetch Demo.engine Demo.str_of_row "SYM:124" Demo.repo)
     = Raise (NotFound "SYM:124")
  /\ exists doc,
       fst (fetch Demo.engine Demo.str_of_row "SYM:123" Demo.repo) = Ok doc
       /\ doc_id doc = "SYM:123"
       /\ md_raw_row (doc_metadata doc) = Demo.sym_row.
Proof.
  split; [|split].
  - destruct (_validate_symbol Demo.engine "notes" Demo.repo)
      as [[S|e] r1] eqn:Hv; [|vm_compute in Hv; discriminate Hv].
    destruct (fetch_outcomes Demo.engine Demo.str_of_row "notes:7" "notes" "7"
                Demo.repo S r1 ltac:(reflexivity) Hv) as [H _].
    destruct (_resolve_primary_key Demo.engine S r1) as [[pk|e] r2] eqn:Hpk.
    + rewrite (H pk r2 eq_refl).
      * vm_compute in Hv. injection Hv as <- _. reflexivity.
      * vm_compute in Hv. injection Hv as <- <-. vm_compute in Hpk.
        by injection Hpk as <- _.
    + vm_compute in Hv. injection Hv as <- <-. vm_compute in Hpk.
      discriminate Hpk.
  - destruct (_validate_symbol Demo.engine "SYM" Demo.repo)
      as [[S|e] r1] eqn:Hv; [|vm_compute in Hv; discriminate Hv].
    destruct (fetch_outcomes Demo.engine Demo.str_of_row "SYM:124" "SYM" "124"
                Demo.repo S r1 ltac:(reflexivity) Hv) as [_ H].
    assert (HS : S = "SYM") by (vm_compute in Hv; by injection Hv as <- _).
    destruct (_resolve_primary_key Demo.engine S r1) as [[[pk|]|e] r2] eqn:Hpk.
    + assert (Hid : pk = "id").
      { vm_compute in Hv. injection Hv as <- <-. vm_compute in Hpk.
        by injection Hpk as <- _. }
      destruct (H pk r2 eq_refl) as [H1 _]; [by rewrite Hid|].
      rewrite H1; [reflexivity|]. rewrite HS, Hid. vm_compute. reflexivity.
    + vm_compute in Hv. injection Hv as <- <-. vm_compute in Hpk.
      discriminate Hpk.
    + vm_compute in Hv. injection Hv as <- <-. vm_compute in Hpk.
      discriminate Hpk.
  - destruct (_validate_symbol Demo.engine "SYM" Demo.repo)
      as [[S|e] r1] eqn:Hv; [|vm_compute in Hv; discriminate Hv].
    destruct (fetch_outcomes Demo.engine Demo.str_of_row "SYM:123" "SYM" "123"
                Demo.repo S r1 ltac:(reflexivity) Hv) as [_ H].
    assert (HS : S = "SYM") by (vm_compute in Hv; by injection Hv as <- _).
    destruct (_resolve_primary_key Demo.engine S r1) as [[[pk|]|e] r2] eqn:Hpk.
    + assert (Hid : pk = "id").
      { vm_compute in Hv. injection Hv as <- <-. vm_compute in Hpk.
        by injection Hpk as <- _. }
      destruct (H pk r2 eq_refl) as [_ H2]; [by rewrite Hid|].
      destruct (H2 Demo.sym_row []) as (doc & Hd & Hdid & Hrow & _ & _ & Hsame).
      * rewrite HS, Hid. vm_compute. reflexivity.
      * rewrite Hid. vm_compute. discriminate.
      * exists doc. rewrite Hd. split; [reflexivity|]. split; [|exact Hrow].
        apply Hsame; [exact HS|]. rewrite Hid. vm_compute. reflexivity.
    + vm_compute in Hv. injection Hv as <- <-. vm_compute in Hpk.
      discriminate Hpk.
    + vm_compute in Hv. injection Hv as <- <-. vm_compute in Hpk.
      discriminate Hpk.
Defined.

(** * Further properties of the repository and of the modules around it *)

(** ** What every method keeps *)

Lemma kept_refl r : kept r r.
Proof.
  repeat split; try done. exists []. by rewrite app_nil_r.
Qed.

Lemma kept_trans r1 r2 r3 : kept r1 r2 -> kept r2 r3 -> kept r1 r3.
Proof.
  intros ((S1 & S1' & S1'') & (n1 & E1) & I1 & C1 & K1 & Q1)
         ((S2 & S2' & S2'') & (n2 & E2) & I2 & C2 & K2 & Q2).
  split; [repeat split; congruence|].
  split; [exists (n1 ++ n2); by rewrite E2, E1, app_assoc|].
  split; [|split; [|split]]; auto.
  intros Hne. destruct (I1 Hne) as [Ha Hb].
  destruct I2 as [Hc Hd]; [by rewrite Ha|]. split; congruence.
Qed.

Lemma kept_sent r q : kept r (set_sent (sent r ++ [q]) r).
Proof. repeat split; try done. by exists [q]. Qed.

Lemma always_ret {A} R (a : A) : Reflexive R -> always R (mret a).
Proof. intros HR r res r' [= <- <-]. apply HR. Qed.

Lemma always_raise {A} R e : Reflexive R -> always R (raise (A:=A) e).
Proof. intros HR r res r' [= <- <-]. apply HR. Qed.

Lemma always_self R : Reflexive R -> always R self.
Proof. intros HR r res r' [= <- <-]. apply HR. Qed.

Lemma always_bind {A B} R (c : M A) (k : A -> M B) :
  Transitive R -> always R c -> (forall a, always R (k a)) ->
  always R (c ≫= k).
Proof.
  intros HR Hc Hk r res r' H.
  apply bind_inv in H as [(a & r1 & H1 & H2)|(e & H1 & ->)].
  - eapply HR; [by eapply Hc | by eapply Hk].
  - by eapply Hc.
Qed.

Lemma always_mapM {A B} R (f : A -> M B) (l : list A) :
  Reflexive R -> Transitive R ->
  (forall a, always R (f a)) -> always R (mapM f l).
Proof.
  intros HR HT Hf. induction l as [|x l IH]; simpl.
  - by apply always_ret.
  - apply always_bind; [done..|]. intros y.
    apply always_bind; [done..|]. intros ys. by apply always_ret.
Qed.

Lemma always_query {A} q (answer : nat -> option A) :
  always kept (_query q answer).
Proof.
  intros r res r' H. apply query_inv in H as [-> _]. apply kept_sent.
Qed.

Ltac kept_step :=
  first
    [ apply always_ret; exact kept_refl | apply always_raise; exact kept_refl
    | apply always_self; exact kept_refl
    | apply always_query
    | apply always_bind; [exact kept_trans | | intros ?]
    | match goal with
      | |- always _ (match ?x with _ => _ end) => destruct x
      | |- always _ (if ?x then _ else _) => destruct x
      end ].

Section Kept.
Context (engine : Engine) (str_of_row : Row -> string).

Lemma kept_refresh : always kept (_refresh_symbols_cache engine).
Proof.
  intros r res r' H.
  apply refresh_cases in H
    as [(_ & _ & ->)|[(_ & _ & _ & ->)|(names & He & _ & _ & ->)]].
  - apply kept_refl.
  - apply kept_sent.
  - repeat split; try done. by eexists.
Qed.

Lemma resolve_columns_cases symbol r res r' :
  _resolve_columns engine symbol r = (res, r') ->
  (exists c, _columns_cache r !! symbol = Some c /\ res = Ok c /\ r' = r)
  \/ (_columns_cache r !! symbol = None
      /\ answer_columns engine (length (sent r)) (schema r) symbol = None
      /\ res = Raise QueryFailed
      /\ r' = set_sent (sent r ++ [SelectColumns (schema r) symbol]) r)
  \/ (exists c,
        _columns_cache r !! symbol = None
        /\ answer_columns engine (length (sent r)) (schema r) symbol = Some c
        /\ res = Ok c
        /\ r' = set_columns_cache (<[symbol := c]> (_columns_cache r))
                  (set_sent (sent r ++ [SelectColumns (schema r) symbol]) r)).
Proof.
  intros H. destruct (_columns_cache r !! symbol) as [c|] eqn:Hc.
  - rewrite (resolve_columns_cached _ _ _ _ Hc) in H. injection H as <- <-.
    left. by exists c.
  - destruct (answer_columns engine (length (sent r)) (schema r) symbol)
      as [c|] eqn:Ha.
    + rewrite (resolve_columns_ok _ _ _ _ Hc Ha) in H. injection H as <- <-.
      right; right. by exists c.
    + rewrite (resolve_columns_fail _ _ _ Hc Ha) in H. injection H as <- <-.
      right; left. done.
Qed.

Lemma resolve_primary_key_cases symbol r res r' :
  _resolve_primary_key engine symbol r = (res, r') ->
  (exists k, _primary_key_cache r !! symbol = Some k /\ res = Ok k /\ r' = r)
  \/ (_primary_key_cache r !! symbol = None
      /\ answer_primary_key engine (length (sent r)) (schema r) symbol = None
      /\ res = Raise QueryFailed
      /\ r' = set_sent (sent r ++ [SelectPrimaryKey (schema r) symbol]) r)
  \/ (exists rows,
        _primary_key_cache r !! symbol = None
        /\ answer_primary_key engine (length (sent r)) (schema r) symbol
           = Some rows
        /\ res = Ok (head rows)
        /\ r' = set_primary_key_cache
                  (<[symbol := head rows]> (_primary_key_cache r))
                  (set_sent (sent r ++ [SelectPrimaryKey (schema r) symbol])
                     r)).
Proof.
  intros H. destruct (_primary_key_cache r !! symbol) as [c|] eqn:Hc.
  - rewrite (resolve_primary_key_cached _ _ _ _ Hc) in H.
    injection H as <- <-. left. by exists c.
  - destruct (answer_primary_key engine (length (sent r)) (schema r) symbol)
      as [c|] eqn:Ha.
    + rewrite (resolve_primary_key_ok _ _ _ _ Hc Ha) in H.
      injection H as <- <-. right; right. by exists c.
    + rewrite (resolve_primary_key_fail _ _ _ Hc Ha) in H.
      injection H as <- <-. right; left. done.
Qed.

Lemma kept_resolve_columns symbol : always kept (_resolve_columns engine symbol).
Proof.
  intros r res r' H.
  apply resolve_columns_cases in H
    as [(c & _ & _ & ->)|[(_ & _ & _ & ->)|(c & Hc & _ & _ & ->)]].
  - apply kept_refl.
  - apply kept_sent.
  - repeat split; try done; [by eexists|].
    intros s c' Hs. simpl. rewrite lookup_insert_ne; [done|].
    intros ->. by rewrite Hc in Hs.
Qed.

Lemma kept_resolve_primary_key symbol :
  always kept (_resolve_primary_key engine symbol).
Proof.
  intros r res r' H.
  apply resolve_primary_key_cases in H
    as [(c & _ & _ & ->)|[(_ & _ & _ & ->)|(c & Hc & _ & _ & ->)]].
  - apply kept_refl.
  - apply kept_sent.
  - repeat split; try done; [by eexists|].
    intros s c' Hs. simpl. rewrite lookup_insert_ne; [done|].
    intros ->. by rewrite Hc in Hs.
Qed.

Lemma kept_validate_symbol symbol : always kept (_validate_symbol engine symbol).
Proof.
  unfold _validate_symbol. kept_step; [apply kept_refresh|].
  repeat kept_step.
Qed.

Lemma kept_safe_limit n : always kept (_safe_limit n).
Proof. unfold _safe_limit. repeat kept_step. Qed.

Lemma kept_validate_date v : always kept (_validate_date v).
Proof. unfold _validate_date. repeat kept_step. Qed.

Lemma kept_resolve_searchable_columns symbol :
  always kept (_resolve_searchable_columns engine symbol).
Proof.
  unfold _resolve_searchable_columns.
  kept_step; [apply kept_resolve_columns|]. repeat kept_step.
Qed.

Lemma kept_resolve_date_column symbol :
  always kept (_resolve_date_column engine symbol).
Proof.
  unfold _resolve_date_column.
  kept_step; [apply kept_resolve_columns|]. repeat kept_step.
Qed.

Lemma kept_document_id symbol row : always kept (_document_id engine symbol row).
Proof.
  unfold _document_id. kept_step; [apply kept_resolve_primary_key|].
  repeat kept_step.
Qed.

Lemma kept_augment_row symbol row : always kept (_augment_row engine symbol row).
Proof.
  unfold _augment_row. kept_step; [apply kept_document_id|]. repeat kept_step.
Qed.

Lemma kept_search_result symbol row :
  always kept (_search_result engine str_of_row symbol row).
Proof.
  unfold _search_result. kept_step; [apply kept_document_id|].
  repeat kept_step.
Qed.

Lemma kept_resolve_target_symbols symbols :
  always kept (_resolve_target_symbols engine symbols).
Proof.
  unfold _resolve_target_symbols. kept_step; [apply kept_refresh|].
  kept_step; [kept_step|].
  destruct symbols as [[|x l]|]; [kept_step| |kept_step].
  kept_step; [|repeat kept_step].
  apply always_mapM; [exact kept_refl|exact kept_trans|]. intros. apply kept_validate_symbol.
Qed.

Lemma kept_list_symbols limit : always kept (list_symbols engine limit).
Proof.
  unfold list_symbols. kept_step; [apply kept_refresh|].
  kept_step; [kept_step|]. destruct limit; [|kept_step].
  kept_step; [apply kept_safe_limit|]. kept_step.
Qed.

Lemma kept_news_of_symbol S date_from limit :
  always kept (news_of_symbol engine S date_from limit).
Proof.
  unfold news_of_symbol. kept_step; [apply kept_safe_limit|].
  kept_step; [apply kept_resolve_date_column|].
  kept_step.
  { destruct (_ && _); [|repeat kept_step].
    kept_step; [apply kept_validate_date|]. kept_step. }
  destruct a1. kept_step; [apply always_query|].
  apply always_mapM; [exact kept_refl|exact kept_trans|]. intros. apply kept_augment_row.
Qed.

Lemma get_symbol_news_eq symbol date_from limit :
  get_symbol_news engine symbol date_from limit
  = (_validate_symbol engine symbol
       ≫= fun S => news_of_symbol engine S date_from limit).
Proof. reflexivity. Qed.

Lemma kept_get_symbol_news symbol date_from limit :
  always kept (get_symbol_news engine symbol date_from limit).
Proof.
  rewrite get_symbol_news_eq. kept_step; [apply kept_validate_symbol|].
  apply kept_news_of_symbol.
Qed.

Lemma kept_search_loop cleaned_query date_from row_limit targets results :
  always kept (search_loop engine str_of_row cleaned_query date_from
                 row_limit targets results).
Proof.
  revert results. induction targets as [|symbol rest IH]; intros results;
    simpl; [kept_step|].
  destruct (_ <=? _); [kept_step|].
  kept_step; [apply kept_resolve_searchable_columns|].
  destruct a as [|col cols]; [apply IH|].
  kept_step; [apply kept_resolve_date_column|].
  kept_step; [kept_step|]. kept_step; [apply always_query|].
  kept_step; [|apply IH].
  apply always_mapM; [exact kept_refl|exact kept_trans|]. intros. apply kept_search_result.
Qed.

Lemma kept_search query symbols date_from limit :
  always kept (search engine str_of_row query symbols date_from limit).
Proof.
  unfold search. destruct (bool_decide _); [kept_step|].
  kept_step; [apply kept_safe_limit|].
  kept_step; [apply kept_resolve_target_symbols|].
  kept_step.
  { destruct (truthy_opt _); [apply kept_validate_date|kept_step]. }
  kept_step; [apply kept_search_loop|]. kept_step.
Qed.

Lemma kept_fetch_of_symbol identifier S raw_pk :
  always kept (fetch_of_symbol engine str_of_row identifier S raw_pk).
Proof.
  unfold fetch_of_symbol. kept_step; [apply kept_resolve_primary_key|].
  destruct (negb _); [kept_step|].
  kept_step; [apply always_query|].
  destruct a0; [kept_step|].
  kept_step; [apply kept_document_id|]. repeat kept_step.
Qed.

Lemma fetch_eq identifier :
  fetch engine str_of_row identifier
  = if negb (Py.contains ":" identifier) then raise MalformedId
    else match Py.split1 ":" identifier with
         | [symbol; raw_pk] =>
             _validate_symbol engine symbol
               ≫= fun S => fetch_of_symbol engine str_of_row identifier S raw_pk
         | _ => raise (PythonError "ValueError: unpack")
         end.
Proof. reflexivity. Qed.

Lemma kept_fetch identifier : always kept (fetch engine str_of_row identifier).
Proof.
  rewrite fetch_eq. destruct (negb _); [kept_step|].
  destruct (Py.split1 _ _) as [|a [|b [|? ?]]]; try kept_step.
  - apply kept_validate_symbol.
  - apply kept_fetch_of_symbol.
Qed.
End Kept.

(** ** The inventory and the targets *)

Lemma Sorted_take {A} (R : relation A) n (l : list A) :
  Sorted R l -> Sorted R (take n l).
Proof.
  intros H. revert n. induction H as [|x l Hs IH Hx]; intros [|n]; simpl;
    try by constructor.
  constructor; [apply IH|]. destruct Hx; destruct n; simpl; by constructor.
Qed.

Lemma Sorted_slice_to {A} (R : relation A) n (l : list A) :
  Sorted R l -> Sorted R (Py.slice_to n l).
Proof. intros H. unfold Py.slice_to. destruct (n <? 0); by apply Sorted_take. Qed.

Lemma NoDup_slice_to {A} n (l : list A) : NoDup l -> NoDup (Py.slice_to n l).
Proof. intros H. eapply sublist_NoDup; eauto using slice_to_sublist. Qed.

Section Targets.
Context (engine : Engine).

Lemma list_symbols_inv limit r names r' :
  list_symbols engine limit r = (Ok names, r') ->
  _refresh_symbols_cache engine r = (Ok tt, r')
  /\ match limit with
     | None => names = Py.sorted (_symbols_cache r')
     | Some n =>
         0 < n
         /\ names = Py.slice_to (Z.min n (max_rows r'))
                      (Py.sorted (_symbols_cache r'))
     end.
Proof.
  intros H. unfold list_symbols in H.
  apply bind_inv_Ok in H as ([] & r0 & Hr & H).
  unfold mbind at 1, M_bind, self in H. destruct limit as [n|].
  - apply bind_inv_Ok in H as (k & r1 & Hl & [= <- <-]).
    by apply safe_limit_Ok in Hl as (? & -> & ->).
  - by injection H as <- <-.
Qed.

(** The validated names of a list: each is a table of the inventory at
    the end. *)
Lemma mapM_validate_in_inventory symbols r validated r1 :
  consistent r ->
  mapM (_validate_symbol engine) symbols r = (Ok validated, r1) ->
  kept r r1 /\ forall S, S ∈ validated -> S ∈ _symbols_cache r1.
Proof.
  revert r validated. induction symbols as [|x l IH]; intros r validated Hc H;
    simpl in H.
  - injection H as <- <-. split; [apply kept_refl|]. by intros S ?%elem_of_nil.
  - apply bind_inv_Ok in H as (S & r0 & Hv & H).
    apply bind_inv_Ok in H as (rest & r2 & Hrest & [= <- <-]).
    pose proof (kept_validate_symbol engine x _ _ _ Hv) as Hk0.
    destruct (validate_symbol_in_inventory _ _ _ _ _ Hc Hv) as (HS & _ & _).
    assert (Hc0 : consistent r0) by (by apply Hk0).
    destruct (IH _ _ Hc0 Hrest) as [Hk Hin].
    split; [by eapply kept_trans|].
    intros T [->|HT]%elem_of_cons; [|by apply Hin].
    destruct Hk as (_ & _ & Hinv & _).
    destruct Hinv as [-> _]; [|done]. intros He. by rewrite He in HS.
Qed.

Lemma resolve_targets_in_inventory symbols r targets r1 :
  consistent r ->
  _resolve_target_symbols engine symbols r = (Ok targets, r1) ->
  NoDup targets /\ forall t, t ∈ targets -> t ∈ _symbols_cache r1.
Proof.
  intros Hc H.
  assert (Hdef : symbols = None \/ symbols = Some [] ->
                 NoDup targets /\ forall t, t ∈ targets -> t ∈ _symbols_cache r1).
  { intros Hd. apply resolve_targets_default in H as [_ ->]; [|done]. split.
    - apply NoDup_slice_to, sorted_NoDup.
    - intros t Ht%slice_to_elem. by apply sorted_elem. }
  destruct symbols as [[|x l]|]; [apply Hdef; by right| |apply Hdef; by left].
  apply resolve_targets_explicit in H
    as (r0 & validated & Hr & Hv & ->); [|done].
  split; [apply NoDup_slice_to, fromkeys_NoDup|].
  intros t Ht%slice_to_elem. rewrite fromkeys_elem in Ht.
  pose proof (refresh_consistent _ _ _ _ Hc Hr) as Hc0.
  exact (proj2 (mapM_validate_in_inventory _ _ _ _ Hc0 Hv) t Ht).
Qed.
End Targets.

(** X1.  [list_symbols] returns names of the inventory in ascending order
    and without repetition: all of them when no limit is given, and with
    a limit [n] the slice [[:min(n, max_rows)]] of the sorted inventory,
    hence at most [min(n, max_rows)] names when [max_rows] is not
    negative. *)
Theorem list_symbols_sorted engine limit r names r' :
  list_symbols engine limit r = (Ok names, r') ->
  Sorted Py.str_le names
  /\ NoDup names
  /\ (forall x, x ∈ names -> x ∈ _symbols_cache r')
  /\ (limit = None -> forall x, x ∈ _symbols_cache r' -> x ∈ names)
  /\ (forall n, limit = Some n ->
        0 < n
        /\ names = Py.slice_to (Z.min n (max_rows r))
                     (Py.sorted (_symbols_cache r'))
        /\ (0 <= max_rows r -> Py.len names <= Z.min n (max_rows r))).
Proof.
  intros H. pose proof (kept_list_symbols engine _ _ _ _ H) as ((_ & Hm & _) & _).
  apply list_symbols_inv in H as [_ H]. destruct limit as [n|].
  - destruct H as [Hn ->]. rewrite Hm.
    split; [apply Sorted_slice_to, sorted_Sorted|].
    split; [apply NoDup_slice_to, sorted_NoDup|].
    split; [intros x Hx%slice_to_elem; by apply sorted_elem|].
    split; [done|]. intros ? [= <-]. repeat split; [done|].
    intros Hmax. apply len_slice_to. lia.
  - subst names. split; [apply sorted_Sorted|].
    split; [apply sorted_NoDup|].
    split; [intros x; apply sorted_elem|].
    split; [intros _ x; apply sorted_elem|done].
Qed.

Lemma list_symbols_sorted_witness :
  fst (list_symbols Demo.engine (Some 3) Demo.repo)
  = Ok ["AAPL"; "MSFT"; "SYM"]
  /\ Sorted Py.str_le ["AAPL"; "MSFT"; "SYM"].
Proof.
  destruct (list_symbols Demo.engine (Some 3) Demo.repo) as [[names|e] r']
    eqn:E; [|vm_compute in E; discriminate E].
  destruct (list_symbols_sorted _ _ _ _ _ E) as (Hs & _).
  assert (names = ["AAPL"; "MSFT"; "SYM"]) as ->
    by (vm_compute in E; by injection E as <- _).
  split; [reflexivity|exact Hs].
Defined.

(** X2.  No operation drops or changes what is cached: after
    [list_symbols], [get_symbol_news], [search] or [fetch], whatever the
    outcome, the settings are the same, the statements sent before are
    still the first ones sent, a discovered inventory and its lookup table
    are the same, every cached column list and primary key is the same,
    and the two inventory caches agree if they did. *)
Theorem operations_keep_caches engine str_of_row r r' :
  (exists limit res, list_symbols engine limit r = (res, r'))
  \/ (exists symbol date_from limit res,
        get_symbol_news engine symbol date_from limit r = (res, r'))
  \/ (exists query symbols date_from limit res,
        search engine str_of_row query symbols date_from limit r = (res, r'))
  \/ (exists identifier res,
        fetch engine str_of_row identifier r = (res, r')) ->
  same_settings r r'
  /\ (exists new, sent r' = sent r ++ new)
  /\ (_symbols_cache r <> ∅ ->
      _symbols_cache r' = _symbols_cache r
      /\ _symbol_lookup_cache r' = _symbol_lookup_cache r)
  /\ (forall s c, _columns_cache r !! s = Some c ->
                  _columns_cache r' !! s = Some c)
  /\ (forall s k, _primary_key_cache r !! s = Some k ->
                  _primary_key_cache r' !! s = Some k)
  /\ (consistent r -> consistent r').
Proof.
  intros [(limit & res & H)|[(symbol & date_from & limit & res & H)
         |[(query & symbols & date_from & limit & res & H)
          |(identifier & res & H)]]].
  - by eapply kept_list_symbols.
  - by eapply kept_get_symbol_news.
  - by eapply kept_search.
  - by eapply kept_fetch.
Qed.

Lemma operations_keep_caches_witness :
  let r := snd (fetch Demo.engine Demo.str_of_row "AAPL:1" Demo.repo) in
  let r' := snd (search Demo.engine Demo.str_of_row "a" None (Some "x") 5 r) in
  _primary_key_cache r !! "AAPL" = Some (Some "id")
  /\ _primary_key_cache r' !! "AAPL" = Some (Some "id")
  /\ _symbols_cache r' = _symbols_cache r.
Proof.
  intros r r'.
  assert (Hk : _primary_key_cache r !! "AAPL" = Some (Some "id"))
    by (vm_compute; reflexivity).
  destruct (operations_keep_caches Demo.engine Demo.str_of_row r r')
    as (_ & _ & Hi & _ & Hp & _).
  { right; right; left. exists "a", None, (Some "x"), 5.
    eexists. apply surjective_pairing. }
  split; [exact Hk|]. split; [by apply Hp|].
  apply Hi. vm_compute. discriminate.
Defined.

(** X3.  Metadata is looked up once: when [_resolve_columns] (or
    [_resolve_primary_key]) has returned for a symbol, then after any
    further calls that keep the caches, and whatever the engine would
    answer by then, the same call returns the same columns (the same key,
    also when it is "no key") and sends nothing. *)
Theorem metadata_memoized engine engine' symbol r r1 r2 :
  kept r1 r2 ->
  (forall columns,
      _resolve_columns engine symbol r = (Ok columns, r1) ->
      _resolve_columns engine' symbol r2 = (Ok columns, r2))
  /\ (forall primary_key,
         _resolve_primary_key engine symbol r = (Ok primary_key, r1) ->
         _resolve_primary_key engine' symbol r2 = (Ok primary_key, r2)).
Proof.
  intros (_ & _ & _ & Hc & Hk & _). split.
  - intros columns H. apply resolve_columns_Ok in H.
    by apply resolve_columns_cached, Hc.
  - intros pk H. apply resolve_primary_key_Ok in H.
    by apply resolve_primary_key_cached, Hk.
Qed.

Lemma metadata_memoized_witness :
  let r1 := snd (_resolve_primary_key Demo.engine "notes" Demo.repo) in
  let r2 := snd (search Demo.engine Demo.str_of_row "a" None None 5 r1) in
  _resolve_primary_key Demo.clash "notes" r2 = (Ok None, r2).
Proof.
  intros r1 r2.
  assert (Hk : kept r1 r2).
  { apply (kept_search Demo.engine Demo.str_of_row "a" None None 5 r1
             (fst (search Demo.engine Demo.str_of_row "a" None None 5 r1))).
    apply surjective_pairing. }
  destruct (metadata_memoized Demo.engine Demo.clash "notes" Demo.repo r1 r2 Hk)
    as [_ H].
  apply H. vm_compute. reflexivity.
Defined.

(** X4.  The inventory is discovered once when it is not empty, and asked
    for again at every call while it is empty: after an answer with no
    table the cache is still empty and the next call sends the statement
    again; after an answer with a table the next call sends nothing. *)
Theorem empty_inventory_not_cached engine r names :
  _symbols_cache r = ∅ ->
  answer_tables engine (length (sent r)) (schema r) = Some names ->
  exists r1,
    _refresh_symbols_cache engine r = (Ok tt, r1)
    /\ sent r1 = sent r ++ [SelectTables (schema r)]
    /\ _symbols_cache r1 = list_to_set names
    /\ (names = [] ->
        _symbols_cache r1 = ∅
        /\ sent (snd (_refresh_symbols_cache engine r1))
           = sent r1 ++ [SelectTables (schema r)])
    /\ (names <> [] -> _refresh_symbols_cache engine r1 = (Ok tt, r1)).
Proof.
  intros Hc Ha. eexists. split; [by apply refresh_cold_ok|].
  split; [done|]. split; [done|]. split.
  - intros ->. split; [done|].
    set (r1 := set_symbol_lookup_cache _ _).
    assert (Hc1 : _symbols_cache r1 = ∅) by done.
    destruct (answer_tables engine (length (sent r1)) (schema r1))
      as [names|] eqn:E.
    + by rewrite (refresh_cold_ok _ _ _ Hc1 E).
    + by rewrite (refresh_cold_fail _ _ Hc1 E).
  - intros Hne. apply refresh_warm. simpl.
    destruct names as [|x l]; [done|]. intros He.
    assert (Hx : x ∈ (list_to_set (x :: l) : gset string))
      by (apply elem_of_list_to_set; left).
    rewrite He in Hx. by apply not_elem_of_empty in Hx.
Qed.

Lemma empty_inventory_not_cached_witness :
  let void := {| answer_tables := fun _ _ => Some [];
                 answer_columns := fun _ _ _ => None;
                 answer_primary_key := fun _ _ _ => None;
                 answer_rows := fun _ _ => None |} in
  sent (snd (list_symbols void None
               (snd (list_symbols void None Demo.repo))))
  = [SelectTables "news"; SelectTables "news"].
Proof.
  intros void.
  destruct (empty_inventory_not_cached void Demo.repo [] eq_refl eq_refl)
    as (r1 & Hr & _ & _ & _ & _).
  vm_compute in Hr. injection Hr as <-. vm_compute. reflexivity.
Defined.

(** X5.  What [_validate_symbol] returns is a table of the inventory, and
    it is the input up to outer whitespace and case: either the trimmed
    input itself, or, when the trimmed input is not a table name, a table
    whose lowered name is the lowered trimmed input. *)
Theorem validated_symbol_is_table engine symbol r S r1 :
  consistent r ->
  _validate_symbol engine symbol r = (Ok S, r1) ->
  S ∈ _symbols_cache r1
  /\ Py.lower S = Py.lower (Py.strip symbol)
  /\ (Py.strip symbol ∈ _symbols_cache r1 -> S = Py.strip symbol).
Proof.
  intros Hc H.
  destruct (validate_symbol_in_inventory _ _ _ _ _ Hc H) as (HS & Hr & Hl).
  split; [done|]. split; [done|]. intros Hin.
  rewrite (validate_symbol_exact _ _ _ _ Hr Hin) in H. by injection H as <-.
Qed.

Lemma validated_symbol_is_table_witness :
  exists S r1,
    _validate_symbol Demo.engine " Notes " Demo.repo = (Ok S, r1)
    /\ S ∈ _symbols_cache r1 /\ S = "notes".
Proof.
  destruct (_validate_symbol Demo.engine " Notes " Demo.repo)
    as [[S|e] r1] eqn:E; [|vm_compute in E; discriminate E].
  exists S, r1. split; [reflexivity|].
  destruct (validated_symbol_is_table _ _ _ _ _ (consistent_init _ _ _) E)
    as (H & _ & _).
  split; [exact H|]. vm_compute in E. by injection E as <- _.
Defined.

(** ** Only tables of the inventory are named *)

Section Named.
Context (engine : Engine) (str_of_row : Row -> string).

Lemma sends_news_of_symbol (P : Statement -> Prop) S date_from limit :
  (forall q, table_named q = Some S -> P q) ->
  sends P (news_of_symbol engine S date_from limit).
Proof.
  intros HP. unfold news_of_symbol.
  apply sends_bind; [apply sends_safe_limit|]. intros row_limit.
  apply sends_bind; [apply sends_resolve_date_column; intros; by apply HP|].
  intros dc. apply sends_bind.
  { destruct (_ && _); [|destruct (truthy_opt dc); apply sends_ret].
    apply sends_bind; [apply sends_validate_date|]. intros. apply sends_ret. }
  intros [w o]. apply sends_bind.
  { unfold _query_rows. apply sends_query. by apply HP. }
  intros rows. apply sends_mapM. intros row _.
  apply sends_augment_row. intros. by apply HP.
Qed.

Lemma sends_fetch_of_symbol (P : Statement -> Prop) identifier S raw_pk :
  (forall q, table_named q = Some S -> P q) ->
  sends P (fetch_of_symbol engine str_of_row identifier S raw_pk).
Proof.
  intros HP. unfold fetch_of_symbol.
  apply sends_bind; [apply sends_resolve_primary_key; intros; by apply HP|].
  intros pk. destruct (negb _); [apply sends_raise|].
  apply sends_bind.
  { unfold _query_rows. apply sends_query. by apply HP. }
  intros [|row rows]; [apply sends_raise|].
  apply sends_bind; [apply sends_document_id; intros; by apply HP|].
  intros id. apply sends_bind; [apply sends_self|]. intros. apply sends_ret.
Qed.

(** After a validated symbol [S], a computation that names only [S] and
    keeps the caches has named only tables of the final inventory. *)
Lemma named_after_validation {A} symbol (k : string -> M A) r res r' :
  consistent r ->
  (forall S, sends (fun q => forall t, table_named q = Some t -> t = S) (k S)) ->
  (forall S, always kept (k S)) ->
  (_validate_symbol engine symbol ≫= k) r = (res, r') ->
  grows (fun q => forall t, table_named q = Some t -> t ∈ _symbols_cache r')
        r r'.
Proof.
  intros Hc Hs Hk H.
  set (P := fun q => forall t, table_named q = Some t -> t ∈ _symbols_cache r').
  assert (HP : forall s, P (SelectTables s)) by (by intros s t).
  apply bind_inv in H as [(S & r1 & Hv & H)|(e & Hv & ->)].
  - destruct (validate_symbol_in_inventory _ _ _ _ _ Hc Hv) as (HS & _ & _).
    pose proof (Hk S _ _ _ H) as (_ & _ & Hi & _).
    destruct Hi as [Hi _]; [intros He; by rewrite He in HS|].
    eapply grows_trans.
    + by apply (sends_validate_symbol engine P symbol HP) in Hv.
    + apply Hs in H. eapply grows_mono; [|exact H].
      intros q Hq t Ht. rewrite (Hq t Ht), Hi. done.
  - by apply (sends_validate_symbol engine P symbol HP) in Hv.
Qed.

Lemma search_cases query symbols date_from limit r res r' :
  search engine str_of_row query symbols date_from limit r = (res, r') ->
  r' = r
  \/ (exists e, _resolve_target_symbols engine symbols r = (Raise e, r'))
  \/ (exists targets r1,
        _resolve_target_symbols engine symbols r = (Ok targets, r1)
        /\ kept r1 r'
        /\ grows (fun q => forall t, table_named q = Some t -> t ∈ targets)
                 r1 r').
Proof.
  intros H. unfold search in H.
  destruct (bool_decide _); [left; by injection H|].
  apply bind_inv in H as [(row_limit & r0 & Hl & H)|(e & Hl & ->)]; cycle 1.
  { left. rewrite safe_limit_eq in Hl. by destruct (_ <=? _); injection Hl. }
  apply safe_limit_Ok in Hl as (_ & -> & ->).
  apply bind_inv in H as [(targets & r1 & Ht & H)|(e & Ht & ->)]; cycle 1.
  { right; left. by exists e. }
  right; right. exists targets, r1. split; [done|].
  assert (HP : forall q t, table_named q = Some t -> t ∈ targets ->
                 forall t', table_named q = Some t' -> t' ∈ targets).
  { intros q t Hq Hin t' Hq'. rewrite Hq in Hq'. by injection Hq' as <-. }
  apply bind_inv in H as [([] & r2 & Hd & H)|(e & Hd & ->)]; cycle 1.
  { assert (r' = r1) as ->; [|split; [apply kept_refl|apply grows_refl]].
    destruct (truthy_opt date_from);
      [by apply validate_date_state in Hd | by injection Hd]. }
  assert (r2 = r1) as ->.
  { destruct (truthy_opt date_from);
      [by apply validate_date_state in Hd | by injection Hd]. }
  apply bind_inv in H as [(out & r3 & Hloop & H)|(e & Hloop & ->)].
  - injection H as <- <-. split; [by eapply kept_search_loop|].
    eapply sends_search_loop; [exact HP|exact Hloop].
  - split; [by eapply kept_search_loop|].
    eapply sends_search_loop; [exact HP|exact Hloop].
Qed.

Lemma search_names_inventory query symbols date_from limit r res r' :
  consistent r ->
  search engine str_of_row query symbols date_from limit r = (res, r') ->
  grows (fun q => forall t, table_named q = Some t -> t ∈ _symbols_cache r')
        r r'.
Proof.
  intros Hc H.
  set (P := fun q => forall t, table_named q = Some t -> t ∈ _symbols_cache r').
  assert (HP : forall s, P (SelectTables s)) by (by intros s t).
  apply search_cases in H
    as [->|[(e & Ht)|(targets & r1 & Ht & Hk & Hg)]].
  - apply grows_refl.
  - by apply (sends_resolve_target_symbols engine P symbols HP) in Ht.
  - destruct (resolve_targets_in_inventory _ _ _ _ _ Hc Ht) as [_ Hin].
    eapply grows_trans.
    + by apply (sends_resolve_target_symbols engine P symbols HP) in Ht.
    + eapply grows_mono; [|exact Hg]. intros q Hq t Hn.
      pose proof (Hin t (Hq t Hn)) as Hr1.
      destruct Hk as (_ & _ & Hi & _).
      destruct Hi as [-> _]; [intros He; by rewrite He in Hr1|done].
Qed.
End Named.

(** X6.  Only tables of the inventory are named in what the operations
    send: whatever the input and the outcome, every statement sent by
    [get_symbol_news], [fetch] or [search] that names a table (to read its
    rows, its columns or its primary key) names a table of the inventory
    as cached at the end of the call. *)
Theorem only_inventory_tables_named engine str_of_row r r' :
  consistent r ->
  (exists symbol date_from limit res,
      get_symbol_news engine symbol date_from limit r = (res, r'))
  \/ (exists query symbols date_from limit res,
        search engine str_of_row query symbols date_from limit r = (res, r'))
  \/ (exists identifier res,
        fetch engine str_of_row identifier r = (res, r')) ->
  exists new,
    sent r' = sent r ++ new
    /\ forall q t, q ∈ new -> table_named q = Some t -> t ∈ _symbols_cache r'.
Proof.
  intros Hc H.
  assert (HS : forall S q, table_named q = Some S ->
                 forall t, table_named q = Some t -> t = S).
  { intros S q Hq t Hq'. rewrite Hq in Hq'. by injection Hq'. }
  assert (Hg : grows (fun q => forall t, table_named q = Some t ->
                                         t ∈ _symbols_cache r') r r').
  { destruct H as [(symbol & date_from & limit & res & H)
                  |[(query & symbols & date_from & limit & res & H)
                   |(identifier & res & H)]].
    - rewrite get_symbol_news_eq in H.
      eapply named_after_validation; [done| | |exact H].
      + intros S. apply sends_news_of_symbol. apply HS.
      + intros S. apply kept_news_of_symbol.
    - by eapply search_names_inventory.
    - rewrite fetch_eq in H. destruct (negb _).
      { injection H as <- <-. apply grows_refl. }
      destruct (Py.split1 _ _) as [|a [|b [|? ?]]];
        try (injection H as <- <-; apply grows_refl).
      eapply named_after_validation; [done| | |exact H].
      + intros S. apply sends_fetch_of_symbol. apply HS.
      + intros S. apply kept_fetch_of_symbol. }
  destruct Hg as (new & E & F & _). exists new. split; [done|].
  rewrite Forall_forall in F. intros q t Hq. by apply F.
Qed.

Lemma only_inventory_tables_named_witness :
  let r' := snd (fetch Demo.engine Demo.str_of_row
                   "aapl; DROP TABLE x:1" Demo.repo) in
  exists new,
    sent r' = sent Demo.repo ++ new
    /\ forall q t, q ∈ new -> table_named q = Some t -> t ∈ _symbols_cache r'.
Proof.
  intros r'.
  apply (only_inventory_tables_named Demo.engine Demo.str_of_row
           Demo.repo r' (consistent_init _ _ _)).
  right; right. exists "aapl; DROP TABLE x:1". eexists.
  apply surjective_pairing.
Defined.

(** ** Columns, results and rows *)

Lemma str_length_app a b :
  String.length (a +:+ b) = (String.length a + String.length b)%nat.
Proof. induction a as [|c a IH]; simpl; [done|]. by rewrite IH. Qed.

Lemma str_length_slice n s : (String.length (Py.str_slice_to n s) <= n)%nat.
Proof.
  unfold Py.str_slice_to. revert s. induction n as [|n IH]; intros s.
  - destruct s; simpl; lia.
  - destruct s as [|c s]; simpl; [lia|]. specialize (IH s). lia.
Qed.

Lemma str_length_slice_eq n s :
  (n <= String.length s)%nat -> String.length (Py.str_slice_to n s) = n.
Proof.
  unfold Py.str_slice_to. revert s. induction n as [|n IH]; intros s Hn.
  - by destruct s.
  - destruct s as [|c s]; simpl in *; [lia|]. rewrite IH; lia.
Qed.

Lemma split1_app c a b :
  Py.contains c a = false -> Py.split1 c (a +:+ String c b) = [a; b].
Proof.
  induction a as [|d a IH]; simpl.
  - intros _. by destruct (decide (c = c)).
  - destruct (decide (c = d)); [done|]. intros H. by rewrite IH.
Qed.

Lemma contains_app c a b : Py.contains c (a +:+ String c b) = true.
Proof.
  induction a as [|d a IH]; simpl.
  - by destruct (decide (c = c)).
  - by destruct (decide (c = d)).
Qed.

Lemma document_id_prefix engine symbol row r id r' :
  _document_id engine symbol row r = (Ok id, r') ->
  exists k, id = symbol +:+ ":" +:+ k.
Proof.
  rewrite document_id_eq.
  destruct (_resolve_primary_key engine symbol r) as [[pk|e] r1]; [|done].
  intros [= <- <-]. destruct (_ && _); by eexists.
Qed.

(** X7.  The columns [search] looks into are columns of the table as
    cached: when one of the preferred names is a column they are exactly
    the preferred names that are columns, in the order of preference; when
    none is, they are at most three columns whose declared type, in lower
    case, is a text type; never more than twelve. *)
Theorem searchable_columns_are_columns engine symbol r cols r' :
  _resolve_searchable_columns engine symbol r = (Ok cols, r') ->
  exists columns,
    _columns_cache r' !! symbol = Some columns
    /\ (forall c, c ∈ cols -> c ∈ column_name <$> columns)
    /\ (length cols <= 12)%nat
    /\ ((exists n, n ∈ PREFERRED_TEXT_COLUMNS /\ n ∈ column_name <$> columns) ->
        cols = filter (fun n => n ∈ column_name <$> columns)
                      PREFERRED_TEXT_COLUMNS)
    /\ ((forall n, n ∈ PREFERRED_TEXT_COLUMNS -> n ∉ column_name <$> columns) ->
        (length cols <= 3)%nat
        /\ forall c, c ∈ cols ->
             exists column,
               column ∈ columns /\ column_name column = c
               /\ Py.lower (data_type column) ∈ TEXT_DATA_TYPES).
Proof.
  intros H. unfold _resolve_searchable_columns in H.
  apply bind_inv_Ok in H as (columns & r1 & Hc & H).
  apply resolve_columns_Ok in Hc.
  set (available := list_to_set (column_name <$> columns) : gset string) in H.
  assert (Hfil : filter (fun name => name ∈ available) PREFERRED_TEXT_COLUMNS
                 = filter (fun n => n ∈ column_name <$> columns)
                          PREFERRED_TEXT_COLUMNS).
  { apply list_filter_iff. intros x. unfold available.
    by rewrite elem_of_list_to_set. }
  rewrite Hfil in H. clear Hfil available.
  set (preferred := filter _ PREFERRED_TEXT_COLUMNS) in *.
  assert (Hplen : (length preferred <= 12)%nat)
    by (etransitivity; [apply length_filter|done]).
  set (fallback := column_name <$> filter _ columns) in H.
  assert (Hfb : forall c, c ∈ Py.slice_to 3 fallback ->
              exists column, column ∈ columns /\ column_name column = c
                /\ Py.lower (data_type column) ∈ TEXT_DATA_TYPES).
  { intros c Hin%slice_to_elem. unfold fallback in Hin.
    apply list_elem_of_fmap in Hin as (column & -> & Hin).
    apply list_elem_of_filter in Hin as [Ht Hin]. by exists column. }
  assert (Hflen : (length (Py.slice_to 3 fallback) <= 3)%nat).
  { pose proof (len_slice_to 3 fallback ltac:(lia)). unfold Py.len in *. lia. }
  exists columns. split.
  { destruct preferred; by injection H as <- <-. }
  destruct preferred as [|p ps] eqn:Hp; injection H as <- <-.
  - split; [|split; [lia|split]].
    + intros c (column & Hin & <- & _)%Hfb. apply list_elem_of_fmap. eauto.
    + intros (n & Hn & Hcol). exfalso.
      assert (n ∈ preferred) by (by apply list_elem_of_filter).
      rewrite Hp in H. by apply elem_of_nil in H.
    + intros _. split; [done|]. apply Hfb.
  - split; [|split; [first [done | by rewrite <- Hp | simpl in *; lia]|split]].
    + intros c Hin. rewrite <- Hp in Hin.
      by apply list_elem_of_filter in Hin as [? _].
    + intros _. by rewrite <- Hp.
    + intros Hnone. exfalso.
      assert (Hin : p ∈ preferred) by (rewrite Hp; left).
      apply list_elem_of_filter in Hin as [? ?]. by eapply Hnone.
Qed.

Lemma searchable_columns_are_columns_witness :
  fst (_resolve_searchable_columns Demo.engine "notes" Demo.repo) = Ok ["memo"]
  /\ "memo" ∈ column_name <$> [ {| column_name := "memo"; data_type := "TEXT" |} ].
Proof.
  destruct (_resolve_searchable_columns Demo.engine "notes" Demo.repo)
    as [[cols|e] r'] eqn:E; [|vm_compute in E; discriminate E].
  destruct (searchable_columns_are_columns _ _ _ _ _ E)
    as (columns & Hc & Hin & _).
  assert (cols = ["memo"]) as -> by (vm_compute in E; by injection E as <- _).
  assert (columns = [ {| column_name := "memo"; data_type := "TEXT" |} ]) as ->.
  { vm_compute in E. injection E as <-. vm_compute in Hc. by injection Hc. }
  split; [reflexivity|]. apply Hin. left.
Defined.

(** X8.  A result of [search] for a row: [_search_result] raises only what
    the engine raises (never an index error); its text has at most 400
    characters; its title is not empty; its symbol is the table searched;
    its id is the document id of the row, which starts with the symbol and
    a colon; and when the symbol has no colon its url ends with the rest
    of the id. *)
Theorem search_result_shape engine str_of_row symbol row r res r' :
  _search_result engine str_of_row symbol row r = (res, r') ->
  (forall e, res = Raise e -> e = QueryFailed)
  /\ (forall sr,
         res = Ok sr ->
         (String.length (sr_text sr) <= 400)%nat
         /\ sr_title sr <> EmptyString
         /\ sr_symbol sr = symbol
         /\ _document_id engine symbol row r = (Ok (sr_id sr), r')
         /\ exists k,
              sr_id sr = symbol +:+ ":" +:+ k
              /\ (Py.contains ":" symbol = false ->
                  sr_url sr = "mysql://" +:+ schema r +:+ "/" +:+ symbol
                              +:+ "/" +:+ k)).
Proof.
  intros H. unfold _search_result in H.
  apply bind_inv in H as [(id & r1 & Hd & H)|(e & Hd & ->)]; cycle 1.
  { split; [|done]. intros e' [= <-].
    by apply (raises_document_id engine (fun e => e = QueryFailed)) in Hd. }
  pose proof (kept_document_id engine _ _ _ _ _ Hd) as ((Hsch & _) & _).
  destruct (document_id_prefix _ _ _ _ _ _ Hd) as (k & ->).
  unfold mbind, M_bind, self in H.
  destruct (split1_with ":" (symbol +:+ ":" +:+ k) (contains_app _ _ _))
    as (a & b & Hs & _ & _).
  change (":" +:+ k) with (String ":" k) in *.
  rewrite Hs in H. injection H as <- <-.
  split; [done|]. intros sr [= <-].
  cbn [sr_text sr_title sr_symbol sr_id sr_url].
  split; [|split; [|split; [done|split; [done|]]]].
  - destruct (Z.ltb_spec 400 (Z.of_nat (String.length (_extract_body str_of_row row)))).
    + rewrite str_length_app.
      pose proof (str_length_slice 397 (_extract_body str_of_row row)).
      simpl. lia.
    + lia.
  - destruct (bool_decide (_extract_title row = EmptyString)) eqn:Eb.
    + by destruct symbol.
    + by apply bool_decide_eq_false in Eb.
  - exists k. split; [done|]. intros Hno.
    rewrite (split1_app _ _ _ Hno) in Hs. injection Hs as <- <-.
    by rewrite Hsch.
Qed.

Lemma search_result_shape_witness :
  exists sr,
    fst (_search_result Demo.engine Demo.str_of_row "AAPL" Demo.aapl_row
           Demo.repo) = Ok sr
    /\ sr_id sr = "AAPL:1" /\ sr_url sr = "mysql://news/AAPL/1"
    /\ (String.length (sr_text sr) <= 400)%nat.
Proof.
  destruct (_search_result Demo.engine Demo.str_of_row "AAPL" Demo.aapl_row
              Demo.repo) as [[sr|e] r'] eqn:E;
    [|vm_compute in E; discriminate E].
  destruct (search_result_shape _ _ _ _ _ _ _ E) as [_ H].
  destruct (H sr eq_refl) as (Hlen & _ & _ & _ & _).
  exists sr. split; [reflexivity|].
  vm_compute in E. injection E as <- _.
  split; [reflexivity|]. split; [reflexivity|]. vm_compute. lia.
Defined.

(** ** Rows of [get_symbol_news] and ids that can be fetched *)

Lemma mapM_Forall2 {A B} (f : A -> M B) (Q : A -> B -> Prop) l :
  (forall a r b r', f a r = (Ok b, r') -> Q a b) ->
  forall r l' r', mapM f l r = (Ok l', r') -> Forall2 Q l l'.
Proof.
  intros Hf. induction l as [|x l IH]; intros r l' r' H; simpl in H.
  - injection H as <- <-. constructor.
  - apply bind_inv_Ok in H as (y & r1 & Hy & H).
    apply bind_inv_Ok in H as (ys & r2 & Hys & [= <- <-]).
    constructor; eauto.
Qed.

Lemma augment_row_Ok engine S row r out r' :
  _augment_row engine S row r = (Ok out, r') ->
  out !! "symbol" = Some (VStr S)
  /\ (exists k, out !! "document_id" = Some (VStr (S +:+ ":" +:+ k)))
  /\ forall key, key <> "symbol" -> key <> "document_id" ->
                 out !! key = row !! key.
Proof.
  intros H. unfold _augment_row in H.
  apply bind_inv_Ok in H as (id & r1 & Hd & [= <- <-]).
  destruct (document_id_prefix _ _ _ _ _ _ Hd) as (k & ->).
  split; [|split].
  - rewrite lookup_insert_ne by done. apply lookup_insert_eq.
  - exists k. apply lookup_insert_eq.
  - intros key H1 H2. by rewrite !lookup_insert_ne.
Qed.

Lemma augment_row_cached engine S row r k :
  _primary_key_cache r !! S = Some k ->
  exists out, _augment_row engine S row r = (Ok out, r).
Proof.
  intros Hk. unfold _augment_row. eexists.
  assert (Hd : _document_id engine S row r
               = (Ok (let pk := default EmptyString k in
                      if truthy_opt k && negb (is_None (row_get row pk))
                      then S +:+ ":" +:+ str (row_get row pk)
                      else S +:+ ":" +:+ digest16 S row), r)).
  { rewrite document_id_eq.
    by rewrite (resolve_primary_key_cached engine S r k Hk). }
  by rewrite (bind_Ok _ _ _ _ _ Hd).
Qed.

Lemma mapM_augment_cached engine S rows r k :
  _primary_key_cache r !! S = Some k ->
  exists outs, mapM (_augment_row engine S) rows r = (Ok outs, r).
Proof.
  intros Hk. induction rows as [|row rows (outs & IH)]; [by exists []|].
  destruct (augment_row_cached engine S row r k Hk) as (out & Ho).
  exists (out :: outs). cbn [mapM].
  rewrite (bind_Ok _ _ _ _ _ Ho), (bind_Ok _ _ _ _ _ IH). reflexivity.
Qed.

(** The rows of one table are augmented with one primary-key lookup at
    most: the first row fills the cache the others read. *)
Lemma mapM_augment_sent engine S rows r outs r' :
  mapM (_augment_row engine S) rows r = (Ok outs, r') ->
  sent r' = sent r \/ sent r' = sent r ++ [SelectPrimaryKey (schema r) S].
Proof.
  destruct rows as [|row rows]; [intros [= _ <-]; by left|].
  cbn [mapM]. intros H.
  apply bind_inv_Ok in H as (out & r1 & Ho & H).
  apply bind_inv_Ok in H as (outs' & r2 & Hm & [= _ <-]).
  unfold _augment_row in Ho.
  apply bind_inv_Ok in Ho as (ident & r1' & Hd & [= _ <-]).
  rewrite document_id_eq in Hd.
  destruct (_resolve_primary_key engine S r) as [[k|e] r0] eqn:Hk; [|done].
  injection Hd as _ <-.
  destruct (mapM_augment_cached engine S rows r0 k
              (resolve_primary_key_Ok _ _ _ _ _ Hk)) as (outs0 & Hm').
  rewrite Hm' in Hm. injection Hm as _ <-.
  apply resolve_primary_key_cases in Hk
    as [(? & _ & _ & ->)|[(_ & _ & [=] & _)|(? & _ & _ & _ & ->)]].
  - by left.
  - right. reflexivity.
Qed.

(** X9.  The rows [get_symbol_news] returns are the rows the engine
    answered, one for one and in order, each with the field [symbol] set
    to the canonical symbol and the field [document_id] set to an id that
    starts with the symbol and a colon, every other field as answered.
    One statement reads the table: it is ordered by the date column when
    there is one, filtered from "date_from 00:00:00" when [date_from] is
    given and there is a date column, and limited to
    [min(limit, max_rows)]; nothing follows it but, at most once, the
    lookup of the primary key of that table. *)
Theorem news_rows_augmented engine symbol date_from limit r rows r' :
  get_symbol_news engine symbol date_from limit r = (Ok rows, r') ->
  exists S r1 date_column r2 raw meta,
    _validate_symbol engine symbol r = (Ok S, r1)
    /\ _resolve_date_column engine S r1 = (Ok date_column, r2)
    /\ let q :=
         SelectNews S
           (if truthy_opt date_from && truthy_opt date_column
            then Some (default EmptyString date_column,
                       default EmptyString date_from +:+ " 00:00:00")
            else None)
           date_column (Z.min limit (max_rows r)) in
       answer_rows engine (length (sent r2)) q = Some raw
       /\ sent r' = sent r2 ++ q :: meta
       /\ (meta = [] \/ meta = [SelectPrimaryKey (schema r) S])
       /\ Forall2
            (fun row out =>
               out !! "symbol" = Some (VStr S)
               /\ (exists k,
                      out !! "document_id" = Some (VStr (S +:+ ":" +:+ k)))
               /\ forall key, key <> "symbol" -> key <> "document_id" ->
                              out !! key = row !! key)
            raw rows.
Proof.
  intros H. rewrite get_symbol_news_eq in H.
  apply bind_inv_Ok in H as (S & r1 & Hv & H).
  pose proof (kept_validate_symbol engine _ _ _ _ Hv)
    as ((Hs1 & Hm & _) & _).
  unfold news_of_symbol in H.
  apply bind_inv_Ok in H as (row_limit & r0 & Hl & H).
  apply safe_limit_Ok in Hl as (_ & -> & ->).
  apply bind_inv_Ok in H as (dc & r2 & Hd & H).
  pose proof (kept_resolve_date_column engine _ _ _ _ Hd)
    as ((Hs2 & _) & _).
  apply bind_inv_Ok in H as ([w o] & r3 & Hw & H).
  apply bind_inv_Ok in H as (raw & r4 & Hq & H).
  assert (Hdc : truthy_opt dc = false -> dc = None).
  { destruct dc as [c|]; [|done].
    destruct (resolve_date_column_known _ _ _ _ _ Hd) as [_ Ht].
    by rewrite Ht. }
  assert (Hwo : r3 = r2
                /\ w = (if truthy_opt date_from && truthy_opt dc
                        then Some (default EmptyString dc,
                                   default EmptyString date_from
                                   +:+ " 00:00:00")
                        else None)
                /\ o = dc).
  { destruct (truthy_opt date_from && truthy_opt dc) eqn:Eb.
    - apply bind_inv_Ok in Hw as ([] & r5 & Hvd & [= <- <- <-]).
      by apply validate_date_state in Hvd as ->.
    - destruct (truthy_opt dc) eqn:Et.
      + by injection Hw as <- <- <-.
      + injection Hw as <- <- <-. by rewrite Hdc. }
  destruct Hwo as (-> & -> & ->).
  rewrite query_rows_eq in Hq.
  destruct (answer_rows engine (length (sent r2)) _) as [a|] eqn:Ha;
    [|done].
  injection Hq as <- <-.
  pose proof (mapM_augment_sent _ _ _ _ _ _ H) as Hs.
  cbn [sent set_sent schema] in Hs. rewrite Hs2, Hs1 in Hs.
  rewrite <- Hm in *.
  assert (HF : Forall2
            (fun row out =>
               out !! "symbol" = Some (VStr S)
               /\ (exists k,
                      out !! "document_id" = Some (VStr (S +:+ ":" +:+ k)))
               /\ forall key, key <> "symbol" -> key <> "document_id" ->
                              out !! key = row !! key)
            a rows).
  { eapply mapM_Forall2; [|exact H]. intros row rr out rr'.
    apply augment_row_Ok. }
  destruct Hs as [Hs|Hs].
  - exists S, r1, dc, r2, a, []. by repeat split; auto.
  - exists S, r1, dc, r2, a, [SelectPrimaryKey (schema r) S].
    rewrite <- app_assoc in Hs. by repeat split; auto.
Qed.

Lemma news_rows_augmented_witness :
  exists out,
    fst (get_symbol_news Demo.engine "sym" (Some "2024-01-01") 10 Demo.repo)
    = Ok [out]
    /\ out !! "symbol" = Some (VStr "SYM")
    /\ out !! "headline" = Some (VStr "Sym rallies").
Proof.
  destruct (get_symbol_news Demo.engine "sym" (Some "2024-01-01") 10 Demo.repo)
    as [[rows|e] r'] eqn:E; [|vm_compute in E; discriminate E].
  destruct (news_rows_augmented _ _ _ _ _ _ _ E)
    as (S & r1 & dc & r2 & raw & meta & Hv & Hd & Ha & _ & _ & HF).
  assert (S = "SYM") as -> by (vm_compute in Hv; by injection Hv as <- _).
  assert (raw = [Demo.sym_row]) as ->.
  { vm_compute in Hv. injection Hv as <-. vm_compute in Hd.
    injection Hd as <- <-. vm_compute in Ha. by injection Ha as <-. }
  apply Forall2_cons_inv_l in HF as (out & rest & (H1 & _ & H3) & HF & ->).
  apply Forall2_nil_inv_l in HF as ->.
  exists out. split; [reflexivity|]. split; [exact H1|].
  rewrite H3; [vm_compute; reflexivity|discriminate|discriminate].
Defined.

(** X10.  The id of a row can be given back to [fetch].  For a table [S]
    of the inventory whose name has no colon and no outer whitespace,
    and an id that [_document_id] made for a row of [S]: if [S] has no
    primary key, [fetch] of the id raises [NoPrimaryKey] and sends
    nothing; if it has one and the row's key value is not null, [fetch]
    of the id sends one statement, the query by that key for the printed
    key value, and when the engine answers with a row of the same key
    value it returns the document of that row under the same id.  This
    holds after any calls that keep the caches. *)
Theorem document_id_fetchable engine str_of_row S row r ident r1 r2 primary_key :
  consistent r -> S ∈ _symbols_cache r ->
  Py.strip S = S -> Py.contains ":" S = false ->
  _document_id engine S row r = (Ok ident, r1) ->
  kept r1 r2 ->
  _primary_key_cache r1 !! S = Some primary_key ->
  (truthy_opt primary_key = false ->
   fetch engine str_of_row ident r2 = (Raise (NoPrimaryKey S), r2))
  /\ (forall pk,
         primary_key = Some pk -> pk <> EmptyString ->
         row_get row pk <> VNone ->
         let q := SelectByKey S pk (str (row_get row pk)) in
         sent (snd (fetch engine str_of_row ident r2)) = sent r2 ++ [q]
         /\ forall row' rest,
              answer_rows engine (length (sent r2)) q = Some (row' :: rest) ->
              row_get row' pk = row_get row pk ->
              exists doc,
                fst (fetch engine str_of_row ident r2) = Ok doc
                /\ doc_id doc = ident
                /\ md_raw_row (doc_metadata doc) = row').
Proof.
  intros Hc HS Hstrip Hcolon Hd Hk Hpk.
  pose proof (kept_document_id engine _ _ _ _ _ Hd) as Hk1.
  pose proof (kept_trans _ _ _ Hk1 Hk) as (_ & _ & Hi & _ & _ & Hc2).
  destruct Hi as [Hi _]; [intros He; by rewrite He in HS|].
  assert (Hv : _validate_symbol engine S r2 = (Ok S, r2)).
  { rewrite <- Hstrip at 2. apply validate_symbol_exact.
    - apply refresh_warm. rewrite Hi. intros He. by rewrite He in HS.
    - by rewrite Hstrip, Hi. }
  destruct Hk as (_ & _ & _ & _ & Hkk & _).
  pose proof (Hkk _ _ Hpk) as Hpk2.
  destruct (document_id_prefix _ _ _ _ _ _ Hd) as (k & Hid).
  assert (Hf : fetch engine str_of_row ident r2
               = fetch_of_symbol engine str_of_row ident S k r2).
  { rewrite fetch_eq, Hid. change (":" +:+ k) with (String ":" k).
    rewrite contains_app, (split1_app _ _ _ Hcolon). cbn [negb].
    by rewrite (bind_Ok _ _ _ _ _ Hv). }
  assert (Hideq : ident = (if truthy_opt primary_key
                             && negb (is_None (row_get row
                                         (default EmptyString primary_key)))
                        then S +:+ ":" +:+ str (row_get row
                                         (default EmptyString primary_key))
                        else S +:+ ":" +:+ digest16 S row)).
  { rewrite document_id_eq in Hd.
    destruct (_resolve_primary_key engine S r) as [[pk0|e] r0] eqn:E;
      [|done].
    injection Hd as <- <-.
    apply resolve_primary_key_Ok in E. rewrite Hpk in E.
    by injection E as <-. }
  split.
  - intros Hno. rewrite Hf. unfold fetch_of_symbol.
    rewrite (bind_Ok _ _ _ _ _ (resolve_primary_key_cached engine S r2 _ Hpk2)).
    by rewrite Hno.
  - intros pk -> Hne Hval q.
    assert (Htr : truthy_opt (Some pk) = true).
    { simpl. by rewrite bool_decide_eq_false_2. }
    rewrite Htr in Hideq. cbn [from_option id] in Hideq.
    assert (Hnn : negb (is_None (row_get row pk)) = true)
      by (by destruct (row_get row pk)).
    rewrite Hnn in Hideq. cbn [andb] in Hideq.
    assert (Hkv : k = str (row_get row pk)).
    { rewrite Hideq in Hid.
      change (?a +:+ ":" +:+ ?b) with (a +:+ String ":" b) in Hid.
      assert (Hsp := split1_app ":" S (str (row_get row pk)) Hcolon).
      rewrite Hid, (split1_app _ _ _ Hcolon) in Hsp. by injection Hsp. }
    rewrite Hf, Hkv, (fetch_of_cached_key _ _ _ _ _ _ _ Hpk2 Hne).
    fold q. split.
    + by destruct (answer_rows engine (length (sent r2)) q) as [[|? ?]|].
    + intros row' rest Ha Hsame. rewrite Ha. eexists. split; [done|].
      cbn. rewrite Hsame, Hnn. by rewrite Hideq.
Qed.

Lemma document_id_fetchable_witness :
  let r1 := snd (search Demo.engine Demo.str_of_row "rallies" None None 5
                   Demo.repo) in
  exists doc,
    fst (fetch Demo.engine Demo.str_of_row "SYM:123" r1) = Ok doc
    /\ doc_id doc = "SYM:123".
Proof.
  intros r1.
  assert (Hd : _document_id Demo.engine "SYM" Demo.sym_row r1
               = (Ok "SYM:123", r1)) by (vm_compute; reflexivity).
  destruct (document_id_fetchable Demo.engine Demo.str_of_row "SYM"
              Demo.sym_row r1 "SYM:123" r1 r1 (Some "id")) as [_ H].
  - apply (kept_search Demo.engine Demo.str_of_row "rallies" None None 5
             Demo.repo
             (fst (search Demo.engine Demo.str_of_row "rallies" None None 5
                     Demo.repo))); [apply surjective_pairing|].
    apply consistent_init.
  - vm_compute. reflexivity.
  - vm_compute. reflexivity.
  - vm_compute. reflexivity.
  - exact Hd.
  - apply kept_refl.
  - vm_compute. reflexivity.
  - destruct (H "id" eq_refl) as [_ H2]; [discriminate|vm_compute; discriminate|].
    destruct (H2 Demo.sym_row []) as (doc & Hdoc & Hid & _).
    + vm_compute. reflexivity.
    + reflexivity.
    + exists doc. split; [exact Hdoc|exact Hid].
Defined.

(** ** The shape of digests and of accepted dates *)

Lemma hex_of_bytes_length bs :
  String.length (Sha1.hex_of_bytes bs) = (2 * length bs)%nat.
Proof. induction bs as [|b bs IH]; simpl; [done|]. rewrite IH. lia. Qed.

Lemma be_bytes_length n x : length (Sha1.be_bytes n x) = n.
Proof. induction n as [|n IH]; simpl; [done|]. by rewrite IH. Qed.

Lemma be_bytes_range n x :
  Forall (fun b => 0 <= b < 256) (Sha1.be_bytes n x).
Proof.
  induction n as [|n IH]; simpl; constructor; [|done].
  change 255 with (Z.ones 8). rewrite Z.land_ones by lia.
  apply Z.mod_pos_bound. lia.
Qed.

Lemma hex_digit_is_hex n : 0 <= n < 16 -> is_hex (Sha1.hex_digit n) = true.
Proof.
  intros H. rewrite <- (Z2Nat.id n) by lia.
  assert (Hk : (Z.to_nat n < 16)%nat) by lia.
  revert Hk. generalize (Z.to_nat n). intros k Hk.
  do 16 (destruct k as [|k]; [reflexivity|]). lia.
Qed.

Lemma hex_of_bytes_hex bs :
  Forall (fun b => 0 <= b < 256) bs ->
  str_all is_hex (Sha1.hex_of_bytes bs) = true.
Proof.
  induction 1 as [|b bs Hb _ IH]; simpl; [done|].
  rewrite IH, !hex_digit_is_hex; [done| |].
  - change 15 with (Z.ones 4). rewrite Z.land_ones by lia.
    apply Z.mod_pos_bound. lia.
  - rewrite Z.shiftr_div_pow2 by lia. change (2 ^ 4) with 16.
    split; [apply Z.div_pos; lia|]. apply Z.div_lt_upper_bound; lia.
Qed.

Lemma hexdigest_shape data :
  String.length (Sha1.hexdigest data) = 40%nat
  /\ str_all is_hex (Sha1.hexdigest data) = true.
Proof.
  unfold Sha1.hexdigest.
  destruct (foldl Sha1.compress Sha1.init _) as [[[[h0 h1] h2] h3] h4].
  split.
  - rewrite hex_of_bytes_length, !length_app, !be_bytes_length. done.
  - apply hex_of_bytes_hex. repeat apply Forall_app_2; apply be_bytes_range.
Qed.

Lemma str_all_slice p n s :
  str_all p s = true -> str_all p (Py.str_slice_to n s) = true.
Proof.
  unfold Py.str_slice_to. revert s. induction n as [|n IH]; intros s.
  - by destruct s.
  - destruct s as [|c s]; simpl; [done|].
    intros [Hc Hs]%andb_true_iff. rewrite Hc. simpl. by apply IH.
Qed.

(** X11.  The digest part of a fallback id is made of exactly 16
    characters, each a digit or a letter from a to f; a fallback id is the
    symbol, a colon and these 16 characters. *)
Theorem fallback_id_shape engine symbol row r ident r1 :
  _document_id engine symbol row r = (Ok ident, r1) ->
  (forall pk, _primary_key_cache r1 !! symbol = Some (Some pk) ->
              pk = EmptyString \/ row_get row pk = VNone) ->
  exists digest,
    ident = symbol +:+ ":" +:+ digest
    /\ String.length digest = 16%nat
    /\ str_all is_hex digest = true.
Proof.
  intros H Hno. rewrite document_id_eq in H.
  destruct (_resolve_primary_key engine symbol r) as [[primary_key|e] r0]
    eqn:E; [|done].
  injection H as <- <-. apply resolve_primary_key_Ok in E.
  exists (digest16 symbol row).
  destruct (hexdigest_shape (Py.encode_utf8 (digest_input symbol row)))
    as [Hl Hh].
  split; [|split].
  - destruct primary_key as [pk|]; [|done].
    destruct (Hno pk E) as [->|Hv]; [done|]. cbn zeta. cbn [from_option id].
    rewrite Hv. by rewrite andb_false_r.
  - unfold digest16. apply str_length_slice_eq. rewrite Hl. lia.
  - unfold digest16. by apply str_all_slice.
Qed.

Lemma fallback_id_shape_witness :
  exists digest,
    fst (_document_id Demo.engine "notes" Demo.note_row Demo.repo)
    = Ok ("notes:" +:+ digest)
    /\ String.length digest = 16%nat.
Proof.
  destruct (_document_id Demo.engine "notes" Demo.note_row Demo.repo)
    as [[ident|e] r1] eqn:E; [|vm_compute in E; discriminate E].
  destruct (fallback_id_shape _ _ _ _ _ _ E) as (digest & -> & Hl & _).
  - intros pk Hpk. exfalso.
    assert (Hn : _primary_key_cache r1 !! "notes" = Some None).
    { apply (resolve_primary_key_Ok Demo.engine "notes" Demo.repo).
      rewrite document_id_eq in E.
      destruct (_resolve_primary_key Demo.engine "notes" Demo.repo)
        as [[k|e] r0] eqn:Ek; [|discriminate E].
      injection E as _ <-. vm_compute in Ek. by injection Ek as <- <-. }
    rewrite Hn in Hpk. discriminate Hpk.
  - exists digest. split; [reflexivity|exact Hl].
Defined.

(** Digits of the calendar. *)
Lemma is_digit_range c :
  Strptime.is_digit c = true -> 0 <= Strptime.digit c <= 9.
Proof.
  unfold Strptime.is_digit, Strptime.digit.
  intros [H1 H2]%andb_true_iff. lia.
Qed.

Lemma in_range_spec lo hi c :
  Strptime.in_range lo hi c = true ->
  Strptime.is_digit c = true /\ lo <= Strptime.digit c <= hi.
Proof.
  unfold Strptime.in_range.
  intros [[H1 H2]%andb_true_iff H3]%andb_true_iff. split; [done|lia].
Qed.

Lemma directive_Y_spec s y rest :
  Strptime.directive_Y s = Some (y, rest) ->
  0 <= y <= 9999 /\ String.length s = (4 + String.length rest)%nat.
Proof.
  unfold Strptime.directive_Y.
  destruct s as [|a [|b [|c [|d s]]]]; try done.
  destruct (_ && _) eqn:E; [|done]. intros [= <- <-].
  apply andb_true_iff in E as [[[Ha Hb]%andb_true_iff Hc]%andb_true_iff Hd].
  apply is_digit_range in Ha, Hb, Hc, Hd. simpl. split; lia.
Qed.

Lemma directive_m_spec s m rest :
  Strptime.directive_m s = Some (m, rest) ->
  1 <= m <= 12
  /\ (String.length s = (1 + String.length rest)%nat
      \/ String.length s = (2 + String.length rest)%nat).
Proof.
  unfold Strptime.directive_m. destruct s as [|a s]; [done|].
  destruct s as [|b s].
  - destruct (Strptime.in_range 1 9 a) eqn:E; [|done]. intros [= <- <-].
    apply in_range_spec in E as [_ E]. simpl. split; [lia|by left].
  - destruct (_ && _ && Strptime.in_range 0 2 b) eqn:E1.
    { intros [= <- <-]. apply andb_true_iff in E1 as [_ E1].
      apply in_range_spec in E1 as [_ E1]. simpl. split; [lia|by right]. }
    destruct (_ && _ && Strptime.in_range 1 9 b) eqn:E2.
    { intros [= <- <-]. apply andb_true_iff in E2 as [_ E2].
      apply in_range_spec in E2 as [_ E2]. simpl. split; [lia|by right]. }
    destruct (Strptime.in_range 1 9 a) eqn:E; [|done]. intros [= <- <-].
    apply in_range_spec in E as [_ E]. simpl. split; [lia|by left].
Qed.

Lemma directive_d_spec s d rest :
  Strptime.directive_d s = Some (d, rest) ->
  1 <= d <= 31
  /\ (String.length s = (1 + String.length rest)%nat
      \/ String.length s = (2 + String.length rest)%nat).
Proof.
  unfold Strptime.directive_d. destruct s as [|a s]; [done|].
  destruct s as [|b s].
  - destruct (Strptime.in_range 1 9 a) eqn:E; [|done]. intros [= <- <-].
    apply in_range_spec in E as [_ E]. simpl. split; [lia|by left].
  - destruct (_ && _ && Strptime.in_range 0 1 b) eqn:E1.
    { intros [= <- <-]. apply andb_true_iff in E1 as [_ E1].
      apply in_range_spec in E1 as [_ E1]. simpl. split; [lia|by right]. }
    destruct (Strptime.in_range 1 2 a && Strptime.is_digit b) eqn:E2.
    { intros [= <- <-]. apply andb_true_iff in E2 as [Ea Eb].
      apply in_range_spec in Ea as [_ Ea]. apply is_digit_range in Eb.
      simpl. split; [lia|by right]. }
    destruct (_ && _ && Strptime.in_range 1 9 b) eqn:E3.
    { intros [= <- <-]. apply andb_true_iff in E3 as [_ E3].
      apply in_range_spec in E3 as [_ E3]. simpl. split; [lia|by right]. }
    destruct (Strptime.in_range 1 9 a) eqn:E.
    { intros [= <- <-]. apply in_range_spec in E as [_ E].
      simpl. split; [lia|by left]. }
    destruct (decide (a = " "%char)); [|done].
    destruct (Strptime.in_range 1 9 b) eqn:E4; [|done]. intros [= <- <-].
    apply in_range_spec in E4 as [_ E4]. simpl. split; [lia|by right].
Qed.

Lemma expect_spec c s rest :
  Strptime.expect c s = Some rest -> s = String c rest.
Proof.
  destruct s as [|d s]; simpl; [done|].
  destruct (decide (c = d)) as [->|]; [|done]. by intros [= <-].
Qed.

(** X12.  What [_validate_date] accepts is a day of the calendar: a text
    of 8 to 10 characters that reads as a year from 1 to 9999, a month
    from 1 to 12 and a day that exists in that month of that year; every
    other text raises [InvalidDateFormat], and the object is untouched
    either way. *)
Theorem validated_date_is_a_day value r res r' :
  _validate_date value r = (res, r') ->
  r' = r
  /\ (res = Ok tt \/ res = Raise InvalidDateFormat)
  /\ (res = Ok tt ->
      exists y m d,
        Strptime.parse value = Some (y, m, d)
        /\ 1 <= y <= 9999 /\ 1 <= m <= 12
        /\ 1 <= d <= Strptime.days_in_month y m
        /\ (8 <= String.length value <= 10)%nat).
Proof.
  unfold _validate_date.
  destruct (Strptime.parse value) as [[[y m] d]|] eqn:E; intros [= <- <-];
    (split; [done|]); (split; [auto|]); [|done].
  intros _. exists y, m, d. split; [done|].
  unfold Strptime.parse in E.
  destruct (Strptime.directive_Y value) as [[y0 s1]|] eqn:EY; [|done].
  cbn [mbind option_bind] in E.
  destruct (Strptime.expect "-" s1) as [s2|] eqn:E1; [|done].
  cbn [mbind option_bind] in E.
  destruct (Strptime.directive_m s2) as [[m0 s3]|] eqn:EM; [|done].
  cbn [mbind option_bind] in E.
  destruct (Strptime.expect "-" s3) as [s4|] eqn:E2; [|done].
  cbn [mbind option_bind] in E.
  destruct (Strptime.directive_d s4) as [[d0 s5]|] eqn:ED; [|done].
  cbn [mbind option_bind] in E.
  destruct (decide (s5 = EmptyString)) as [->|]; [|done].
  destruct (_ && _ && _) eqn:Eb; [|done]. injection E as <- <- <-.
  apply andb_true_iff in Eb as [[Hy Hd1]%andb_true_iff Hd2].
  apply directive_Y_spec in EY as [HY LY].
  apply directive_m_spec in EM as [HM LM].
  apply directive_d_spec in ED as [HD LD].
  apply expect_spec in E1 as ->. apply expect_spec in E2 as ->.
  simpl in *. repeat split; lia.
Qed.

Lemma validated_date_is_a_day_witness :
  _validate_date "2024-02-29" Demo.repo = (Ok tt, Demo.repo)
  /\ exists y m d, Strptime.parse "2024-02-29" = Some (y, m, d)
                   /\ 1 <= d <= Strptime.days_in_month y m.
Proof.
  destruct (validated_date_is_a_day "2024-02-29" Demo.repo (Ok tt) Demo.repo
              eq_refl) as (_ & _ & H).
  split; [reflexivity|].
  destruct (H eq_refl) as (y & m & d & Hp & _ & _ & Hd & _).
  by exists y, m, d.
Defined.

(** ** The budget with an engine that honours the limit *)

Section Budget.
Context (engine : Engine) (str_of_row : Row -> string).

Lemma rows_answered_nonneg n q : 0 <= rows_answered engine n q.
Proof. unfold rows_answered, Py.len. destruct q; lia. Qed.

Lemma budget_never_exceeded row_limit m n have new :
  honours_limit engine ->
  within_budget engine row_limit m n have new ->
  have <= row_limit ->
  have <= have_after engine n have new <= row_limit.
Proof.
  intros Hh. revert n have.
  induction new as [|q new IH]; intros n have Hb Hle; simpl; [lia|].
  destruct Hb as [Hq Hb].
  pose proof (rows_answered_nonneg n q) as H0.
  assert (Hstep : have + rows_answered engine n q <= row_limit).
  { destruct q; try (unfold rows_answered in *; lia).
    destruct Hq as [Hlt ->]. unfold rows_answered.
    destruct (answer_rows engine n _) as [rows|] eqn:E.
    - apply (Hh _ _ _ (Z.min (row_limit - have) m)) in E; [|done].
      simpl. lia.
    - unfold Py.len. simpl. lia. }
  specialize (IH (S n) _ Hb Hstep). lia.
Qed.

Lemma take_all {A} n (l : list A) : (length l <= n)%nat -> take n l = l.
Proof. apply take_ge. Qed.

Lemma search_Ok_inv query symbols date_from limit r results r' :
  search engine str_of_row query symbols date_from limit r = (Ok results, r') ->
  Py.strip query <> EmptyString ->
  exists targets r1 out,
    0 < limit
    /\ _resolve_target_symbols engine symbols r = (Ok targets, r1)
    /\ search_loop engine str_of_row (Py.strip query) date_from
         (Z.min limit (max_rows r)) targets [] r1 = (Ok out, r')
    /\ results = Py.slice_to (Z.min limit (max_rows r)) out.
Proof.
  intros H Hq. unfold search in H.
  rewrite bool_decide_eq_false_2 in H by done.
  apply bind_inv_Ok in H as (row_limit & r0 & Hl & H).
  apply safe_limit_Ok in Hl as (Hpos & -> & ->).
  apply bind_inv_Ok in H as (targets & r1 & Ht & H).
  apply bind_inv_Ok in H as ([] & r2 & Hd & H).
  assert (r2 = r1) as ->.
  { destruct (truthy_opt date_from);
      [by apply validate_date_state in Hd | by injection Hd]. }
  apply bind_inv_Ok in H as (out & r3 & Hloop & [= <- <-]).
  by exists targets, r1, out.
Qed.
End Budget.

(** X13.  With an engine that returns no more rows than the bound
    [:limit], [search] with a query that is not blank drops nothing of
    what it fetched: the list it returns has one result for each row the
    engine answered to the searches of the call, and, when [max_rows] is
    not negative, their number never exceeds [min(limit, max_rows)]. *)
Theorem search_drops_nothing engine str_of_row query symbols date_from limit
    r results r' :
  honours_limit engine ->
  Py.strip query <> EmptyString ->
  search engine str_of_row query symbols date_from limit r = (Ok results, r') ->
  exists new,
    sent r' = sent r ++ new
    /\ Py.len results = have_after engine (length (sent r)) 0 new
    /\ (0 <= max_rows r -> Py.len results <= Z.min limit (max_rows r)).
Proof.
  intros Hh Hq H.
  apply search_Ok_inv in H as (targets & r1 & out & Hpos & Ht & Hl & ->);
    [|done].
  set (row_limit := Z.min limit (max_rows r)) in *.
  pose proof Ht as Hm.
  apply (sends_resolve_target_symbols engine is_meta) in Hm; [|done].
  apply (loop_trace_meta engine row_limit 0) in Hm.
  destruct (Z.le_gt_cases row_limit 0) as [Hle|Hgt].
  { rewrite search_loop_no_budget in Hl by done. injection Hl as <- <-.
    destruct Hm as (new & E & _ & _ & _ & Hh0). exists new.
    split; [done|]. rewrite <- Hh0.
    assert (Py.slice_to row_limit (@nil SearchResult) = []) as ->.
    { unfold Py.slice_to. destruct (_ <? _); apply take_nil. }
    split; [done|]. unfold row_limit in *. unfold Py.len. simpl. lia. }
  apply search_loop_trace in Hl as (tables & have' & Hlt & _ & Hout).
  pose proof (loop_trace_trans _ _ _ _ _ _ _ _ _ _ Hm Hlt)
    as (new & E & _ & _ & Hb & Hh').
  pose proof (budget_never_exceeded _ _ _ _ _ _ Hh Hb ltac:(lia)) as Hbound.
  rewrite <- Hh' in Hbound. specialize (Hout out eq_refl).
  exists new. split; [done|].
  assert (Py.slice_to row_limit out = out) as ->.
  { rewrite slice_to_nonneg by lia. apply take_ge. unfold Py.len in *. lia. }
  rewrite Hout. split; [done|]. intros _. lia.
Qed.

Lemma search_drops_nothing_witness :
  exists new,
    sent (snd (search Demo.engine Demo.str_of_row "a" None None 2 Demo.repo))
    = sent Demo.repo ++ new
    /\ (forall results,
           fst (search Demo.engine Demo.str_of_row "a" None None 2 Demo.repo)
           = Ok results ->
           Py.len results = have_after Demo.engine 0 0 new).
Proof.
  destruct (search Demo.engine Demo.str_of_row "a" None None 2 Demo.repo)
    as [[results|e] r'] eqn:E; [|vm_compute in E; discriminate E].
  destruct (search_drops_nothing Demo.engine Demo.str_of_row "a" None None 2
              Demo.repo results r' demo_honours_limit) as (new & Hs & Hl & _).
  - vm_compute. discriminate.
  - exact E.
  - exists new. cbn [fst snd]. split; [exact Hs|].
    intros res [= <-]. exact Hl.
Defined.

(** ** Words, scopes and lists of the environment *)

Lemma words_from_spec s w ws :
  PyStr.words_from s = (w, ws) ->
  str_all not_space w = true
  /\ Forall (fun x => x <> EmptyString /\ str_all not_space x = true) ws.
Proof.
  revert w ws. induction s as [|c s IH]; intros w ws; simpl.
  - by intros [= <- <-].
  - destruct (PyStr.words_from s) as [w' ws'].
    destruct (IH _ _ eq_refl) as [Hw Hws].
    destruct (Py.isspace c) eqn:Ec; intros [= <- <-].
    + split; [done|]. case_bool_decide; [done|]. by constructor.
    + split; [|done]. simpl. unfold not_space at 1. by rewrite Ec.
Qed.

Lemma split_ws_spec s :
  Forall (fun x => x <> EmptyString /\ str_all not_space x = true)
         (PyStr.split_ws s).
Proof.
  unfold PyStr.split_ws. destruct (PyStr.words_from s) as [w ws] eqn:E.
  apply words_from_spec in E as [Hw Hws].
  case_bool_decide; [done|]. by constructor.
Qed.

Lemma words_from_word w s :
  str_all not_space w = true ->
  PyStr.words_from (w +:+ s)
  = (w +:+ fst (PyStr.words_from s), snd (PyStr.words_from s)).
Proof.
  induction w as [|c w IH]; simpl.
  - intros _. apply surjective_pairing.
  - intros [Hc Hw]%andb_true_iff. rewrite (IH Hw). simpl.
    unfold not_space in Hc. destruct (Py.isspace c); [discriminate Hc|done].
Qed.

Lemma str_app_empty s : s +:+ EmptyString = s.
Proof.
  induction s as [|c s IH]; [reflexivity|].
  change (String c (s +:+ EmptyString) = String c s). by rewrite IH.
Qed.

Lemma str_app_empty_inv a b : a +:+ b = EmptyString -> a = EmptyString.
Proof. by destruct a. Qed.

Lemma words_from_one w :
  str_all not_space w = true -> PyStr.words_from w = (w, []).
Proof.
  intros Hw. pose proof (words_from_word w EmptyString Hw) as H.
  cbn [PyStr.words_from fst snd] in H. by rewrite !str_app_empty in H.
Qed.

Lemma split_ws_join l :
  Forall (fun x => x <> EmptyString /\ str_all not_space x = true) l ->
  PyStr.split_ws (join " " l) = l.
Proof.
  induction 1 as [|p l [Hp Hs] Hl IH]; [done|].
  destruct l as [|q rest].
  - cbn [join]. unfold PyStr.split_ws. rewrite (words_from_one _ Hs).
    by rewrite bool_decide_eq_false_2.
  - change (join " " (p :: q :: rest))
      with (p +:+ String " " (join " " (q :: rest))).
    unfold PyStr.split_ws in *. rewrite (words_from_word _ _ Hs).
    cbn [PyStr.words_from].
    destruct (PyStr.words_from (join " " (q :: rest))) as [w ws].
    change (Py.isspace " ") with true. cbn [fst snd].
    rewrite str_app_empty, bool_decide_eq_false_2 by done.
    by rewrite IH.
Qed.

Lemma filter_all {A} (P : A -> Prop) `{forall x, Decision (P x)} (l : list A) :
  Forall P l -> filter P l = l.
Proof.
  induction 1 as [|x l Hx _ IH]; [done|].
  rewrite filter_cons_True by done. by rewrite IH.
Qed.

(** X14.  Scopes are read from the claim [scope] when it is a text or a
    list, whatever [scp] holds (so an empty [scope] text gives no scope
    at all), and from [scp] in the same way only when [scope] is neither.
    From a text, the scopes are its words: none is empty, none holds
    whitespace, and the words of a list of such scopes joined by single
    spaces are that list again. *)
Theorem extract_scopes_words claims :
  let well_formed :=
    Forall (fun x => x <> EmptyString /\ str_all not_space x = true) in
  let neither name :=
    claims !! name = None \/ claims !! name = Some Auth.COther in
  (forall s,
      claims !! "scope" = Some (Auth.CStr s) ->
      Auth._extract_scopes claims = PyStr.split_ws s
      /\ well_formed (Auth._extract_scopes claims)
      /\ forall l, well_formed l -> s = join " " l ->
                   Auth._extract_scopes claims = l)
  /\ (forall items,
         claims !! "scope" = Some (Auth.CList items) ->
         Auth._extract_scopes claims = str <$> items)
  /\ (neither "scope" ->
      (forall s, claims !! "scp" = Some (Auth.CStr s) ->
                 Auth._extract_scopes claims = PyStr.split_ws s)
      /\ (forall items, claims !! "scp" = Some (Auth.CList items) ->
                        Auth._extract_scopes claims = str <$> items)
      /\ (neither "scp" -> Auth._extract_scopes claims = [])).
Proof.
  intros well_formed neither.
  assert (Hfil : forall s,
             filter (fun scope => scope <> EmptyString) (PyStr.split_ws s)
             = PyStr.split_ws s).
  { intros s. apply filter_all. eapply Forall_impl; [apply split_ws_spec|].
    by intros x [? _]. }
  split; [|split].
  - intros s Hs. unfold Auth._extract_scopes. rewrite Hs. simpl.
    rewrite Hfil. split; [done|]. split; [apply split_ws_spec|].
    intros l Hl ->. by apply split_ws_join.
  - intros items Hs. unfold Auth._extract_scopes. by rewrite Hs.
  - intros Hn.
    assert (Hd : default Auth.COther (claims !! "scope") = Auth.COther)
      by (by destruct Hn as [-> | ->]).
    unfold Auth._extract_scopes. rewrite Hd. split; [|split].
    + intros s ->. simpl. apply Hfil.
    + by intros items ->.
    + by intros [-> | ->].
Qed.

Lemma extract_scopes_words_witness :
  Auth._extract_scopes {[ "scope" := Auth.CStr "news.read  admin" ]}
  = ["news.read"; "admin"]
  /\ Auth._extract_scopes
       {[ "scope" := Auth.CStr ""; "scp" := Auth.CStr "news.read" ]}
     = [].
Proof.
  split.
  - destruct (extract_scopes_words {[ "scope" := Auth.CStr "news.read  admin" ]})
      as (H & _ & _).
    destruct (H "news.read  admin" ltac:(vm_compute; reflexivity)) as [-> _].
    vm_compute. reflexivity.
  - destruct (extract_scopes_words
                {[ "scope" := Auth.CStr ""; "scp" := Auth.CStr "news.read" ]})
      as (H & _ & _).
    destruct (H "" ltac:(vm_compute; reflexivity)) as [-> _].
    vm_compute. reflexivity.
Defined.

(** ** Lists in the environment *)

Lemma lstrip_head s : head_not_space (Py.lstrip s).
Proof.
  induction s as [|c s IH]; simpl; [done|].
  destruct (Py.isspace c) eqn:E; [done|]. simpl. done.
Qed.

Lemma lstrip_id s : head_not_space s -> Py.lstrip s = s.
Proof. destruct s as [|c s]; simpl; [done|]. by intros ->. Qed.

Lemma rstrip_head s : head_not_space s -> head_not_space (Py.rstrip s).
Proof.
  destruct s as [|c s]; simpl; [done|]. intros Hc.
  destruct (Py.rstrip s); [by rewrite Hc|done].
Qed.

Lemma rstrip_idem s : Py.rstrip (Py.rstrip s) = Py.rstrip s.
Proof.
  induction s as [|c s IH]; simpl; [done|].
  destruct (Py.rstrip s) as [|d r] eqn:E.
  - destruct (Py.isspace c) eqn:Ec; simpl; [done|]. by rewrite Ec.
  - change (Py.rstrip (String c (String d r))) with
      (match Py.rstrip (String d r) with
       | EmptyString =>
           if Py.isspace c then EmptyString else String c EmptyString
       | r0 => String c r0
       end).
    by rewrite IH.
Qed.

Lemma strip_idem s : Py.strip (Py.strip s) = Py.strip s.
Proof.
  unfold Py.strip.
  rewrite (lstrip_id (Py.rstrip (Py.lstrip s)))
    by apply rstrip_head, lstrip_head.
  apply rstrip_idem.
Qed.

Lemma lstrip_contains c s :
  Py.contains c (Py.lstrip s) = true -> Py.contains c s = true.
Proof.
  induction s as [|d s IH]; simpl; [done|].
  destruct (Py.isspace d); [|done]. intros H%IH.
  by destruct (decide (c = d)).
Qed.

Lemma rstrip_contains c s :
  Py.contains c (Py.rstrip s) = true -> Py.contains c s = true.
Proof.
  induction s as [|d s IH]; simpl; [done|].
  destruct (Py.rstrip s) as [|e r] eqn:E.
  - destruct (Py.isspace d); simpl; [done|].
    by destruct (decide (c = d)).
  - simpl. destruct (decide (c = d)); [done|]. exact IH.
Qed.

Lemma strip_contains c s :
  Py.contains c (Py.strip s) = true -> Py.contains c s = true.
Proof. intros H. by apply lstrip_contains, rstrip_contains. Qed.

Lemma split_pieces c s :
  PyStr.split c s <> []
  /\ Forall (fun x => Py.contains c x = false) (PyStr.split c s).
Proof.
  induction s as [|d s [Hne IH]]; simpl.
  - split; [done|]. by constructor.
  - destruct (decide (c = d)) as [->|Hcd].
    + split; [done|]. by constructor.
    + destruct (PyStr.split c s) as [|a rest]; [done|].
      split; [done|]. apply Forall_cons in IH as [Ha Hrest].
      constructor; [|done]. simpl. by destruct (decide (c = d)).
Qed.

Lemma split_without c s :
  Py.contains c s = false -> PyStr.split c s = [s].
Proof.
  induction s as [|d s IH]; simpl; [done|].
  destruct (decide (c = d)); [done|]. intros H. by rewrite IH.
Qed.

Lemma split_app c a s :
  Py.contains c a = false ->
  PyStr.split c (a +:+ String c s) = a :: PyStr.split c s.
Proof.
  induction a as [|d a IH].
  - intros _. change (EmptyString +:+ String c s) with (String c s).
    simpl. by destruct (decide (c = c)).
  - change (String d a +:+ String c s) with (String d (a +:+ String c s)).
    simpl. destruct (decide (c = d)); [done|]. intros H. by rewrite IH.
Qed.

Lemma split_join c items :
  items <> [] ->
  Forall (fun x => Py.contains c x = false) items ->
  PyStr.split c (join (String c EmptyString) items) = items.
Proof.
  intros Hne H. induction H as [|p l Hp Hl IH]; [done|].
  destruct l as [|q rest].
  - cbn [join]. by apply split_without.
  - change (join (String c EmptyString) (p :: q :: rest))
      with (p +:+ String c EmptyString +:+ join (String c EmptyString) (q :: rest)).
    change (String c EmptyString +:+ ?t) with (String c t).
    rewrite (split_app _ _ _ Hp). f_equal. by apply IH.
Qed.

(** X15.  A list read from the environment: [_get_csv] reads the variable,
    or the default when the variable is unset (a variable set to the empty
    text gives the empty list, not the default); no item is empty, none
    holds a comma, and each is trimmed; and a list of such items written
    with commas is read back as it is. *)
Theorem get_csv_items env name default :
  let raw := from_option (fun v => v) default (env !! name) in
  let well_formed :=
    Forall (fun x => x <> EmptyString /\ Py.contains "," x = false
                     /\ Py.strip x = x) in
  well_formed (Config._get_csv env name default)
  /\ (env !! name = None ->
      Config._get_csv env name default
      = Config._get_csv (<[name := default]> env) name default)
  /\ (env !! name = Some EmptyString -> Config._get_csv env name default = [])
  /\ (forall items,
         well_formed items ->
         raw = join "," items ->
         Config._get_csv env name default = items).
Proof.
  intros raw well_formed. unfold Config._get_csv. fold raw.
  split; [|split; [|split]].
  - apply Forall_forall. intros x [Hx Hin]%list_elem_of_filter.
    apply list_elem_of_fmap in Hin as (y & -> & Hin).
    split; [done|]. split; [|apply strip_idem].
    destruct (split_pieces "," raw) as [_ Hp]. rewrite Forall_forall in Hp.
    destruct (Py.contains "," (Py.strip y)) eqn:E; [|done].
    apply strip_contains in E. by rewrite (Hp y Hin) in E.
  - intros Hn. unfold raw. rewrite Hn, lookup_insert_eq. done.
  - intros He. unfold raw. rewrite He. reflexivity.
  - intros items Hw ->. destruct items as [|p l]; [reflexivity|].
    rewrite split_join; [|done|].
    + assert (Hs : Py.strip <$> (p :: l) = p :: l).
      { clear -Hw. induction Hw as [|x l' (_ & _ & Hx) _ IH]; [done|].
        cbn [fmap list_fmap]. rewrite Hx. f_equal. exact IH. }
      rewrite Hs. apply filter_all. eapply Forall_impl; [exact Hw|].
      by intros x [? _].
    + eapply Forall_impl; [exact Hw|]. by intros x (_ & ? & _).
Qed.

Lemma get_csv_items_witness :
  Config._get_csv {[ "AUTH_REQUIRED_SCOPES" := " news.read, ,admin " ]}
                  "AUTH_REQUIRED_SCOPES" "news.read"
  = ["news.read"; "admin"]
  /\ Config._get_csv ∅ "AUTH_REQUIRED_SCOPES" "news.read" = ["news.read"].
Proof.
  split; [vm_compute; reflexivity|].
  destruct (get_csv_items ∅ "AUTH_REQUIRED_SCOPES" "news.read")
    as (_ & _ & _ & H).
  apply H; [|reflexivity].
  constructor; [|constructor].
  split; [discriminate|]. split; vm_compute; reflexivity.
Defined.

(** ** The tools of the server *)

Lemma mapM_Forall {A B} (f : A -> M B) (Q : B -> Prop) l :
  (forall a r b r', f a r = (Ok b, r') -> Q b) ->
  forall r l' r', mapM f l r = (Ok l', r') -> Forall Q l'.
Proof.
  intros Hf. induction l as [|x l IH]; intros r l' r' H; simpl in H.
  - injection H as <- <-. constructor.
  - apply bind_inv_Ok in H as (y & r1 & Hy & H).
    apply bind_inv_Ok in H as (ys & r2 & Hys & [= <- <-]).
    constructor; eauto.
Qed.

Lemma get_symbol_news_symbol engine symbol date_from limit r rows r' :
  get_symbol_news engine symbol date_from limit r = (Ok rows, r') ->
  exists S r1,
    _validate_symbol engine symbol r = (Ok S, r1)
    /\ Forall (fun out => out !! "symbol" = Some (VStr S)) rows.
Proof.
  intros H. rewrite get_symbol_news_eq in H.
  apply bind_inv_Ok in H as (S & r1 & Hv & H). exists S, r1.
  split; [done|]. unfold news_of_symbol in H.
  apply bind_inv_Ok in H as (row_limit & r0 & _ & H).
  apply bind_inv_Ok in H as (dc & r2 & _ & H).
  apply bind_inv_Ok in H as ([w o] & r3 & _ & H).
  apply bind_inv_Ok in H as (raw & r4 & _ & H).
  eapply mapM_Forall; [|exact H]. intros row rr out rr' Ha.
  by apply augment_row_Ok in Ha as [? _].
Qed.

(** X16.  The tool [get_symbol_news] fails exactly as the repository call
    does (it adds no error of its own), and when it answers: the rows are
    those of the repository call, the count is their number, and the
    symbol of the answer is the canonical symbol when there is a row, but
    the symbol as the caller wrote it when there is none. *)
Theorem news_tool_reply engine symbol date_from limit r res r' :
  Server.get_symbol_news engine symbol date_from limit r = (res, r') ->
  (forall e, res = Raise e ->
             get_symbol_news engine symbol date_from limit r = (Raise e, r'))
  /\ (forall reply,
         res = Ok reply ->
         get_symbol_news engine symbol date_from limit r
         = (Ok (Server.reply_rows reply), r')
         /\ Server.reply_count reply = Py.len (Server.reply_rows reply)
         /\ (Server.reply_rows reply = [] ->
             Server.reply_symbol reply = VStr symbol)
         /\ (Server.reply_rows reply <> [] ->
             exists S r1,
               _validate_symbol engine symbol r = (Ok S, r1)
               /\ Server.reply_symbol reply = VStr S)).
Proof.
  intros H. unfold Server.get_symbol_news in H.
  apply bind_inv in H as [(rows & r1 & Hn & H)|(e & Hn & ->)]; cycle 1.
  { split; [by intros e' [= <-]|done]. }
  destruct (get_symbol_news_symbol _ _ _ _ _ _ _ Hn) as (S & r0 & Hv & HF).
  destruct rows as [|row rest].
  - unfold mbind, M_bind, mret, M_ret in H. injection H as <- <-.
    split; [done|]. intros reply [= <-]. cbn. repeat split; done.
  - apply Forall_cons in HF as [Hrow _]. rewrite Hrow in H.
    unfold mbind, M_bind, mret, M_ret in H. injection H as <- <-.
    split; [done|]. intros reply [= <-]. cbn.
    split; [done|]. split; [done|]. split; [done|].
    intros _. by exists S, r0.
Qed.

Lemma news_tool_reply_witness :
  (exists reply,
      fst (Server.get_symbol_news Demo.engine " aapl" None 10 Demo.repo)
      = Ok reply
      /\ Server.reply_symbol reply = VStr "AAPL")
  /\ exists reply,
       fst (Server.get_symbol_news Demo.clash " aapl" None 10 Demo.repo)
       = Ok reply
       /\ Server.reply_symbol reply = VStr " aapl".
Proof.
  split.
  - destruct (Server.get_symbol_news Demo.engine " aapl" None 10 Demo.repo)
      as [[reply|e] r'] eqn:E; [|vm_compute in E; discriminate E].
    destruct (news_tool_reply _ _ _ _ _ _ _ E) as [_ H].
    destruct (H reply eq_refl) as (_ & _ & _ & Hs).
    exists reply. split; [reflexivity|].
    destruct Hs as (S & r1 & Hv & ->).
    + vm_compute in E. injection E as <- _. discriminate.
    + vm_compute in Hv. by injection Hv as <- _.
  - destruct (Server.get_symbol_news Demo.clash " aapl" None 10 Demo.repo)
      as [[reply|e] r'] eqn:E; [|vm_compute in E; discriminate E].
    destruct (news_tool_reply _ _ _ _ _ _ _ E) as [_ H].
    destruct (H reply eq_refl) as (_ & _ & Hs & _).
    exists reply. split; [reflexivity|]. apply Hs.
    vm_compute in E. by injection E as <- _.
Defined.

(** X17.  The tool [list_symbols] always passes a limit, so what it lists
    is cut at [max_rows]: its answer holds the first
    [min(limit, max_rows)] names of the sorted inventory at most, its
    count is their number, and a limit of zero or less is an error even
    though the repository call itself can list without a limit. *)
Theorem symbols_tool_reply engine limit r res r' :
  Server.list_symbols engine limit r = (res, r') ->
  (forall reply,
      res = Ok reply ->
      0 < limit
      /\ Server.reply_symbols reply
         = Py.slice_to (Z.min limit (max_rows r))
                       (Py.sorted (_symbols_cache r'))
      /\ Server.reply_symbols_count reply
         = Py.len (Server.reply_symbols reply)
      /\ (0 <= max_rows r ->
          Server.reply_symbols_count reply <= Z.min limit (max_rows r)))
  /\ (limit <= 0 -> exists e, res = Raise e).
Proof.
  intros H. unfold Server.list_symbols in H.
  apply bind_inv in H as [(names & r1 & Hn & H)|(e & Hn & ->)]; cycle 1.
  { split; [done|]. by exists e. }
  unfold mret, M_ret in H. injection H as <- <-.
  pose proof (kept_list_symbols engine _ _ _ _ Hn) as ((_ & Hm & _) & _).
  apply list_symbols_inv in Hn as [_ [Hpos ->]]. rewrite Hm.
  split; [|intros; lia]. intros reply [= <-]. cbn.
  split; [done|]. split; [done|]. split; [done|].
  intros Hmax. apply len_slice_to. lia.
Qed.

Lemma symbols_tool_reply_witness :
  exists reply,
    fst (Server.list_symbols Demo.engine 500 (init "news" 2 50)) = Ok reply
    /\ Server.reply_symbols reply = ["AAPL"; "MSFT"]
    /\ Server.reply_symbols_count reply <= 2.
Proof.
  destruct (Server.list_symbols Demo.engine 500 (init "news" 2 50))
    as [[reply|e] r'] eqn:E; [|vm_compute in E; discriminate E].
  destruct (symbols_tool_reply _ _ _ _ _ E) as [H _].
  destruct (H reply eq_refl) as (_ & _ & _ & Hc).
  exists reply. split; [reflexivity|]. split.
  - vm_compute in E. by injection E as <- _.
  - apply Hc. discriminate.
Defined.
